(** * The SM2 Mnemosyne scheduler

    A shallow embedding of [libmnemosyne/schedulers/SM2_mnemosyne.py]:
    the time-domain helpers, the grading state machine [grade_answer],
    the five-stage queue builder [rebuild_queue], the queue driver
    [next_card], the initial grading [set_initial_grade] and the texts
    of the intervals, followed by the properties of the scheduler that
    the specification states about them, and by further properties read
    off the code.

    Conventions.
    - Python integers are unbounded: timestamps, intervals, grades and
      identifiers are [Z].
    - The clock, the time zone tables, the configuration dictionary, the
      random generator, the hooks and the card store are collaborators of
      the scheduler.  What the scheduler reads from them is a field of a
      record ([Platform], [Database], [GradeEnv]); what it writes to them
      (messages of the main widget, log entries) is accumulated in the
      state.
    - Clock readings are whole seconds, the value [int(time.time())].
    - [a / b] between integers is the true division.  Where the code only
      compares the quotient by [DAY] with an integer, or divides a
      multiple of [DAY], the floor division of [Z] stands for it, as it
      compares alike; in [next_rep_to_interval_string], where [int]
      truncates the quotient, it is the fraction [true_division]. *)

From Stdlib Require Import ZArith List String Ascii Bool Lia QArith.
From Stdlib Require Import Sorting.Sorted Permutation DecimalString.
Import ListNotations.

Local Open Scope Z_scope.

(** ** Module constants *)

Definition HOUR : Z := 60 * 60.
Definition DAY : Z := 24 * HOUR.
Definition MAX_INCREASE : Z := 30 * DAY.
Definition MAX_TOTAL : Z := 360 * DAY.

Definition GRADE_FORGOT : Z := 0.
Definition GRADE_LESS_BIG : Z := 1.
Definition GRADE_LESS_SMALL : Z := 2.
Definition GRADE_SAME : Z := 3.
Definition GRADE_MORE_SMALL : Z := 4.
Definition GRADE_MORE_BIG : Z := 5.

Definition REMINDER_TAG_STUB : string := "Reminder::Reminder"%string.

(** ** Cards *)

Record Card : Type := mkCard {
  _id : Z;                     (* card._id, the store's internal identifier *)
  fact_id : Z;                 (* card.fact._id *)
  tag_string : string;         (* card.tag_string() *)
  grade : Z;
  easiness : Q;
  acq_reps : Z;
  acq_reps_since_lapse : Z;
  ret_reps : Z;
  ret_reps_since_lapse : Z;
  lapses : Z;
  last_rep : Z;
  next_rep : Z
}.

Definition set_grade (g : Z) (c : Card) : Card :=
  mkCard (_id c) (fact_id c) (tag_string c) g (easiness c) (acq_reps c)
    (acq_reps_since_lapse c) (ret_reps c) (ret_reps_since_lapse c) (lapses c)
    (last_rep c) (next_rep c).
Definition set_easiness (e : Q) (c : Card) : Card :=
  mkCard (_id c) (fact_id c) (tag_string c) (grade c) e (acq_reps c)
    (acq_reps_since_lapse c) (ret_reps c) (ret_reps_since_lapse c) (lapses c)
    (last_rep c) (next_rep c).
Definition set_acq_reps (n : Z) (c : Card) : Card :=
  mkCard (_id c) (fact_id c) (tag_string c) (grade c) (easiness c) n
    (acq_reps_since_lapse c) (ret_reps c) (ret_reps_since_lapse c) (lapses c)
    (last_rep c) (next_rep c).
Definition set_acq_reps_since_lapse (n : Z) (c : Card) : Card :=
  mkCard (_id c) (fact_id c) (tag_string c) (grade c) (easiness c) (acq_reps c)
    n (ret_reps c) (ret_reps_since_lapse c) (lapses c)
    (last_rep c) (next_rep c).
Definition set_ret_reps (n : Z) (c : Card) : Card :=
  mkCard (_id c) (fact_id c) (tag_string c) (grade c) (easiness c) (acq_reps c)
    (acq_reps_since_lapse c) n (ret_reps_since_lapse c) (lapses c)
    (last_rep c) (next_rep c).
Definition set_ret_reps_since_lapse (n : Z) (c : Card) : Card :=
  mkCard (_id c) (fact_id c) (tag_string c) (grade c) (easiness c) (acq_reps c)
    (acq_reps_since_lapse c) (ret_reps c) n (lapses c)
    (last_rep c) (next_rep c).
Definition set_lapses (n : Z) (c : Card) : Card :=
  mkCard (_id c) (fact_id c) (tag_string c) (grade c) (easiness c) (acq_reps c)
    (acq_reps_since_lapse c) (ret_reps c) (ret_reps_since_lapse c) n
    (last_rep c) (next_rep c).
Definition set_last_rep (t : Z) (c : Card) : Card :=
  mkCard (_id c) (fact_id c) (tag_string c) (grade c) (easiness c) (acq_reps c)
    (acq_reps_since_lapse c) (ret_reps c) (ret_reps_since_lapse c) (lapses c)
    t (next_rep c).
Definition set_next_rep (t : Z) (c : Card) : Card :=
  mkCard (_id c) (fact_id c) (tag_string c) (grade c) (easiness c) (acq_reps c)
    (acq_reps_since_lapse c) (ret_reps c) (ret_reps_since_lapse c) (lapses c)
    (last_rep c) t.

(** ** The platform: configuration, [time] and [datetime] *)

Record Platform : Type := mkPlatform {
  (* self.config()["day_starts_at"] *)
  day_starts_at : Z;
  (* time.localtime(t).tm_isdst is non-zero *)
  tm_isdst : Z -> bool;
  (* time.daylight is non-zero *)
  daylight : bool;
  (* time.altzone and time.timezone, seconds west of UTC *)
  altzone : Z;
  timezone : Z;
  (* seconds east of UTC of local time at instant t, as used by
     datetime.date.fromtimestamp *)
  utcoffset : Z -> Z;
  (* datetime.date.fromtimestamp(t) raises OverflowError *)
  fromtimestamp_overflows : Z -> bool
}.

(** A [datetime.date] is represented by its ordinal: the number of days
    between 1970-01-01 and the date.  [date_fromtimestamp] is the local
    calendar date of an instant; [timegm] of the time tuple of a date is
    00:00 UTC of that date.

    [datetime.date.fromtimestamp] gives a date, or raises [OverflowError]
    where the platform cannot hold the time stamp, for the instants from
    the epoch on whose local date is [date_max] at most, and the
    definitions below are about these.  For a later instant it raises
    [ValueError], as the year is beyond 9999, and for an instant before the
    epoch it raises [OSError] on some platforms; [midnight_UTC] catches
    neither, and [None] does not stand for them. *)
Definition date : Type := Z.

(** [datetime.date.max], the date 9999-12-31. *)
Definition date_max : date := 2932896.

Definition date_fromtimestamp (pf : Platform) (t : Z) : option date :=
  if fromtimestamp_overflows pf t then None
  else Some ((t + utcoffset pf t) / DAY).

Definition timegm (d : date) : Z := d * DAY.

Definition midnight_UTC (pf : Platform) (timestamp : Z) : option Z :=
  match date_fromtimestamp pf timestamp with
  | Some date_only => Some (timegm date_only)
  | None =>
      (* except OverflowError *)
      match date_fromtimestamp pf (2 ^ 31 - 2) with
      | Some date_only => Some (timegm date_only)
      | None => None
      end
  end.

(** [now] is the reading of [time.time()] when the caller passes none. *)
Definition adjusted_now (pf : Platform) (now : Z) : Z :=
  let now := now - day_starts_at pf * HOUR in
  if tm_isdst pf now && daylight pf then now - altzone pf
  else now - timezone pf.

(** ** Messages shown through the main widget and log entries *)

Inductive UIMessage : Type :=
| show_error (msg : string)
| show_information (msg : string).

Record LogEntry : Type := mkLogEntry {
  log_card : Card;
  log_scheduled_interval : Z;
  log_actual_interval : Z
}.

(** [true_scheduled_interval] returns the interval and the messages it
    shows; [now] is the reading of [time.time()] it makes. *)
Definition true_scheduled_interval (pf : Platform) (now : Z) (card : Card)
  : Z * list UIMessage :=
  let interval := next_rep card - last_rep card in
  if grade card =? GRADE_FORGOT then
    (interval,
     if negb (interval =? 0)
     then [show_error "Internal error: interval not zero."%string] else [])
  else
    let interval := interval + day_starts_at pf * HOUR in
    let interval :=
      if tm_isdst pf now && daylight pf then interval + altzone pf
      else interval + timezone pf in
    (interval, []).

(** ** The card store

    The scheduler reads the store through these queries.  Rows are pairs
    [(_card_id, _fact_id)]. *)

Record Database : Type := mkDatabase {
  is_loaded : bool;
  active_count : Z;
  (* cards_due_for_ret_rep(adjusted_now, sort_key, limit) *)
  cards_due_for_ret_rep : Z -> string -> Z -> list (Z * Z);
  (* cards_to_relearn(grade, sort_key) *)
  cards_to_relearn : Z -> string -> list (Z * Z);
  (* cards_new_memorising(grade) *)
  cards_new_memorising : Z -> list (Z * Z);
  (* cards_unseen(limit) *)
  cards_unseen : Z -> list (Z * Z);
  (* cards_learn_ahead(max_next_rep, sort_key) *)
  cards_learn_ahead : Z -> string -> list (Z * Z);
  (* card(_id, is_id_internal=True) *)
  card : Z -> Card;
  (* sister_card_count_scheduled_between(card, lo, hi) *)
  sister_card_count_scheduled_between : Card -> Z -> Z -> Z
}.

(** ** Scheduler state *)

Record Scheduler : Type := mkScheduler {
  _card_ids_in_queue : list Z;
  _fact_ids_in_queue : list Z;
  _fact_ids_memorised : list Z;
  _card_id_last : option Z;
  new_only : bool;
  stage : Z;
  warned_about_too_many_cards : bool;
  (* read with getattr(self, "_in_learn_ahead", False) *)
  _in_learn_ahead : bool
}.

Definition set_queue (cards facts : list Z) (s : Scheduler) : Scheduler :=
  mkScheduler cards facts (_fact_ids_memorised s) (_card_id_last s)
    (new_only s) (stage s) (warned_about_too_many_cards s) (_in_learn_ahead s).
Definition set_card_ids_in_queue (cards : list Z) (s : Scheduler) : Scheduler :=
  set_queue cards (_fact_ids_in_queue s) s.
Definition set_fact_ids_memorised (m : list Z) (s : Scheduler) : Scheduler :=
  mkScheduler (_card_ids_in_queue s) (_fact_ids_in_queue s) m (_card_id_last s)
    (new_only s) (stage s) (warned_about_too_many_cards s) (_in_learn_ahead s).
Definition set_card_id_last (l : option Z) (s : Scheduler) : Scheduler :=
  mkScheduler (_card_ids_in_queue s) (_fact_ids_in_queue s)
    (_fact_ids_memorised s) l
    (new_only s) (stage s) (warned_about_too_many_cards s) (_in_learn_ahead s).
Definition set_stage (n : Z) (s : Scheduler) : Scheduler :=
  mkScheduler (_card_ids_in_queue s) (_fact_ids_in_queue s)
    (_fact_ids_memorised s) (_card_id_last s)
    (new_only s) n (warned_about_too_many_cards s) (_in_learn_ahead s).
Definition set_warned (b : bool) (s : Scheduler) : Scheduler :=
  mkScheduler (_card_ids_in_queue s) (_fact_ids_in_queue s)
    (_fact_ids_memorised s) (_card_id_last s)
    (new_only s) (stage s) b (_in_learn_ahead s).
Definition set_in_learn_ahead (b : bool) (s : Scheduler) : Scheduler :=
  mkScheduler (_card_ids_in_queue s) (_fact_ids_in_queue s)
    (_fact_ids_memorised s) (_card_id_last s)
    (new_only s) (stage s) (warned_about_too_many_cards s) b.

(** [reset] on a scheduler that has not learnt ahead.  [reset] assigns
    every attribute but [_in_learn_ahead], which only [rebuild_queue]
    assigns and [getattr] reads as [False] as long as it is absent: a
    scheduler that learnt ahead before [reset] keeps it [True] until the
    next rebuild. *)
Definition reset (new_only : bool) : Scheduler :=
  mkScheduler [] [] [] None new_only (if new_only then 3 else 1) false false.

(** [len(l)] and [x in l] on a list. *)
Definition len {A : Type} (l : list A) : Z := Z.of_nat (List.length l).

Definition mem (x : Z) (l : list Z) : bool := existsb (Z.eqb x) l.

(** [list.remove(x)]: drops the first occurrence; [None] is the
    [ValueError] of an absent element. *)
Fixpoint list_remove (x : Z) (l : list Z) : option (list Z) :=
  match l with
  | [] => None
  | y :: l' =>
      if y =? x then Some l'
      else match list_remove x l' with
           | Some r => Some (y :: r)
           | None => None
           end
  end.

(** ** The queue builder *)

(** The loop of stages 2 and 3 over the rows of a query.  The result is
    the queue, the facts of the queue and [non_memorised_in_queue]. *)
Fixpoint add_non_memorised (rows : list (Z * Z)) (limit : Z)
    (cards facts : list Z) (non_memorised_in_queue : Z)
  : list Z * list Z * Z :=
  match rows with
  | [] => (cards, facts, non_memorised_in_queue)
  | (_card_id, _fact_id) :: rows' =>
      if negb (mem _fact_id facts) then
        let '(cards, facts, non_memorised_in_queue) :=
          if non_memorised_in_queue <? limit
          then (cards ++ [_card_id] ++ [_card_id], facts ++ [_fact_id],
                non_memorised_in_queue + 1)
          else (cards, facts, non_memorised_in_queue) in
        if non_memorised_in_queue =? limit
        then (cards, facts, non_memorised_in_queue)   (* break *)
        else add_non_memorised rows' limit cards facts non_memorised_in_queue
      else add_non_memorised rows' limit cards facts non_memorised_in_queue
  end.

(** The loops of stage 4 over the unseen cards: [skip] lists the facts to
    keep away from besides those of the queue.  The boolean tells that
    the limit was reached, in which case the builder returns. *)
Fixpoint add_unseen (rows : list (Z * Z)) (limit : Z) (skip : list Z)
    (cards facts : list Z) (non_memorised_in_queue : Z)
  : list Z * list Z * Z * bool :=
  match rows with
  | [] => (cards, facts, non_memorised_in_queue, false)
  | (_card_id, _fact_id) :: rows' =>
      if negb (mem _fact_id facts) && negb (mem _fact_id skip) then
        let cards := cards ++ [_card_id] in
        let facts := facts ++ [_fact_id] in
        let non_memorised_in_queue := non_memorised_in_queue + 1 in
        if non_memorised_in_queue =? limit
        then (cards, facts, non_memorised_in_queue, true)
        else add_unseen rows' limit skip cards facts non_memorised_in_queue
      else add_unseen rows' limit skip cards facts non_memorised_in_queue
  end.

(** The loop of stage 5: the queue and [_in_learn_ahead]. *)
Fixpoint add_learn_ahead (db : Database) (rows : list (Z * Z))
    (cards : list Z) (in_learn_ahead : bool) : list Z * bool :=
  match rows with
  | [] => (cards, in_learn_ahead)
  | (_card_id, _fact_id) :: rows' =>
      let c := card db _card_id in
      if (next_rep c - last_rep c) / DAY <? 34
      then add_learn_ahead db rows' cards in_learn_ahead   (* continue *)
      else add_learn_ahead db rows' (cards ++ [_card_id]) true
  end.

Definition restart_stage (s : Scheduler) : Z :=
  if new_only s then 3 else 2.

Definition rebuild_stage5 (db : Database) (pf : Platform) (now : Z)
    (learn_ahead : bool) (s : Scheduler) : Scheduler :=
  if negb learn_ahead then set_stage (restart_stage s) s
  else
    let max_next_rep := adjusted_now pf now + DAY * 7 in
    let '(cards, la) :=
      add_learn_ahead db (cards_learn_ahead db max_next_rep "-interval"%string)
        (_card_ids_in_queue s) (_in_learn_ahead s) in
    set_stage 2 (set_in_learn_ahead la (set_card_ids_in_queue cards s)).

Definition rebuild_stage4 (db : Database) (pf : Platform) (now : Z)
    (learn_ahead : bool) (limit non_memorised_in_queue : Z) (s : Scheduler)
  : Scheduler :=
  if stage s <=? 4 then
    let '(cards, facts, n, hit) :=
      add_unseen (cards_unseen db limit) limit (_fact_ids_memorised s)
        (_card_ids_in_queue s) (_fact_ids_in_queue s)
        non_memorised_in_queue in
    let s := set_queue cards facts s in
    if hit then set_stage (restart_stage s) s
    else
      let '(s, n, hit) :=
        if len (_fact_ids_in_queue s) <=? 2 then
          let '(cards, facts, n, hit) :=
            add_unseen (cards_unseen db limit) limit []
              (_card_ids_in_queue s) (_fact_ids_in_queue s) n in
          (set_queue cards facts s, n, hit)
        else (s, n, false) in
      if hit then set_stage (restart_stage s) s
      else
        let s :=
          if len (_card_ids_in_queue s) =? 0
          then set_stage 5 s else s in
        rebuild_stage5 db pf now learn_ahead s
  else rebuild_stage5 db pf now learn_ahead s.

Definition rebuild_stage3 (db : Database) (pf : Platform) (now : Z)
    (learn_ahead : bool) (limit non_memorised_in_queue : Z) (s : Scheduler)
  : Scheduler :=
  if stage s <=? 3 then
    let '(cards, facts, n) :=
      add_non_memorised (cards_new_memorising db GRADE_FORGOT) limit
        (_card_ids_in_queue s) (_fact_ids_in_queue s)
        non_memorised_in_queue in
    let s := set_queue cards facts s in
    if n =? limit then s
    else
      let s :=
        if len (_card_ids_in_queue s) =? 0
        then set_stage 4 s else s in
      rebuild_stage4 db pf now learn_ahead limit n s
  else rebuild_stage4 db pf now learn_ahead limit non_memorised_in_queue s.

Definition rebuild_stage2 (db : Database) (pf : Platform) (now : Z)
    (learn_ahead : bool) (s : Scheduler) : Scheduler :=
  let non_memorised_in_queue := 0 in
  let limit := 50 in
  if stage s =? 2 then
    let sort_key := "last_rep"%string in
    let '(cards, facts, n) :=
      add_non_memorised (cards_to_relearn db GRADE_FORGOT sort_key) limit
        (_card_ids_in_queue s) (_fact_ids_in_queue s)
        non_memorised_in_queue in
    let s := set_queue cards facts s in
    if n =? limit then s
    else
      let s :=
        if len (_card_ids_in_queue s) =? 0
        then set_stage 3 s else s in
      rebuild_stage3 db pf now learn_ahead limit n s
  else rebuild_stage3 db pf now learn_ahead limit non_memorised_in_queue s.

Definition rebuild_stage1 (db : Database) (pf : Platform) (now : Z)
    (learn_ahead : bool) (s : Scheduler) : Scheduler :=
  if stage s =? 1 then
    let sort_key := "-interval"%string in
    let rows := cards_due_for_ret_rep db (adjusted_now pf now) sort_key 50 in
    let s := set_queue (_card_ids_in_queue s ++ map fst rows)
                       (_fact_ids_in_queue s ++ map snd rows) s in
    if negb (len (_card_ids_in_queue s) =? 0) then s
    else rebuild_stage2 db pf now learn_ahead (set_stage 2 s)
  else rebuild_stage2 db pf now learn_ahead s.

(** [now] is the reading of the clock during the rebuild. *)
Definition rebuild_queue (db : Database) (pf : Platform) (now : Z)
    (learn_ahead : bool) (s : Scheduler) : Scheduler :=
  if negb (is_loaded db) || (active_count db =? 0) then s
  else
    let s := set_in_learn_ahead false (set_queue [] [] s) in
    rebuild_stage1 db pf now learn_ahead s.

Definition is_in_queue (c : Card) (s : Scheduler) : bool :=
  mem (_id c) (_card_ids_in_queue s).

Definition remove_from_queue_if_present (c : Card) (s : Scheduler)
  : Scheduler :=
  match list_remove (_id c) (_card_ids_in_queue s) with
  | None => s
  | Some q =>
      match list_remove (_id c) q with
      | None => set_card_ids_in_queue q s
      | Some q' => set_card_ids_in_queue q' s
      end
  end.

(** ** The queue driver *)

(** Truth value of [self._card_id_last]: [None] and [0] are false. *)
Definition truthy (o : option Z) : bool :=
  match o with
  | Some z => negb (z =? 0)
  | None => false
  end.

(** [set(l1) == set(l2)] *)
Definition set_eqb (l1 l2 : list Z) : bool :=
  forallb (fun x => mem x l2) l1 && forallb (fun x => mem x l1) l2.

(** What [next_card] returns: [None], or the card loaded from the store
    for an identifier; together with the state it leaves. *)
Inductive NextCard : Type :=
| NoCard (s : Scheduler)
| Shown (_card_id : Z) (s : Scheduler).

(** The [while _card_id == self._card_id_last] loop, for a last card
    [last].  [fuel] bounds the number of tests of the loop condition;
    [None] tells that it did not suffice. *)
Fixpoint next_card_loop (fuel : nat) (db : Database) (pf : Platform)
    (now : Z) (learn_ahead : bool) (last : Z) (_card_id : Z) (s : Scheduler)
  : option NextCard :=
  match fuel with
  | O => None
  | S fuel' =>
      if _card_id =? last then
        match _card_ids_in_queue s with
        | [] =>
            let s := rebuild_queue db pf now learn_ahead s in
            match _card_ids_in_queue s with
            | [] => Some (NoCard s)
            | next :: queue' =>
                if set_eqb (next :: queue') [_card_id]
                then Some (Shown _card_id s)
                else next_card_loop fuel' db pf now learn_ahead last next
                       (set_card_ids_in_queue queue' s)
            end
        | next :: queue' =>
            next_card_loop fuel' db pf now learn_ahead last next
              (set_card_ids_in_queue queue' s)
        end
      else Some (Shown _card_id (set_card_id_last (Some _card_id) s))
  end.

Definition next_card (fuel : nat) (db : Database) (pf : Platform) (now : Z)
    (learn_ahead : bool) (s : Scheduler) : option NextCard :=
  let s :=
    if len (_card_ids_in_queue s) =? 0
    then rebuild_queue db pf now learn_ahead s else s in
  match _card_ids_in_queue s with
  | [] => Some (NoCard s)
  | _card_id :: queue' =>
      let s := set_card_ids_in_queue queue' s in
      if truthy (_card_id_last s) then
        match _card_id_last s with
        | Some last =>
            next_card_loop fuel db pf now learn_ahead last _card_id s
        | None => Some (Shown _card_id (set_card_id_last (Some _card_id) s))
        end
      else Some (Shown _card_id (set_card_id_last (Some _card_id) s))
  end.

Definition is_prefetch_allowed (card_to_grade : Card) (s : Scheduler)
  : bool :=
  match _card_ids_in_queue s with
  | head :: _ =>
      if _id card_to_grade =? head then false
      else 3 <=? len (_card_ids_in_queue s)
  | [] => 3 <=? len (_card_ids_in_queue s)
  end.

(** ** Strings: what [grade_answer] does with the tags of a card *)

(** [s.split(sep)] for a non-empty separator: [skip] counts the characters
    of a separator just matched that are still to be passed over, [cur] is
    the piece being read. *)
Fixpoint split_go (sep s : string) (skip : nat) (cur : string)
  : list string :=
  match s with
  | EmptyString => [cur]
  | String c s' =>
      match skip with
      | S k => split_go sep s' k cur
      | O =>
          if String.prefix sep s
          then cur :: split_go sep s' (String.length sep - 1) EmptyString
          else split_go sep s' 0 (cur ++ String c EmptyString)%string
      end
  end.

Definition split (sep s : string) : list string :=
  split_go sep s 0 EmptyString.

(** [s[n:]] *)
Fixpoint drop_chars (n : nat) (s : string) : string :=
  match n, s with
  | O, _ => s
  | S k, String _ s' => drop_chars k s'
  | S _, EmptyString => EmptyString
  end.

Definition is_space (c : ascii) : bool :=
  let n := nat_of_ascii c in
  (Nat.eqb n 32 || (Nat.leb 9 n && Nat.leb n 13))%bool.

Fixpoint lstrip (s : string) : string :=
  match s with
  | String c s' => if is_space c then lstrip s' else s
  | EmptyString => EmptyString
  end.

Fixpoint rstrip (s : string) : string :=
  match s with
  | String c s' =>
      match rstrip s' with
      | EmptyString => if is_space c then EmptyString
                       else String c EmptyString
      | r => String c r
      end
  | EmptyString => EmptyString
  end.

Definition digit_of (c : ascii) : option Z :=
  let n := Z.of_nat (nat_of_ascii c) in
  if (48 <=? n) && (n <=? 57) then Some (n - 48) else None.

Fixpoint parse_digits (s : string) (acc : Z) : option Z :=
  match s with
  | EmptyString => Some acc
  | String c s' =>
      match digit_of c with
      | Some d => parse_digits s' (10 * acc + d)
      | None => None
      end
  end.

(** [int(s)] on a string in base 10: optional white space around an
    optional sign and at least one decimal digit.  The parser reads ASCII
    white space and digits: on a [plain] string, [Some n] is the integer
    [int] returns and [None] is its [ValueError]; [int] also reads single
    underscores between digits and the digits and white space beyond
    ASCII, on which the parser gives [None] as well. *)
Definition int_of_string (s : string) : option Z :=
  match rstrip (lstrip s) with
  | EmptyString => None
  | String c s' =>
      if Ascii.eqb c "-" then
        match s' with
        | EmptyString => None
        | _ => option_map Z.opp (parse_digits s' 0)
        end
      else if Ascii.eqb c "+" then
        match s' with
        | EmptyString => None
        | _ => parse_digits s' 0
        end
      else parse_digits (String c s') 0
  end.

(** The strings of printable ASCII characters without an underscore. *)
Fixpoint printable (s : string) : bool :=
  match s with
  | EmptyString => true
  | String c s' =>
      let n := nat_of_ascii c in
      (Nat.leb 32 n && Nat.leb n 126 && negb (Nat.eqb n 95)
       && printable s')%bool
  end.

(** The strings on which [int_of_string] is [int]: printable ones, of
    4300 characters at most ([int] refuses longer numbers unless it is
    set up otherwise). *)
Definition plain (s : string) : bool :=
  printable s && Nat.leb (String.length s) 4300.

(** ** The grading state machine *)

Inductive Exn : Type :=
| IndexError | UnboundLocalError | ValueError | OverflowError.

(** What one call of [grade_answer] reads from its collaborators. *)
Record GradeEnv : Type := mkGradeEnv {
  (* the hooks "before_repetition" and "after_repetition", run in turn *)
  before_repetition : Card -> Card;
  after_repetition : Card -> Card;
  (* self.database().current_criterion().apply_to_card *)
  apply_to_card : Card -> Card;
  (* time.time() as read by true_scheduled_interval *)
  time_scheduled : Z;
  (* int(self.stopwatch().start_time) *)
  start_time : Z;
  (* int(time.time()) when the card is updated *)
  time_graded : Z;
  (* the draw of the random generator behind random.choice *)
  random_draw : nat
}.

(** The state [grade_answer] works on: the card it was given, the
    scheduler, the messages shown and the log, oldest first. *)
Record GState : Type := mkGState {
  g_card : Card;
  g_sched : Scheduler;
  g_shown : list UIMessage;
  g_logged : list LogEntry
}.

Inductive Result (A : Type) : Type :=
| Returned (a : A) (st : GState)
| Raised (e : Exn) (st : GState)
| OutOfFuel.
Arguments Returned {A} a st.
Arguments Raised {A} e st.
Arguments OutOfFuel {A}.

Definition M (A : Type) : Type := GState -> Result A.

Definition ret {A : Type} (a : A) : M A := fun st => Returned a st.

Definition bind {A B : Type} (m : M A) (k : A -> M B) : M B :=
  fun st =>
    match m st with
    | Returned a st' => k a st'
    | Raised e st' => Raised e st'
    | OutOfFuel => OutOfFuel
    end.

Definition raise {A : Type} (e : Exn) : M A := fun st => Raised e st.

Declare Scope sched_scope.
Delimit Scope sched_scope with sched.
Notation "x <- m ;; k" := (bind m (fun x => k))
  (at level 61, m at next level, right associativity) : sched_scope.
Notation "m ;; k" := (bind m (fun _ => k))
  (at level 61, right associativity) : sched_scope.
Local Open Scope sched_scope.

Definition get_card : M Card := fun st => Returned (g_card st) st.
Definition get_sched : M Scheduler := fun st => Returned (g_sched st) st.
Definition update_card (f : Card -> Card) : M unit :=
  fun st => Returned tt
    (mkGState (f (g_card st)) (g_sched st) (g_shown st) (g_logged st)).
Definition update_sched (f : Scheduler -> Scheduler) : M unit :=
  fun st => Returned tt
    (mkGState (g_card st) (f (g_sched st)) (g_shown st) (g_logged st)).
Definition show (msgs : list UIMessage) : M unit :=
  fun st => Returned tt
    (mkGState (g_card st) (g_sched st) (g_shown st ++ msgs) (g_logged st)).
Definition log_repetition (e : LogEntry) : M unit :=
  fun st => Returned tt
    (mkGState (g_card st) (g_sched st) (g_shown st) (g_logged st ++ [e])).
Definition when (b : bool) (m : M unit) : M unit :=
  if b then m else ret tt.

(** Reading a local variable that may not have been assigned. *)
Definition read_local {A : Type} (v : option A) : M A :=
  match v with
  | Some a => ret a
  | None => raise UnboundLocalError
  end.

Definition or_raise {A : Type} (e : Exn) (v : option A) : M A :=
  match v with
  | Some a => ret a
  | None => raise e
  end.

(** [t[i]] on a tuple: a negative index counts from the end. *)
Definition tuple_index (t : list Z) (i : Z) : option Z :=
  let i := if i <? 0 then i + len t else i in
  if (i <? 0) || (len t <=? i) then None
  else nth_error t (Z.to_nat i).

Definition calculate_initial_interval (grade : Z) : option Z :=
  tuple_index [0; 1 * DAY; 1 * DAY; 1 * DAY; 2 * DAY; 4 * DAY] grade.

(** The body of the [while] loop of [avoid_sister_cards] runs at most
    [fuel] times. *)
Fixpoint avoid_sister_cards (fuel : nat) (db : Database) (c : Card)
  : option Card :=
  if sister_card_count_scheduled_between db c (next_rep c) (next_rep c + DAY)
     =? 0
  then Some c
  else match fuel with
       | O => None
       | S fuel' =>
           avoid_sister_cards fuel' db (set_next_rep (next_rep c + DAY) c)
       end.

(** The new interval of a card that stays in the retention phase; [None]
    when no assignment to [new_interval] was reached.  The quotient
    [int(float(actual_interval) / float(factor))] truncates towards zero;
    it is the integer quotient for intervals below 2^50 seconds. *)
Definition retention_interval
    (new_grade scheduled_interval actual_interval : Z) : option Z :=
  let new_interval : option Z := None in
  let new_interval :=
    if mem new_grade [GRADE_LESS_SMALL; GRADE_LESS_BIG] then
      let factor := if new_grade =? GRADE_LESS_BIG then 3 else 2 in
      let reduced_interval := Z.quot actual_interval factor in
      let new_interval := Z.min scheduled_interval reduced_interval in
      (* new_interval < 2.5 * DAY *)
      Some (if 2 * new_interval <? 5 * DAY then DAY else new_interval)
    else new_interval in
  let new_interval :=
    if new_grade =? GRADE_SAME then Some actual_interval
    else new_interval in
  let new_interval :=
    if (new_grade =? GRADE_MORE_SMALL) || (new_grade =? GRADE_MORE_BIG) then
      let factor := if new_grade =? GRADE_MORE_BIG then 3 else 2 in
      let new_interval := actual_interval * factor in
      Some (Z.max new_interval (2 * DAY))
    else new_interval in
  match new_interval with
  | Some new_interval =>
      Some (if new_interval <? DAY then DAY else new_interval)
  | None => None
  end.

(** The new interval of a card that leaves the acquisition phase. *)
Definition acquired_interval (new_grade : Z) : option Z :=
  if mem new_grade [GRADE_LESS_BIG; GRADE_LESS_SMALL; GRADE_SAME]
  then Some DAY
  else if new_grade =? GRADE_MORE_SMALL then Some (2 * DAY)
  else if new_grade =? GRADE_MORE_BIG then Some (4 * DAY)
  else None.

(** The loop over the tags: caps [new_interval] to the value of each
    reminder tag.  [None] is the [ValueError] of [int]. *)
Fixpoint reminder_cap (tags : list string) (new_interval : Z)
    (add_noise : bool) : option (Z * bool) :=
  match tags with
  | [] => Some (new_interval, add_noise)
  | tag :: tags' =>
      if negb (String.prefix REMINDER_TAG_STUB tag)
      then reminder_cap tags' new_interval add_noise   (* continue *)
      else
        match int_of_string
                (drop_chars (String.length REMINDER_TAG_STUB) tag) with
        | None => None
        | Some numdays =>
            let intmax := numdays * DAY in
            let new_interval := Z.min new_interval intmax in
            let add_noise :=
              if intmax - DAY <=? new_interval then true else add_noise in
            reminder_cap tags' new_interval add_noise
        end
  end.

(** [random.choice(seq)] for a draw [r] of the generator. *)
Definition random_choice (seq : list Z) (r : nat) : Z :=
  nth (r mod List.length seq) seq 0.

Definition too_many_cards_message : string :=
  ("You've memorised 15 new or failed cards." ++ " " ++
   "If you do this for many days, you could get a big workload later.")%string.

Section GradeAnswer.

Variable fuel : nat.
Variable db : Database.
Variable pf : Platform.
Variable env : GradeEnv.

(** The branch on [(card.grade, new_grade)]: updates the counters of the
    card and gives [new_interval], if it was assigned. *)
Definition grade_transition (card : Card) (new_grade : Z) (dry_run : bool)
    (scheduled_interval actual_interval : Z) : M (option Z) :=
  if grade card =? -1 then
    update_card (set_easiness 2) ;;
    update_card (set_acq_reps 1) ;;
    update_card (set_acq_reps_since_lapse 1) ;;
    new_interval <- or_raise IndexError (calculate_initial_interval new_grade) ;;
    ret (Some new_interval)
  else if mem (grade card) [GRADE_FORGOT] && mem new_grade [GRADE_FORGOT] then
    update_card (fun c => set_acq_reps (acq_reps c + 1) c) ;;
    update_card (fun c =>
      set_acq_reps_since_lapse (acq_reps_since_lapse c + 1) c) ;;
    ret (Some 0)
  else if mem (grade card) [GRADE_FORGOT]
          && negb (mem new_grade [GRADE_FORGOT]) then
    update_card (fun c => set_acq_reps (acq_reps c + 1) c) ;;
    update_card (fun c =>
      set_acq_reps_since_lapse (acq_reps_since_lapse c + 1) c) ;;
    let new_interval := acquired_interval new_grade in
    when (negb dry_run && (grade card =? 0))
      (update_sched (fun s =>
         if mem (_id card) (_card_ids_in_queue s) then
           match list_remove (_id card) (_card_ids_in_queue s) with
           | Some q => set_card_ids_in_queue q s
           | None => s
           end
         else s)) ;;
    ret new_interval
  else if negb (mem (grade card) [GRADE_FORGOT])
          && mem new_grade [GRADE_FORGOT] then
    update_card (fun c => set_ret_reps (ret_reps c + 1) c) ;;
    update_card (fun c => set_lapses (lapses c + 1) c) ;;
    update_card (set_acq_reps_since_lapse 0) ;;
    update_card (set_ret_reps_since_lapse 0) ;;
    ret (Some 0)
  else
    update_card (fun c => set_ret_reps (ret_reps c + 1) c) ;;
    update_card (fun c =>
      set_ret_reps_since_lapse (ret_reps_since_lapse c + 1) c) ;;
    new_interval <- read_local
      (retention_interval new_grade scheduled_interval actual_interval) ;;
    ret (Some new_interval).

(** [grade_answer] on the card of the state. *)
Definition grade_answer_body (new_grade : Z) (dry_run : bool) : M Z :=
  when (negb dry_run) (update_card (before_repetition env)) ;;
  card <- get_card ;;
  let '(scheduled_interval, msgs) :=
    true_scheduled_interval pf (time_scheduled env) card in
  show msgs ;;
  let actual_interval :=
    if grade card =? -1 then 0 else start_time env - last_rep card in
  when (negb dry_run && (grade card =? GRADE_FORGOT)
        && negb (new_grade =? GRADE_FORGOT))
    (update_sched (fun s =>
       set_fact_ids_memorised (_fact_ids_memorised s ++ [fact_id card]) s)) ;;
  new_interval <- grade_transition card new_grade dry_run
                    scheduled_interval actual_interval ;;
  new_interval <- read_local new_interval ;;
  let new_interval := Z.min MAX_TOTAL new_interval in
  let diff_interval := Z.min MAX_INCREASE (new_interval - scheduled_interval) in
  let new_interval := scheduled_interval + diff_interval in
  let add_noise := false in
  capped <- or_raise ValueError
    (reminder_cap (split ", " (tag_string card)) new_interval add_noise) ;;
  let '(new_interval, add_noise) := capped in
  let add_noise :=
    if (40 <=? new_interval / DAY)
       && mem new_grade [GRADE_SAME; GRADE_MORE_SMALL; GRADE_MORE_BIG]
    then true else add_noise in
  let new_interval :=
    if add_noise
    then new_interval + DAY * random_choice [-2; -1; 0; 1; 2] (random_draw env)
    else new_interval in
  if dry_run then ret new_interval
  else
    update_card (set_grade new_grade) ;;
    update_card (set_last_rep (time_graded env)) ;;
    (if negb (new_grade =? GRADE_FORGOT) then
       c <- get_card ;;
       next <- or_raise OverflowError
                 (midnight_UTC pf (last_rep c + new_interval)) ;;
       update_card (set_next_rep next) ;;
       c <- get_card ;;
       match avoid_sister_cards fuel db c with
       | Some c' => update_card (fun _ => c')
       | None => fun _ => OutOfFuel
       end
     else update_card (fun c => set_next_rep (last_rep c) c)) ;;
    s <- get_sched ;;
    when ((len (_fact_ids_memorised s) =? 15)
          && negb (warned_about_too_many_cards s))
      (show [show_information too_many_cards_message] ;;
       update_sched (set_warned true)) ;;
    update_card (apply_to_card env) ;;
    update_card (after_repetition env) ;;
    c <- get_card ;;
    log_repetition (mkLogEntry c scheduled_interval actual_interval) ;;
    ret new_interval.

(** A dry run works on a copy of the card: the card of the caller is the
    one it passed, whatever the outcome. *)
Definition with_card {A : Type} (c : Card) (r : Result A) : Result A :=
  match r with
  | Returned a st =>
      Returned a (mkGState c (g_sched st) (g_shown st) (g_logged st))
  | Raised e st =>
      Raised e (mkGState c (g_sched st) (g_shown st) (g_logged st))
  | OutOfFuel => OutOfFuel
  end.

Definition grade_answer (new_grade : Z) (dry_run : bool) : M Z :=
  fun st =>
    if dry_run then with_card (g_card st) (grade_answer_body new_grade true st)
    else grade_answer_body new_grade false st.

End GradeAnswer.

(** ** A session: the calls of the host, one after the other

    The store, the platform and the clock may differ from one call to the
    next, so each call carries what it reads.  [reset] starts a session
    and is not among the operations. *)

Record NextCall : Type := mkNextCall {
  nc_fuel : nat;
  nc_db : Database;
  nc_pf : Platform;
  nc_now : Z;
  nc_learn_ahead : bool
}.

Record GradeCall : Type := mkGradeCall {
  gc_fuel : nat;
  gc_db : Database;
  gc_pf : Platform;
  gc_env : GradeEnv;
  gc_card : Card;
  gc_new_grade : Z;
  gc_dry_run : bool
}.

Inductive Op : Type :=
| op_next_card (k : NextCall)
| op_rebuild_queue (k : NextCall)
| op_grade_answer (k : GradeCall)
| op_remove_from_queue_if_present (c : Card).

Inductive Event : Type :=
| ev_next_card (k : NextCall) (r : NextCard)
| ev_grade_answer (k : GradeCall) (r : Exn + Z)
| ev_silent.

Definition with_sched (s : Scheduler) (st : GState) : GState :=
  mkGState (g_card st) s (g_shown st) (g_logged st).

Definition with_g_card (c : Card) (st : GState) : GState :=
  mkGState c (g_sched st) (g_shown st) (g_logged st).

(** One call; [None] when its fuel did not suffice.  In the state,
    [g_card] is the card last passed to [grade_answer]. *)
Definition step (op : Op) (st : GState) : option (GState * Event) :=
  match op with
  | op_next_card k =>
      match next_card (nc_fuel k) (nc_db k) (nc_pf k) (nc_now k)
              (nc_learn_ahead k) (g_sched st) with
      | Some (NoCard s) => Some (with_sched s st, ev_next_card k (NoCard s))
      | Some (Shown i s) => Some (with_sched s st, ev_next_card k (Shown i s))
      | None => None
      end
  | op_rebuild_queue k =>
      Some (with_sched
              (rebuild_queue (nc_db k) (nc_pf k) (nc_now k)
                 (nc_learn_ahead k) (g_sched st)) st,
            ev_silent)
  | op_grade_answer k =>
      match grade_answer (gc_fuel k) (gc_db k) (gc_pf k) (gc_env k)
              (gc_new_grade k) (gc_dry_run k) (with_g_card (gc_card k) st) with
      | Returned v st' => Some (st', ev_grade_answer k (inr v))
      | Raised e st' => Some (st', ev_grade_answer k (inl e))
      | OutOfFuel => None
      end
  | op_remove_from_queue_if_present c =>
      Some (with_sched (remove_from_queue_if_present c (g_sched st)) st,
            ev_silent)
  end.

Fixpoint run (ops : list Op) (st : GState) : option (GState * list Event) :=
  match ops with
  | [] => Some (st, [])
  | op :: ops' =>
      match step op st with
      | Some (st', ev) =>
          match run ops' st' with
          | Some (st'', evs) => Some (st'', ev :: evs)
          | None => None
          end
      | None => None
      end
  end.

(** ** The queries of the store

    [SQLite.py] is not among the sources. *)

Definition interval (c : Card) : Z := next_rep c - last_rep c.

Fixpoint insert_by (leb : Card -> Card -> bool) (x : Card) (l : list Card)
  : list Card :=
  match l with
  | [] => [x]
  | y :: l' => if leb x y then x :: l else y :: insert_by leb x l'
  end.

Definition sort_by (leb : Card -> Card -> bool) (l : list Card)
  : list Card :=
  fold_right (insert_by leb) [] l.

(** Modelled from the spec: the sort keys of the queries of the store,
    [SQLite.py]: "-interval" is descending scheduled interval, "last_rep"
    is the time of the last repetition. *)
Definition sort_key_leb (sort_key : string) (x y : Card) : bool :=
  if String.eqb sort_key "-interval" then interval y <=? interval x
  else if String.eqb sort_key "last_rep" then last_rep x <=? last_rep y
  else true.

(** Modelled from the spec: the query [cards_due_for_ret_rep] of the
    store, [SQLite.py]: at most [limit] of the cards whose
    [next_rep <= adjusted_now], in the order of the sort key. *)
Definition stored_cards_due_for_ret_rep (cards : list Card)
    (adjusted_now : Z) (sort_key : string) (limit : Z) : list (Z * Z) :=
  map (fun c => (_id c, fact_id c))
    (firstn (Z.to_nat limit)
       (sort_by (sort_key_leb sort_key)
          (filter (fun c => next_rep c <=? adjusted_now) cards))).

(** Modelled from the spec: the query [card] of the store, [SQLite.py]:
    the card of an identifier. *)
Fixpoint stored_card (cards : list Card) (default : Card) (i : Z) : Card :=
  match cards with
  | [] => default
  | c :: cards' => if _id c =? i then c else stored_card cards' default i
  end.

(** Modelled from the spec: the query
    [sister_card_count_scheduled_between] of the store, [SQLite.py]: the
    number of other cards of the same fact scheduled in [lo, hi). *)
Definition stored_sister_card_count (cards : list Card) (c : Card)
    (lo hi : Z) : Z :=
  len (filter (fun x => (fact_id x =? fact_id c) && negb (_id x =? _id c)
                        && (lo <=? next_rep x) && (next_rep x <? hi)) cards).

(** ** Summaries used to state the properties *)

(** The value [grade_transition] leaves in [new_interval]. *)
Definition transition_interval (c : Card)
    (new_grade scheduled_interval actual_interval : Z) : option Z :=
  if grade c =? -1 then calculate_initial_interval new_grade
  else if mem (grade c) [GRADE_FORGOT] && mem new_grade [GRADE_FORGOT]
  then Some 0
  else if mem (grade c) [GRADE_FORGOT] && negb (mem new_grade [GRADE_FORGOT])
  then acquired_interval new_grade
  else if negb (mem (grade c) [GRADE_FORGOT]) && mem new_grade [GRADE_FORGOT]
  then Some 0
  else retention_interval new_grade scheduled_interval actual_interval.

(** The two clamps: [MAX_TOTAL], then [MAX_INCREASE]. *)
Definition clamp_total (new_interval : Z) : Z := Z.min MAX_TOTAL new_interval.
Definition clamp_increase (scheduled_interval new_interval : Z) : Z :=
  scheduled_interval + Z.min MAX_INCREASE (new_interval - scheduled_interval).

(** The card [grade_answer] works on: the hooks have run, unless the run
    is dry. *)
Definition graded_card (env : GradeEnv) (dry_run : bool) (c : Card) : Card :=
  if dry_run then c else before_repetition env c.

Definition scheduled_interval_of (pf : Platform) (env : GradeEnv) (c : Card)
  : Z :=
  fst (true_scheduled_interval pf (time_scheduled env) c).

Definition actual_interval_of (env : GradeEnv) (c : Card) : Z :=
  if grade c =? -1 then 0 else start_time env - last_rep c.

(** The tags of a card, and that every reminder tag carries a number. *)
Definition tags_of (c : Card) : list string := split ", " (tag_string c).

Definition is_reminder_tag (tag : string) : bool :=
  String.prefix REMINDER_TAG_STUB tag.

Definition reminder_days (tag : string) : option Z :=
  int_of_string (drop_chars (String.length REMINDER_TAG_STUB) tag).

Definition reminder_tags_parse (tags : list string) : Prop :=
  forall tag, In tag tags -> is_reminder_tag tag = true ->
    reminder_days tag <> None.

(** The interval before the noise term, and [add_noise] as the loop over
    the tags leaves it. *)
Definition interval_before_noise (c : Card)
    (new_grade scheduled_interval actual_interval : Z) : option (Z * bool) :=
  match transition_interval c new_grade scheduled_interval actual_interval
  with
  | Some new_interval =>
      reminder_cap (tags_of c)
        (clamp_increase scheduled_interval (clamp_total new_interval)) false
  | None => None
  end.

(** [add_noise] after the test of the 40 days. *)
Definition add_noise_of (new_grade new_interval : Z) (add_noise : bool)
  : bool :=
  if (40 <=? new_interval / DAY)
     && mem new_grade [GRADE_SAME; GRADE_MORE_SMALL; GRADE_MORE_BIG]
  then true else add_noise.

Definition with_noise (env : GradeEnv) (new_interval : Z) (add_noise : bool)
  : Z :=
  if add_noise
  then new_interval + DAY * random_choice [-2; -1; 0; 1; 2] (random_draw env)
  else new_interval.

(** A hook that leaves the scheduling fields of a card alone. *)
Definition keeps_schedule (f : Card -> Card) : Prop :=
  forall c, grade (f c) = grade c /\ last_rep (f c) = last_rep c /\
            next_rep (f c) = next_rep c.

Definition noise_choices : list Z := [-2; -1; 0; 1; 2].

(** Cards that differ in their repetition counters and easiness only. *)
Definition same_but_counters (c c' : Card) : Prop :=
  _id c' = _id c /\ fact_id c' = fact_id c /\ tag_string c' = tag_string c /\
  grade c' = grade c /\ last_rep c' = last_rep c /\ next_rep c' = next_rep c.

(** The value a call returned, if it returned. *)
Definition returned {A : Type} (r : Result A) : option A :=
  match r with
  | Returned a _ => Some a
  | _ => None
  end.

(** What a call leaves related to the state it started from, whether it
    returns or raises. *)
Definition respects {A : Type} (R : GState -> GState -> Prop) (m : M A)
  : Prop :=
  forall st,
    match m st with
    | Returned _ st' => R st st'
    | Raised _ st' => R st st'
    | OutOfFuel => True
    end.

(** The number of times the too-many-cards warning was shown. *)
Fixpoint warnings (msgs : list UIMessage) : nat :=
  match msgs with
  | [] => O
  | show_information m :: msgs' =>
      if String.eqb m too_many_cards_message then S (warnings msgs')
      else warnings msgs'
  | _ :: msgs' => warnings msgs'
  end.

(** The test before the too-many-cards warning. *)
Definition warning_fires (memorised : list Z) (warned : bool) : bool :=
  (len memorised =? 15) && negb warned.

(** Across a call of [grade_answer]: the last card shown stays, a warning
    is shown exactly when the flag goes up, and the flag never goes
    down. *)
Definition grading_rel (st st' : GState) : Prop :=
  _card_id_last (g_sched st') = _card_id_last (g_sched st) /\
  (warnings (g_shown st')
   + (if warned_about_too_many_cards (g_sched st') then 0 else 1)
   = warnings (g_shown st)
     + (if warned_about_too_many_cards (g_sched st) then 0 else 1))%nat /\
  (warned_about_too_many_cards (g_sched st) = true ->
   warned_about_too_many_cards (g_sched st') = true).

(** Across a call of the session: a warning is shown exactly when the
    flag goes up, and the flag never goes down. *)
Definition warning_rel (st st' : GState) : Prop :=
  (warnings (g_shown st')
   + (if warned_about_too_many_cards (g_sched st') then 0 else 1)
   = warnings (g_shown st)
     + (if warned_about_too_many_cards (g_sched st) then 0 else 1))%nat /\
  (warned_about_too_many_cards (g_sched st) = true ->
   warned_about_too_many_cards (g_sched st') = true).

(** What the queue builder leaves alone in the scheduler. *)
Definition same_session (s s' : Scheduler) : Prop :=
  _card_id_last s' = _card_id_last s /\
  _fact_ids_memorised s' = _fact_ids_memorised s /\
  warned_about_too_many_cards s' = warned_about_too_many_cards s /\
  new_only s' = new_only s.

(** The hopeless case of [next_card]: a rebuild of the emptied queue
    gave a queue that holds the last card only. *)
Definition hopeless (db : Database) (pf : Platform) (now : Z)
    (learn_ahead : bool) (last : Z) (s' : Scheduler) : Prop :=
  exists s,
    _card_ids_in_queue s = [] /\
    s' = rebuild_queue db pf now learn_ahead s /\
    _card_ids_in_queue s' <> [] /\
    Forall (fun x => x = last) (_card_ids_in_queue s').


(** The identifiers the calls of [next_card] returned. *)
Fixpoint shown_ids (evs : list Event) : list (option Z) :=
  match evs with
  | [] => []
  | ev_next_card _ (Shown i _) :: evs' => Some i :: shown_ids evs'
  | ev_next_card _ (NoCard _) :: evs' => None :: shown_ids evs'
  | _ :: evs' => shown_ids evs'
  end.

Definition events_of (r : option (GState * list Event)) : list Event :=
  match r with
  | Some (_, evs) => evs
  | None => []
  end.

(** The queue and its facts come from rows of distinct facts. *)
Definition queue_paired (rows : list (Z * Z)) (cards facts : list Z)
  : Prop :=
  facts = map snd rows /\ NoDup (map snd rows) /\
  (forall c, In c cards <-> In c (map fst rows)).

(** The same of the queue of a scheduler, for rows among [all]. *)
Definition sched_paired (all : list (Z * Z)) (s : Scheduler) : Prop :=
  exists paired,
    queue_paired paired (_card_ids_in_queue s) (_fact_ids_in_queue s) /\
    incl paired all.

(** ** Concrete collaborators for the examples *)

(** A platform on UTC, the day starting at midnight. *)
Definition utc : Platform :=
  mkPlatform 0 (fun _ => false) false 0 0 (fun _ => 0) (fun _ => false).

(** A platform five hours west of UTC. *)
Definition new_york : Platform :=
  mkPlatform 0 (fun _ => false) false 18000 18000 (fun _ => -18000)
    (fun _ => false).

Definition example_card (i fact : Z) (tags : string) (g last next : Z)
  : Card :=
  mkCard i fact tags g 2 1 1 0 0 0 last next.

Definition no_hooks (t_scheduled start graded : Z) (draw : nat) : GradeEnv :=
  mkGradeEnv (fun c => c) (fun c => c) (fun c => c)
    t_scheduled start graded draw.

(** A store that answers the queries of stage 1, of [card] and of the
    sister cards from a list of cards, and has nothing else. *)
Definition store_of (cards : list Card) : Database :=
  mkDatabase true (len cards)
    (stored_cards_due_for_ret_rep cards)
    (fun _ _ => []) (fun _ => []) (fun _ => []) (fun _ _ => [])
    (stored_card cards (example_card 0 0 "" (-1) (-1) (-1)))
    (stored_sister_card_count cards).

(** A store that returns the rows [due] to stage 1 and the rows [ahead]
    to stage 5, whatever the time, and loads the cards from [cards]. *)
Definition rows_store (due ahead : list (Z * Z)) (cards : list Card)
  : Database :=
  mkDatabase true (len cards)
    (fun _ _ _ => due) (fun _ _ => []) (fun _ => []) (fun _ => [])
    (fun _ _ => ahead)
    (stored_card cards (example_card 0 0 "" (-1) (-1) (-1)))
    (fun _ _ _ => 0).

(** A store whose only cards are to be relearnt: rows [rows]. *)
Definition relearn_store (rows : list (Z * Z)) : Database :=
  mkDatabase true (len rows)
    (fun _ _ _ => []) (fun _ _ => rows) (fun _ => []) (fun _ => [])
    (fun _ _ => [])
    (stored_card [] (example_card 0 0 "" (-1) (-1) (-1)))
    (fun _ _ _ => 0).

Definition start_state (c : Card) (s : Scheduler) : GState :=
  mkGState c s [] [].

Definition card_330 : Card :=
  example_card 1 1 "" GRADE_MORE_BIG 0 (330 * DAY).
Definition env_330 : GradeEnv :=
  no_hooks (330 * DAY) (330 * DAY) (330 * DAY) 4.

Definition card_100 : Card :=
  example_card 1 1 "verbs" GRADE_MORE_BIG 0 (100 * DAY).
Definition env_100 : GradeEnv :=
  no_hooks (100 * DAY) (100 * DAY) (100 * DAY) 3.

Definition card_reminder : Card :=
  example_card 1 1 "verbs, Reminder::Reminder14" GRADE_SAME 0 (20 * DAY).
Definition card_reminder_soon : Card :=
  example_card 1 1 "verbs, Reminder::Remindersoon" GRADE_SAME 0 (20 * DAY).
Definition env_reminder : GradeEnv :=
  no_hooks (20 * DAY) (20 * DAY) (20 * DAY) 1.

Definition card_50 : Card := example_card 1 1 "verbs" GRADE_SAME 0 (50 * DAY).
Definition env_50_first : GradeEnv :=
  no_hooks (50 * DAY) (50 * DAY) (50 * DAY) 2.
Definition env_50_second : GradeEnv :=
  no_hooks (100 * DAY) (100 * DAY) (100 * DAY) 4.

Definition card_10 : Card := example_card 1 1 "verbs" GRADE_SAME 0 (10 * DAY).
Definition env_10_first : GradeEnv :=
  no_hooks (10 * DAY) (10 * DAY) (10 * DAY) 0.
Definition env_10_second : GradeEnv :=
  no_hooks (20 * DAY) (20 * DAY) (20 * DAY) 4.

(** The state after [card_10] was graded [SAME] ten days after its last
    repetition. *)
Definition state_10_second : GState :=
  Eval vm_compute in
    match grade_answer 0 (store_of []) utc env_10_first GRADE_SAME false
            (start_state card_10 (reset false)) with
    | Returned _ st => st
    | _ => start_state card_10 (reset false)
    end.

Definition card_forgotten : Card := example_card 1 7 "" GRADE_FORGOT 0 0.

(** The card of the state is memorised at [t] and forgotten a day later,
    [n] times over. *)
Fixpoint relearn (n : nat) (t : Z) (st : GState) : GState :=
  match n with
  | O => st
  | S n' =>
      match grade_answer 0 (store_of []) utc (no_hooks t t t 0)
              GRADE_SAME false st with
      | Returned _ st1 =>
          match grade_answer 0 (store_of []) utc
                  (no_hooks (t + DAY) (t + DAY) (t + DAY) 0)
                  GRADE_FORGOT false st1 with
          | Returned _ st2 => relearn n' (t + DAY) st2
          | _ => st1
          end
      | _ => st
      end
  end.

Definition fifteen_grades : list Op :=
  map (fun i =>
         op_grade_answer
           (mkGradeCall 0 (store_of []) utc (no_hooks 0 0 0 0)
              (example_card i (100 + i) "" GRADE_FORGOT 0 0) GRADE_SAME false))
    [1; 2; 3; 4; 5; 6; 7; 8; 9; 10; 11; 12; 13; 14; 15; 16; 17].

Definition next_call (rows : list (Z * Z)) : NextCall :=
  mkNextCall 10 (relearn_store rows) utc 0 false.

Definition four_next_cards (rows : list (Z * Z)) : list Op :=
  let k := op_next_card (next_call rows) in [k; k; k; k].


Definition card_short : Card := example_card 1 11 "" GRADE_SAME 0 (1 * DAY).
Definition card_long : Card := example_card 2 12 "" GRADE_SAME 0 (10 * DAY).

Definition sister_1 : Card := example_card 1 7 "" GRADE_SAME 0 (3 * DAY).
Definition sister_2 : Card := example_card 2 7 "" GRADE_SAME 0 (4 * DAY).

Definition sister_40 : Card := example_card 1 7 "" GRADE_SAME 0 (40 * DAY).
Definition sister_41 : Card := example_card 2 7 "" GRADE_SAME 0 (41 * DAY).

(** A store with fifty cards of fifty facts to relearn, the cards 101 to
    150, and card 1 to learn ahead. *)
Definition full_store : Database :=
  mkDatabase true 51
    (fun _ _ _ => [])
    (fun _ _ => map (fun i => (100 + Z.of_nat i, 100 + Z.of_nat i))
                  (seq 1 50))
    (fun _ => []) (fun _ => [])
    (fun _ _ => [(1, 7)])
    (stored_card [sister_40] (example_card 0 0 "" (-1) (-1) (-1)))
    (fun _ _ _ => 0).

(** ** Summaries of [grade_answer] and [avoid_sister_cards] *)

(** The counters of the card after the branch on [(card.grade, new_grade)]
    of [grade_answer]. *)
Definition transition_card (c : Card) (new_grade : Z) : Card :=
  if grade c =? -1 then
    set_acq_reps_since_lapse 1 (set_acq_reps 1 (set_easiness 2 c))
  else if mem (grade c) [GRADE_FORGOT] && mem new_grade [GRADE_FORGOT] then
    (fun c => set_acq_reps_since_lapse (acq_reps_since_lapse c + 1) c)
      (set_acq_reps (acq_reps c + 1) c)
  else if mem (grade c) [GRADE_FORGOT]
          && negb (mem new_grade [GRADE_FORGOT]) then
    (fun c => set_acq_reps_since_lapse (acq_reps_since_lapse c + 1) c)
      (set_acq_reps (acq_reps c + 1) c)
  else if negb (mem (grade c) [GRADE_FORGOT])
          && mem new_grade [GRADE_FORGOT] then
    set_ret_reps_since_lapse 0
      (set_acq_reps_since_lapse 0
         ((fun c => set_lapses (lapses c + 1) c)
            (set_ret_reps (ret_reps c + 1) c)))
  else
    (fun c => set_ret_reps_since_lapse (ret_reps_since_lapse c + 1) c)
      (set_ret_reps (ret_reps c + 1) c).

(** The scheduler after the same branch: the fact of a card that leaves
    [FORGOT] is memorised, and one copy of the card leaves the queue. *)
Definition transition_sched (c : Card) (new_grade : Z) (dry_run : bool)
    (s : Scheduler) : Scheduler :=
  let s :=
    if negb dry_run && (grade c =? GRADE_FORGOT)
       && negb (new_grade =? GRADE_FORGOT)
    then set_fact_ids_memorised (_fact_ids_memorised s ++ [fact_id c]) s
    else s in
  if grade c =? -1 then s
  else if mem (grade c) [GRADE_FORGOT] && mem new_grade [GRADE_FORGOT] then s
  else if mem (grade c) [GRADE_FORGOT]
          && negb (mem new_grade [GRADE_FORGOT]) then
    if negb dry_run && (grade c =? 0) then
      if mem (_id c) (_card_ids_in_queue s) then
        match list_remove (_id c) (_card_ids_in_queue s) with
        | Some q => set_card_ids_in_queue q s
        | None => s
        end
      else s
    else s
  else s.

(** What a call of [grade_answer_body] comes to, in one expression. *)
Definition grade_outcome (fuel : nat) (db : Database) (pf : Platform)
    (env : GradeEnv) (new_grade : Z) (dry_run : bool) (st : GState)
  : Result Z :=
  let c := graded_card env dry_run (g_card st) in
  let sched := scheduled_interval_of pf env c in
  let act := actual_interval_of env c in
  let st1 :=
    mkGState (transition_card c new_grade)
      (transition_sched c new_grade dry_run (g_sched st))
      (g_shown st ++ snd (true_scheduled_interval pf (time_scheduled env) c))
      (g_logged st) in
  match transition_interval c new_grade sched act with
  | None =>
      Raised (if grade c =? -1 then IndexError else UnboundLocalError) st1
  | Some ni =>
      match reminder_cap (tags_of c)
              (clamp_increase sched (clamp_total ni)) false with
      | None => Raised ValueError st1
      | Some (capped, an) =>
          let v := with_noise env capped (add_noise_of new_grade capped an) in
          if dry_run then Returned v st1
          else
            let c1 :=
              set_last_rep (time_graded env)
                (set_grade new_grade (transition_card c new_grade)) in
            let committed :=
              if negb (new_grade =? GRADE_FORGOT) then
                match midnight_UTC pf (time_graded env + v) with
                | Some next =>
                    match avoid_sister_cards fuel db (set_next_rep next c1)
                    with
                    | Some c2 => Returned c2 st1
                    | None => OutOfFuel
                    end
                | None =>
                    Raised OverflowError (with_g_card c1 st1)
                end
              else Returned (set_next_rep (time_graded env) c1) st1 in
            match committed with
            | Returned c2 _ =>
                let s := g_sched st1 in
                let fires :=
                  warning_fires (_fact_ids_memorised s)
                    (warned_about_too_many_cards s) in
                let c3 := after_repetition env (apply_to_card env c2) in
                Returned v
                  (mkGState c3
                     (if fires then set_warned true s else s)
                     (g_shown st1 ++
                      if fires
                      then [show_information too_many_cards_message]
                      else [])
                     (g_logged st1 ++ [mkLogEntry c3 sched act]))
            | Raised e st' => Raised e st'
            | OutOfFuel => OutOfFuel
            end
      end
  end.

(** The card [c] moved [k] days on, and the sister cards the store counts
    on the day it is then scheduled. *)
Definition on_day (c : Card) (k : nat) : Card :=
  set_next_rep (next_rep c + Z.of_nat k * DAY) c.

Definition sisters_on (db : Database) (c : Card) (k : nat) : Z :=
  sister_card_count_scheduled_between db (on_day c k)
    (next_rep (on_day c k)) (next_rep (on_day c k) + DAY).

(** The exception a call raised, if it raised. *)
Definition raised {A : Type} (r : Result A) : option Exn :=
  match r with
  | Raised e _ => Some e
  | _ => None
  end.

(** Three sister cards: two are scheduled on days 20 and 21, the third
    is due on day 10. *)
Definition sister_20 : Card := example_card 1 7 "" GRADE_SAME 0 (20 * DAY).
Definition sister_21 : Card := example_card 2 7 "" GRADE_SAME 0 (21 * DAY).
Definition sister_10 : Card := example_card 3 7 "" GRADE_SAME 0 (10 * DAY).

(** A forgotten card shown last, with its second copy in the queue behind
    another card. *)
Definition prefetch_state : GState :=
  start_state card_forgotten
    (mkScheduler [2; 1; 3] [8; 7; 9] [] (Some 1) false 2 false false).

(** The state after [sister_10] was graded [SAME] on day 10, its sister
    cards being scheduled on days 20 and 21. *)
Definition state_sister_10 : GState :=
  Eval vm_compute in
    match grade_answer 5 (store_of [sister_20; sister_21]) utc env_10_first
            GRADE_SAME false (start_state sister_10 (reset false)) with
    | Returned _ st => st
    | _ => start_state sister_10 (reset false)
    end.

(** ** Summaries of [rebuild_queue] *)

(** The stage a call leaves: stage 2, stage 3, or the one it found. *)
Definition stage_rel (s s' : Scheduler) : Prop :=
  stage s' = 2 \/ stage s' = 3 \/ stage s' = stage s.

(** The queue, its facts and [non_memorised_in_queue] within the limit
    of stages 2 to 4: every fact was counted, and brought two cards at
    most. *)
Definition within_limit (cards facts : list Z) (n : Z) : Prop :=
  len facts = n /\ len cards <= 2 * n /\ n <= 50.

(** The cards the loop of stage 5 appends, for the rows of
    [cards_learn_ahead]: those scheduled 34 days or more after their last
    repetition. *)
Definition learnt_ahead (db : Database) (rows : list (Z * Z)) : list Z :=
  map fst (filter (fun r => 34 * DAY <=? interval (card db (fst r))) rows).

(** A store whose cards are all to be relearnt: the rows of
    [cards_to_relearn], and the cards [card] loads. *)
Definition relearn_cards_store (rows : list (Z * Z)) (cards : list Card)
  : Database :=
  mkDatabase true (len cards)
    (fun _ _ _ => []) (fun _ _ => rows) (fun _ => []) (fun _ => [])
    (fun _ _ => [])
    (stored_card cards (example_card 0 0 "" (-1) (-1) (-1)))
    (fun _ _ _ => 0).

(** The facts of the queue, and its cards unless the learner learns
    ahead, within the limit. *)
Definition queue_bounded (la : bool) (s : Scheduler) : Prop :=
  len (_fact_ids_in_queue s) <= 50 /\
  (la = false ->
   len (_card_ids_in_queue s) <= 2 * len (_fact_ids_in_queue s)).

(** What stage 5 makes, when the learner learns ahead, of the queue
    [s_f] it leaves when he does not: the cards learnt ahead follow the
    queue, and the stage is back to 2. *)
Definition with_learnt_ahead (ahead : list Z) (s_f : Scheduler) : Scheduler :=
  set_stage 2
    (set_in_learn_ahead (_in_learn_ahead s_f || negb (len ahead =? 0))
       (set_card_ids_in_queue (_card_ids_in_queue s_f ++ ahead) s_f)).

(** Stages 2 to 4 return once the queue holds 50 facts, and go on to
    stage 5 otherwise. *)
Definition learnt_or_returned (ahead : list Z) (s_f : Scheduler)
  : Scheduler :=
  if len (_fact_ids_in_queue s_f) =? 50 then s_f
  else with_learnt_ahead ahead s_f.

(** ** The initial grade of a set of sister cards *)

(** The loop of [set_initial_grade] over the cards, which are distinct
    objects: the cards as it leaves them and the entries it logs, in the
    order of the cards. *)
Fixpoint set_initial_grade_loop (cards : list Card)
    (grade last_rep next_rep : Z) : list Card * list LogEntry :=
  match cards with
  | [] => ([], [])
  | card :: cards' =>
      let card := set_grade grade card in
      let card := set_easiness 2 card in
      let card := set_acq_reps 1 card in
      let card := set_acq_reps_since_lapse 1 card in
      let card := set_last_rep last_rep card in
      let card := set_next_rep next_rep card in
      let next_rep := next_rep + DAY in
      let '(cards'', logged) :=
        set_initial_grade_loop cards' grade last_rep next_rep in
      (card :: cards'', mkLogEntry card 0 0 :: logged)
  end.

(** [now] is the reading of [int(time.time())]. *)
Definition set_initial_grade (pf : Platform) (now : Z) (cards : list Card)
    (grade : Z) : Exn + list Card * list LogEntry :=
  match calculate_initial_interval grade with
  | None => inl IndexError
  | Some new_interval =>
      let last_rep := now in
      match midnight_UTC pf (last_rep + new_interval) with
      | None => inl OverflowError
      | Some next_rep =>
          inr (set_initial_grade_loop cards grade last_rep next_rep)
      end
  end.

(** ** Intervals as text *)

(** [str(n)] of an integer. *)
Definition str (n : Z) : string := NilZero.string_of_int (Z.to_int n).

(** [a / b] of two integers: the true division, whose result is the
    float nearest to the quotient.  The float is taken to be the quotient
    itself: for [a] up to [2 ^ 53] either way and [b = DAY], the nearest
    float compares with the integers and truncates as the quotient
    does. *)
Definition true_division (a b : Z) : Q := (inject_Z a / inject_Z b)%Q.

(** [int(x)] of a float: the integer towards zero. *)
Definition int_of_float (x : Q) : Z := Z.quot (Qnum x) (Zpos (Qden x)).

(** [next_rep] and [now] are integers and [interval_days] is their true
    quotient by [DAY], a float that [int] truncates; [clock] is the
    reading of [time.time()] that [adjusted_now] makes when no [now] is
    passed; the translation [_] leaves the texts as they are. *)
Definition next_rep_to_interval_string (pf : Platform) (clock : Z)
    (next_rep : Z) (now : option Z) : string :=
  let now :=
    match now with
    | None => adjusted_now pf clock
    | Some now => now
    end in
  let interval_days := true_division (next_rep - now) DAY in
  if Qle_bool 1 interval_days then
    ("in" ++ " " ++ str (int_of_float interval_days + 1) ++ " "
     ++ "days")%string
  else if Qle_bool 0 interval_days then "tomorrow"%string
  else if Qle_bool (-1) interval_days then "today"%string
  else if Qle_bool (-2) interval_days then "1 day overdue"%string
  else (str (int_of_float (- interval_days) - 1) ++ " "
        ++ "days overdue")%string.

(** [clock] is the reading of [time.time()] when no [now] is passed;
    [None] is the [OverflowError] of [midnight_UTC]. *)
Definition last_rep_to_interval_string (pf : Platform) (clock : Z)
    (last_rep : Z) (now : option Z) : option string :=
  if last_rep =? -1 then Some "Never"%string
  else
    let now :=
      match now with
      | None => clock
      | Some now => now
      end in
    match midnight_UTC pf (now - day_starts_at pf * HOUR) with
    | None => None
    | Some now =>
        match midnight_UTC pf (last_rep - day_starts_at pf * HOUR) with
        | None => None
        | Some last_rep =>
            let interval_days := (last_rep - now) / DAY in
            Some (if -1 <? interval_days then "Today"%string
                  else if -2 <? interval_days
                  then (str (- interval_days) ++ " " ++ "day ago")%string
                  else (str (- interval_days) ++ " " ++ "days ago")%string)
        end
    end.

(** An unseen card, and a platform two hours east of UTC whose day starts
    at three. *)
Definition card_unseen : Card := example_card 5 9 "" (-1) (-1) (-1).

Definition east : Platform :=
  mkPlatform 3 (fun _ => false) false (-7200) (-7200) (fun _ => 7200)
    (fun _ => false).

(** ** Summaries of stages 2 and 3 *)

(** The rows of a query that bring a fact for the first time, [seen]
    being the facts met before. *)
Fixpoint first_of_fact (rows : list (Z * Z)) (seen : list Z)
  : list (Z * Z) :=
  match rows with
  | [] => []
  | (c, f) :: rows' =>
      if mem f seen then first_of_fact rows' seen
      else (c, f) :: first_of_fact rows' (seen ++ [f])
  end.

(** Every card twice in a row. *)
Definition twice (rows : list (Z * Z)) : list Z :=
  flat_map (fun r => [fst r; fst r]) rows.

(** The later stages leave the queue they find at the head of the
    queue. *)
Definition extends (s s' : Scheduler) : Prop :=
  exists rest, _card_ids_in_queue s' = _card_ids_in_queue s ++ rest.

(** * Properties *)

(** ** Arithmetic of the constants *)

Lemma DAY_value : DAY = 86400.
Proof. reflexivity. Qed.

Lemma DAY_pos : 0 < DAY.
Proof. rewrite DAY_value; lia. Qed.

(** ** Time domain *)

Lemma midnight_UTC_in_range (pf : Platform) (t : Z) :
  fromtimestamp_overflows pf t = false ->
  midnight_UTC pf t = Some ((t + utcoffset pf t) / DAY * DAY).
Proof.
  intros H. unfold midnight_UTC, date_fromtimestamp, timegm.
  now rewrite H.
Qed.

Lemma midnight_UTC_twice_east (pf : Platform) (d : Z) :
  fromtimestamp_overflows pf (d * DAY) = false ->
  0 <= utcoffset pf (d * DAY) < DAY ->
  midnight_UTC pf (d * DAY) = Some (d * DAY).
Proof.
  intros Hov Hoff. rewrite midnight_UTC_in_range by assumption.
  f_equal. f_equal.
  rewrite Z.add_comm, Z.div_add by (rewrite DAY_value; lia).
  rewrite Z.div_small by assumption. lia.
Qed.

Lemma midnight_UTC_twice_west (pf : Platform) (d : Z) :
  fromtimestamp_overflows pf (d * DAY) = false ->
  - DAY <= utcoffset pf (d * DAY) < 0 ->
  midnight_UTC pf (d * DAY) = Some (d * DAY - DAY).
Proof.
  intros Hov Hoff. rewrite midnight_UTC_in_range by assumption.
  f_equal.
  replace (d * DAY + utcoffset pf (d * DAY))
    with ((utcoffset pf (d * DAY) + DAY) + (d - 1) * DAY) by lia.
  rewrite Z.div_add by (rewrite DAY_value; lia).
  rewrite Z.div_small by lia. lia.
Qed.

(** C8 (as amended): [midnight_UTC] gives one value to all the instants
    of one local calendar date.  Applied to its own output [m], it gives
    [m] again where local time at [m] is at or east of UTC, and the day
    before, [m - DAY], where local time at [m] is west of UTC. *)
Theorem midnight_UTC_same_date_and_twice (pf : Platform) (t1 t2 : Z) :
  fromtimestamp_overflows pf t1 = false ->
  fromtimestamp_overflows pf t2 = false ->
  (t1 + utcoffset pf t1) / DAY = (t2 + utcoffset pf t2) / DAY ->
  midnight_UTC pf t1 = midnight_UTC pf t2 /\
  forall m, midnight_UTC pf t1 = Some m ->
    fromtimestamp_overflows pf m = false ->
    (0 <= utcoffset pf m < DAY -> midnight_UTC pf m = Some m) /\
    (- DAY <= utcoffset pf m < 0 ->
       midnight_UTC pf m = Some (m - DAY) /\ m - DAY <> m).
Proof.
  intros H1 H2 Hdate. split.
  - rewrite !midnight_UTC_in_range by assumption. now rewrite Hdate.
  - intros m Hm Hov. rewrite midnight_UTC_in_range in Hm by assumption.
    injection Hm as <-. split.
    + now apply midnight_UTC_twice_east.
    + intros Hoff. split.
      * now apply midnight_UTC_twice_west.
      * pose proof DAY_pos. lia.
Qed.

Lemma midnight_UTC_same_date_and_twice_witness :
  midnight_UTC utc 1700000000 = midnight_UTC utc 1700000001 /\
  forall m, midnight_UTC utc 1700000000 = Some m ->
    fromtimestamp_overflows utc m = false ->
    (0 <= utcoffset utc m < DAY -> midnight_UTC utc m = Some m) /\
    (- DAY <= utcoffset utc m < 0 ->
       midnight_UTC utc m = Some (m - DAY) /\ m - DAY <> m).
Proof.
  apply (midnight_UTC_same_date_and_twice utc 1700000000 1700000001);
    reflexivity.
Defined.

(** C8 (as written) fails on UTC: the output for 1700000000 is
    1699920000, and [midnight_UTC] maps that output to itself. *)
Lemma midnight_UTC_twice_same_on_utc :
  midnight_UTC utc 1700000000 = Some 1699920000 /\
  midnight_UTC utc 1699920000 = Some 1699920000.
Proof. split; reflexivity. Qed.

(** Five hours west of UTC, the second application goes a day back. *)
Example midnight_UTC_twice_west_of_utc :
  midnight_UTC new_york 1700000000 = Some 1699920000 /\
  midnight_UTC new_york 1699920000 = Some (1699920000 - DAY).
Proof. split; reflexivity. Qed.

(** ** The grading state machine: what a call that returns has done *)

Lemma bind_Returned {A B : Type} (m : M A) (k : A -> M B) st v st' :
  bind m k st = Returned v st' ->
  exists a st1, m st = Returned a st1 /\ k a st1 = Returned v st'.
Proof.
  unfold bind. destruct (m st) as [a st1|e st1|]; try discriminate.
  intros H. now exists a, st1.
Qed.

Lemma grade_transition_Returned card g dry sched act st v st' :
  grade_transition card g dry sched act st = Returned v st' ->
  v = transition_interval card g sched act /\
  same_but_counters (g_card st) (g_card st') /\
  g_shown st' = g_shown st /\ g_logged st' = g_logged st /\
  _fact_ids_memorised (g_sched st') = _fact_ids_memorised (g_sched st) /\
  warned_about_too_many_cards (g_sched st')
    = warned_about_too_many_cards (g_sched st) /\
  _card_id_last (g_sched st') = _card_id_last (g_sched st).
Proof.
  unfold grade_transition, transition_interval, same_but_counters.
  destruct (grade card =? -1).
  - cbv [bind update_card or_raise ret raise].
    destruct (calculate_initial_interval g); intros H; inversion H; subst;
      cbn; auto 10.
  - destruct (mem (grade card) [GRADE_FORGOT] && mem g [GRADE_FORGOT]).
    { cbv [bind update_card ret]. intros H; inversion H; subst; cbn; auto 10. }
    destruct (mem (grade card) [GRADE_FORGOT] && negb (mem g [GRADE_FORGOT])).
    { cbv [bind update_card update_sched ret when].
      destruct (negb dry && (grade card =? 0)).
      - intros H; inversion H; subst; cbn.
        destruct (mem (_id card) _); [destruct (list_remove _ _)|]; cbn;
          auto 10.
      - intros H; inversion H; subst; cbn; auto 10. }
    destruct (negb (mem (grade card) [GRADE_FORGOT]) && mem g [GRADE_FORGOT]).
    { cbv [bind update_card ret]. intros H; inversion H; subst; cbn; auto 10. }
    cbv [bind update_card read_local ret raise].
    destruct (retention_interval g sched act); intros H; inversion H; subst;
      cbn; auto 10.
Qed.

Ltac inv_bind H :=
  let a := fresh "a" in let s := fresh "st" in let H1 := fresh "H" in
  apply bind_Returned in H; destruct H as (a & s & H1 & H).


Lemma avoid_sister_cards_Some fuel db : forall c c',
  avoid_sister_cards fuel db c = Some c' ->
  _id c' = _id c /\ fact_id c' = fact_id c /\ tag_string c' = tag_string c /\
  grade c' = grade c /\ last_rep c' = last_rep c /\
  next_rep c <= next_rep c' /\
  sister_card_count_scheduled_between db c' (next_rep c') (next_rep c' + DAY)
    = 0.
Proof.
  induction fuel as [|fuel IH]; intros c c'; cbn;
    destruct (_ =? 0) eqn:E.
  - intros [= <-]. apply Z.eqb_eq in E. repeat split; auto; lia.
  - discriminate.
  - intros [= <-]. apply Z.eqb_eq in E. repeat split; auto; lia.
  - intros H. apply IH in H. cbn in H. pose proof DAY_pos.
    intuition lia.
Qed.

Lemma grade_answer_body_Returned fuel db pf env g dry st v st' :
  grade_answer_body fuel db pf env g dry st = Returned v st' ->
  let c := graded_card env dry (g_card st) in
  let sched := scheduled_interval_of pf env c in
  let act := actual_interval_of env c in
  exists ni capped an,
    transition_interval c g sched act = Some ni /\
    reminder_cap (tags_of c) (clamp_increase sched (clamp_total ni)) false
      = Some (capped, an) /\
    v = (if (if (40 <=? capped / DAY)
                && mem g [GRADE_SAME; GRADE_MORE_SMALL; GRADE_MORE_BIG]
             then true else an)
         then capped + DAY * random_choice noise_choices (random_draw env)
         else capped) /\
    _card_id_last (g_sched st') = _card_id_last (g_sched st) /\
    (dry = true ->
       g_shown st' =
         g_shown st ++ snd (true_scheduled_interval pf (time_scheduled env) c) /\
       g_logged st' = g_logged st /\
       _fact_ids_memorised (g_sched st') = _fact_ids_memorised (g_sched st) /\
       warned_about_too_many_cards (g_sched st')
         = warned_about_too_many_cards (g_sched st)) /\
    (dry = false ->
       exists C,
         g_card st' = after_repetition env (apply_to_card env C) /\
         _id C = _id c /\ fact_id C = fact_id c /\
         tag_string C = tag_string c /\
         grade C = g /\ last_rep C = time_graded env /\
         (g = GRADE_FORGOT -> next_rep C = time_graded env) /\
         (g <> GRADE_FORGOT ->
            exists m, midnight_UTC pf (time_graded env + v) = Some m /\
                      m <= next_rep C /\
                      sister_card_count_scheduled_between db C
                        (next_rep C) (next_rep C + DAY) = 0) /\
         let memorised :=
           _fact_ids_memorised (g_sched st) ++
           (if (grade c =? GRADE_FORGOT) && negb (g =? GRADE_FORGOT)
            then [fact_id c] else []) in
         let fires :=
           warning_fires memorised
             (warned_about_too_many_cards (g_sched st)) in
         _fact_ids_memorised (g_sched st') = memorised /\
         warned_about_too_many_cards (g_sched st')
           = (warned_about_too_many_cards (g_sched st) || fires) /\
         g_shown st' =
           g_shown st ++
           snd (true_scheduled_interval pf (time_scheduled env) c) ++
           (if fires then [show_information too_many_cards_message] else []) /\
         g_logged st' = g_logged st ++ [mkLogEntry (g_card st') sched act]).
Proof.
  unfold grade_answer_body, graded_card, scheduled_interval_of,
    actual_interval_of, tags_of, clamp_increase, clamp_total, noise_choices.
  intros H.
  inv_bind H.
  assert (Hst0 : st0 = mkGState (if dry then g_card st
                                 else before_repetition env (g_card st))
                         (g_sched st) (g_shown st) (g_logged st)).
  { destruct dry; cbn in H0; injection H0 as _ <-; [now destruct st|reflexivity]. }
  clear H0. subst st0. 
  inv_bind H. unfold get_card in H0. injection H0 as <- <-. cbn [g_card] in H.
  set (c := if dry then g_card st else before_repetition env (g_card st)) in *.
  destruct (true_scheduled_interval pf (time_scheduled env) c)
    as [sched msgs] eqn:Etsi.
  inv_bind H. unfold show in H0. injection H0 as _ <-.
  cbn [g_card g_sched g_shown g_logged] in H.
  inv_bind H.
  set (memo := (grade c =? GRADE_FORGOT) && negb (g =? GRADE_FORGOT)) in *.
  assert (Hst0 : g_card st0 = c /\ g_shown st0 = g_shown st ++ msgs /\
                 g_logged st0 = g_logged st /\
                 _card_id_last (g_sched st0) = _card_id_last (g_sched st) /\
                 warned_about_too_many_cards (g_sched st0)
                   = warned_about_too_many_cards (g_sched st) /\
                 _fact_ids_memorised (g_sched st0) =
                 _fact_ids_memorised (g_sched st) ++
                   (if negb dry && memo then [fact_id c] else [])).
  { rewrite <- andb_assoc in H0. fold memo in H0.
    destruct (negb dry && memo);
      cbn in H0; injection H0 as _ <-; cbn; rewrite ?app_nil_r; auto 10. }
  clear H0. destruct Hst0 as (Hc0 & Hsh0 & Hlg0 & Hl0 & Hw0 & Hm0).
  inv_bind H. apply grade_transition_Returned in H0.
  destruct H0 as (-> & Hsame & Hsh1 & Hlg1 & Hm1 & Hw1 & Hl1).
  inv_bind H.
  destruct (transition_interval c g sched _) as [ni|] eqn:Eni;
    [|discriminate]. cbn in H0. injection H0 as <- <-.
  inv_bind H.
  destruct (reminder_cap _ _ _) as [[capped an]|] eqn:Ecap; [|discriminate].
  cbn in H0. injection H0 as <- <-.
  exists ni, capped, an. cbn [fst snd].
  split; [exact Eni|]. split; [exact Ecap|].
  set (an' := if (40 <=? capped / DAY) && _ then true else an) in *.
  set (v0 := if an' then _ else capped) in *.
  destruct Hsame as (Hid & Hfact & Htag & Hgr & Hlast & Hnext).
  destruct dry.
  - cbn in H. injection H as <- <-.
    split; [reflexivity|]. split; [congruence|].
    split; [|discriminate]. intros _.
    rewrite Hsh1, Hsh0, Hlg1, Hlg0, Hm1, Hm0, Hw1, Hw0. cbn.
    rewrite app_nil_r. auto.
  - cbn [negb andb] in Hm0.
    inv_bind H. cbn in H0. injection H0 as _ <-.
    inv_bind H. cbn in H0. injection H0 as _ <-.
    cbn [g_card g_sched g_shown g_logged] in H.
    apply bind_Returned in H. destruct H as (u & st2 & H0 & H).
    assert (HC : exists C,
      st2 = mkGState C (g_sched st1) (g_shown st1) (g_logged st1) /\
      _id C = _id c /\ fact_id C = fact_id c /\ tag_string C = tag_string c /\
      grade C = g /\ last_rep C = time_graded env /\
      (g = GRADE_FORGOT -> next_rep C = time_graded env) /\
      (g <> GRADE_FORGOT ->
         exists m, midnight_UTC pf (time_graded env + v0) = Some m /\
                   m <= next_rep C /\
                   sister_card_count_scheduled_between db C
                     (next_rep C) (next_rep C + DAY) = 0)).
    { destruct (g =? GRADE_FORGOT) eqn:Eg; cbn [negb] in H0.
      - cbn in H0. injection H0 as _ <-. eexists. split; [reflexivity|].
        cbn. apply Z.eqb_eq in Eg. repeat split; try congruence.
      - inv_bind H0. unfold get_card in H1. injection H1 as <- <-.
        cbn [g_card last_rep set_last_rep set_grade] in H0.
        inv_bind H0.
        destruct (midnight_UTC pf (time_graded env + v0)) as [m|] eqn:Em;
          [|discriminate].
        cbn in H1. injection H1 as <- <-.
        inv_bind H0. cbn in H1. injection H1 as _ <-.
        inv_bind H0. unfold get_card in H1. injection H1 as <- <-.
        cbn [g_card] in H0.
        destruct (avoid_sister_cards fuel db _) as [C|] eqn:EC;
          [|discriminate].
        cbn in H0. injection H0 as _ <-.
        apply avoid_sister_cards_Some in EC. cbn in EC.
        destruct EC as (E1 & E2 & E3 & E4 & E5 & E6 & E7).
        exists C. split; [reflexivity|]. apply Z.eqb_neq in Eg.
        repeat split; try congruence.
        intros _. exists m. auto. }
    clear H0. destruct HC as (C & -> & HC).
    inv_bind H. unfold get_sched in H0. injection H0 as <- <-.
    cbn [g_sched] in H.
    apply bind_Returned in H. destruct H as (u' & st3 & H0 & H).
    set (fires := (len (_fact_ids_memorised (g_sched st1)) =? 15)
                  && negb (warned_about_too_many_cards (g_sched st1))) in *.
    assert (Hst3 : g_card st3 = C /\
      g_shown st3 = g_shown st1 ++
        (if fires then [show_information too_many_cards_message] else []) /\
      g_logged st3 = g_logged st1 /\
      _fact_ids_memorised (g_sched st3) = _fact_ids_memorised (g_sched st1) /\
      warned_about_too_many_cards (g_sched st3)
        = (warned_about_too_many_cards (g_sched st1) || fires) /\
      _card_id_last (g_sched st3) = _card_id_last (g_sched st1)).
    { destruct fires; cbn in H0; injection H0 as _ <-; cbn;
        rewrite ?app_nil_r, ?orb_true_r, ?orb_false_r; auto 10. }
    clear H0. destruct Hst3 as (Hc2 & Hsh2 & Hlg2 & Hm2 & Hw2 & Hl2).
    inv_bind H. cbn in H0. injection H0 as _ <-.
    inv_bind H. cbn in H0. injection H0 as _ <-.
    inv_bind H. unfold get_card in H0. injection H0 as <- <-.
    inv_bind H. cbn in H0. injection H0 as _ <-.
    cbn in H. injection H as <- <-. cbn [g_card g_sched g_shown g_logged].
    split; [reflexivity|]. split; [congruence|].
    split; [discriminate|]. intros _.
    exists C. rewrite Hc2.
    unfold fires in *. unfold warning_fires.
    rewrite Hm2, Hw2, Hsh2, Hlg2, Hsh1, Hsh0, Hlg1, Hlg0, Hm1, Hm0, Hw1, Hw0.
    rewrite <- app_assoc.
    destruct HC as (? & ? & ? & ? & ? & ? & ?).
    repeat split; auto.
Qed.

Lemma bind_step {A B : Type} (m : M A) (k : A -> M B) st a st1 :
  m st = Returned a st1 -> bind m k st = k a st1.
Proof. unfold bind. now intros ->. Qed.

Lemma grade_transition_returns card g dry sched act st ni :
  transition_interval card g sched act = Some ni ->
  exists st', grade_transition card g dry sched act st = Returned (Some ni) st'.
Proof.
  unfold grade_transition, transition_interval.
  destruct (grade card =? -1).
  - intros ->. cbv [bind update_card or_raise ret]. eauto.
  - destruct (mem (grade card) [GRADE_FORGOT] && mem g [GRADE_FORGOT]).
    { intros [= <-]. cbv [bind update_card ret]. eauto. }
    destruct (mem (grade card) [GRADE_FORGOT] && negb (mem g [GRADE_FORGOT])).
    { intros ->. cbv [bind update_card update_sched ret when].
      destruct (negb dry && (grade card =? 0)); eauto. }
    destruct (negb (mem (grade card) [GRADE_FORGOT]) && mem g [GRADE_FORGOT]).
    { intros [= <-]. cbv [bind update_card ret]. eauto. }
    intros ->. cbv [bind update_card read_local ret]. eauto.
Qed.

Lemma grade_answer_body_returns fuel db pf env g dry st ni capped an :
  let c := graded_card env dry (g_card st) in
  let sched := scheduled_interval_of pf env c in
  let act := actual_interval_of env c in
  let v := if (if (40 <=? capped / DAY)
                  && mem g [GRADE_SAME; GRADE_MORE_SMALL; GRADE_MORE_BIG]
               then true else an)
           then capped + DAY * random_choice noise_choices (random_draw env)
           else capped in
  transition_interval c g sched act = Some ni ->
  reminder_cap (tags_of c) (clamp_increase sched (clamp_total ni)) false
    = Some (capped, an) ->
  (dry = true \/ g = GRADE_FORGOT \/
   exists m, midnight_UTC pf (time_graded env + v) = Some m /\
             forall c1, next_rep c1 = m ->
                        avoid_sister_cards fuel db c1 <> None) ->
  exists st', grade_answer_body fuel db pf env g dry st = Returned v st'.
Proof.
  unfold graded_card, scheduled_interval_of, actual_interval_of, tags_of,
    clamp_increase, clamp_total, noise_choices.
  cbv zeta. intros Hni Hcap Hcommit.
  unfold grade_answer_body.
  set (c := if dry then g_card st else before_repetition env (g_card st)) in *.
  erewrite bind_step with (a := tt)
    (st1 := mkGState c (g_sched st) (g_shown st) (g_logged st));
    [|destruct dry; cbn; subst c; [now destruct st|reflexivity]].
  erewrite bind_step by reflexivity. cbn [g_card].
  destruct (true_scheduled_interval pf (time_scheduled env) c)
    as [sched msgs] eqn:Etsi. cbn [fst] in *.
  erewrite bind_step by reflexivity.
  match goal with |- context [when ?b ?m] =>
    assert (Hw : exists s', when b m
       (mkGState c (g_sched st) (g_shown st ++ msgs) (g_logged st))
       = Returned tt (mkGState c s' (g_shown st ++ msgs) (g_logged st)))
      by (destruct b; cbn; eexists; reflexivity)
  end.
  destruct Hw as (s' & Hw). cbn [g_card g_sched g_shown g_logged].
  erewrite bind_step by exact Hw.
  destruct (grade_transition_returns c g dry sched _ 
              (mkGState c s' (g_shown st ++ msgs) (g_logged st)) ni Hni)
    as (st1 & Htr).
  erewrite bind_step by exact Htr.
  erewrite bind_step by reflexivity.
  rewrite Hcap. erewrite bind_step by reflexivity.
  destruct dry; [eexists; reflexivity|].
  erewrite bind_step by reflexivity.
  erewrite bind_step by reflexivity.
  cbn [g_card g_sched g_shown g_logged].
  match goal with |- context [bind (if ?b then ?x else ?y) ?k] =>
    assert (Hc : exists C, (if b then x else y)
       (mkGState (set_last_rep (time_graded env) (set_grade g (g_card st1)))
          (g_sched st1) (g_shown st1) (g_logged st1))
       = Returned tt (mkGState C (g_sched st1) (g_shown st1) (g_logged st1)))
  end.
  { destruct (g =? GRADE_FORGOT) eqn:Eg; cbn [negb].
    - eexists; reflexivity.
    - destruct Hcommit as [?|[->|(m & Hm & Hfuel)]]; try discriminate.
      erewrite bind_step by reflexivity. cbn [g_card last_rep set_last_rep].
      rewrite Hm. erewrite bind_step by reflexivity.
      erewrite bind_step by reflexivity.
      erewrite bind_step by reflexivity. cbn [g_card].
      destruct (avoid_sister_cards fuel db _) as [C|] eqn:EC.
      + eexists; reflexivity.
      + exfalso. eapply Hfuel; [|exact EC]. reflexivity. }
  destruct Hc as (C & Hc). erewrite bind_step by exact Hc.
  erewrite bind_step by reflexivity. cbn [g_sched].
  match goal with |- context [when ?b ?m] =>
    assert (Hw2 : exists st2, when b m
       (mkGState C (g_sched st1) (g_shown st1) (g_logged st1))
       = Returned tt st2)
      by (destruct b; cbn; eexists; reflexivity)
  end.
  destruct Hw2 as (st2 & Hw2). erewrite bind_step by exact Hw2.
  repeat (erewrite bind_step by reflexivity). eexists; reflexivity.
Qed.

(** ** Strings *)

Example split_tags :
  split ", " "verbs, Reminder::Reminder14, a,b" =
  ["verbs"; "Reminder::Reminder14"; "a,b"]%string.
Proof. reflexivity. Qed.

Example split_empty : split ", " "" = [""%string].
Proof. reflexivity. Qed.

Example int_of_string_examples :
  int_of_string "14" = Some 14 /\ int_of_string " -7 " = Some (-7) /\
  int_of_string "" = None /\ int_of_string "1x" = None /\
  int_of_string "+" = None.
Proof. repeat split. Qed.

Example reminder_days_14 :
  is_reminder_tag "Reminder::Reminder14" = true /\
  reminder_days "Reminder::Reminder14" = Some 14.
Proof. split; reflexivity. Qed.

Lemma grade_answer_Returned fuel db pf env g dry st v st' :
  grade_answer fuel db pf env g dry st = Returned v st' ->
  exists st1,
    grade_answer_body fuel db pf env g dry st = Returned v st1 /\
    st' = if dry then with_g_card (g_card st) st1 else st1.
Proof.
  unfold grade_answer. destruct dry.
  - destruct (grade_answer_body fuel db pf env g true st) as [a st1|e st1|];
      cbn; try discriminate.
    intros [= <- <-]. exists st1. split; reflexivity.
  - intros H. now exists st'.
Qed.

Lemma grade_answer_returns fuel db pf env g dry st v st1 :
  grade_answer_body fuel db pf env g dry st = Returned v st1 ->
  grade_answer fuel db pf env g dry st
    = Returned v (if dry then with_g_card (g_card st) st1 else st1).
Proof.
  unfold grade_answer. destruct dry; intros ->; reflexivity.
Qed.

(** ** Clamps, reminder tags and noise *)

Lemma clamp_bounds (sched ni : Z) :
  clamp_increase sched (clamp_total ni) <= MAX_TOTAL /\
  clamp_increase sched (clamp_total ni) - sched <= MAX_INCREASE.
Proof. unfold clamp_increase, clamp_total. lia. Qed.

Lemma reminder_cap_le : forall tags ni an capped an',
  reminder_cap tags ni an = Some (capped, an') ->
  capped <= ni /\ (an = true -> an' = true).
Proof.
  induction tags as [|tag tags IH]; intros ni an capped an'; cbn.
  - intros [= <- <-]. split; [lia|auto].
  - destruct (negb _); [apply IH|].
    destruct (int_of_string _) as [n|]; [|discriminate].
    intros H. apply IH in H. destruct H as [H1 H2]. split; [lia|].
    intros ->. apply H2. now destruct (_ <=? _).
Qed.

Lemma reminder_cap_tag : forall tags ni an capped an' tag N,
  reminder_cap tags ni an = Some (capped, an') ->
  In tag tags -> is_reminder_tag tag = true -> reminder_days tag = Some N ->
  capped <= N * DAY /\ ((N - 1) * DAY <= capped -> an' = true).
Proof.
  unfold is_reminder_tag, reminder_days.
  induction tags as [|t tags IH]; intros ni an capped an' tag N;
    cbn [reminder_cap In]; [intros _ []|].
  intros H [->|Hin] Hpre Hdays.
  - rewrite Hpre, Hdays in H. cbn [negb] in H.
    apply reminder_cap_le in H. destruct H as [H1 H2]. split; [lia|].
    intros Hge. apply H2.
    destruct (N * DAY - DAY <=? Z.min ni (N * DAY)) eqn:E; [reflexivity|].
    apply Z.leb_gt in E. lia.
  - destruct (negb _); [now apply (IH _ _ _ _ tag N H)|].
    destruct (int_of_string _) as [n|]; [|discriminate].
    now apply (IH _ _ _ _ tag N H).
Qed.

Lemma reminder_cap_no_reminder : forall tags ni an,
  (forall tag, In tag tags -> is_reminder_tag tag = false) ->
  reminder_cap tags ni an = Some (ni, an).
Proof.
  unfold is_reminder_tag.
  induction tags as [|t tags IH]; intros ni an H; cbn; [reflexivity|].
  rewrite (H t) by now left. cbn. apply IH. intros tag Hin. apply H. now right.
Qed.

Lemma reminder_cap_parses : forall tags ni an,
  reminder_tags_parse tags -> exists r, reminder_cap tags ni an = Some r.
Proof.
  unfold reminder_tags_parse, is_reminder_tag, reminder_days.
  induction tags as [|t tags IH]; intros ni an H; cbn; [eauto|].
  assert (Ht : reminder_tags_parse tags).
  { intros tag Hin. apply H. now right. }
  destruct (String.prefix REMINDER_TAG_STUB t) eqn:E; cbn.
  - destruct (int_of_string _) as [n|] eqn:En.
    + apply IH, Ht.
    + exfalso. apply (H t); auto. now left.
  - apply IH, Ht.
Qed.

Lemma random_choice_noise (r : nat) :
  In (random_choice noise_choices r) noise_choices.
Proof.
  unfold random_choice, noise_choices. apply nth_In. cbn [List.length].
  apply Nat.mod_upper_bound. discriminate.
Qed.

Lemma noise_bounds (x : Z) : In x noise_choices -> -2 <= x <= 2.
Proof. unfold noise_choices. cbn. intuition lia. Qed.

(** ** Bounds on the new interval *)

Lemma grade_answer_value fuel db pf env g dry st v st' :
  grade_answer fuel db pf env g dry st = Returned v st' ->
  let c := graded_card env dry (g_card st) in
  let sched := scheduled_interval_of pf env c in
  let act := actual_interval_of env c in
  exists ni capped an,
    transition_interval c g sched act = Some ni /\
    reminder_cap (tags_of c) (clamp_increase sched (clamp_total ni)) false
      = Some (capped, an) /\
    v = (if (if (40 <=? capped / DAY)
                && mem g [GRADE_SAME; GRADE_MORE_SMALL; GRADE_MORE_BIG]
             then true else an)
         then capped + DAY * random_choice noise_choices (random_draw env)
         else capped).
Proof.
  intros H. apply grade_answer_Returned in H. destruct H as (st1 & H & _).
  apply grade_answer_body_Returned in H.
  destruct H as (ni & capped & an & H1 & H2 & H3 & _).
  now exists ni, capped, an.
Qed.

Lemma grade_answer_before_noise fuel db pf env g dry st v st' :
  grade_answer fuel db pf env g dry st = Returned v st' ->
  let c := graded_card env dry (g_card st) in
  exists capped an,
    interval_before_noise c g (scheduled_interval_of pf env c)
      (actual_interval_of env c) = Some (capped, an) /\
    v = with_noise env capped (add_noise_of g capped an).
Proof.
  intros H. apply grade_answer_value in H.
  destruct H as (ni & capped & an & Hni & Hcap & ->). cbv zeta.
  exists capped, an. unfold interval_before_noise. rewrite Hni.
  split; [exact Hcap|reflexivity].
Qed.

(** C2 (as amended): the interval computed before the noise term is at
    most [MAX_TOTAL] and exceeds the scheduled interval by at most
    [MAX_INCREASE]; the noise term is at most two days either way, so the
    interval returned is at most 362 days and exceeds the scheduled
    interval by at most 32 days. *)
Theorem grade_answer_interval_bounds fuel db pf env g dry st v st' :
  grade_answer fuel db pf env g dry st = Returned v st' ->
  let c := graded_card env dry (g_card st) in
  let sched := scheduled_interval_of pf env c in
  exists before_noise add_noise,
    interval_before_noise c g sched (actual_interval_of env c)
      = Some (before_noise, add_noise) /\
    before_noise <= MAX_TOTAL /\
    before_noise - sched <= MAX_INCREASE /\
    v = with_noise env before_noise (add_noise_of g before_noise add_noise) /\
    - (2 * DAY) <= v - before_noise <= 2 * DAY /\
    v <= MAX_TOTAL + 2 * DAY /\
    v - sched <= MAX_INCREASE + 2 * DAY.
Proof.
  intros H c sched. apply grade_answer_before_noise in H.
  destruct H as (capped & an & Hcap & ->). fold c in Hcap. fold sched in Hcap.
  exists capped, an. split; [exact Hcap|].
  unfold interval_before_noise in Hcap.
  destruct (transition_interval c g sched (actual_interval_of env c))
    as [ni|]; [|discriminate].
  apply reminder_cap_le in Hcap. destruct Hcap as [Hle _].
  pose proof (clamp_bounds sched ni) as [Ht Hi].
  pose proof (noise_bounds _ (random_choice_noise (random_draw env))) as Hn.
  pose proof DAY_pos. unfold with_noise. fold noise_choices.
  destruct (add_noise_of g capped an); repeat split; try nia.
Qed.

Lemma grade_answer_interval_bounds_witness :
  exists before_noise add_noise,
    interval_before_noise card_330 GRADE_MORE_BIG
      (scheduled_interval_of utc env_330 card_330)
      (actual_interval_of env_330 card_330)
      = Some (before_noise, add_noise) /\
    before_noise <= MAX_TOTAL /\
    before_noise - scheduled_interval_of utc env_330 card_330
      <= MAX_INCREASE /\
    362 * DAY
    = with_noise env_330 before_noise
        (add_noise_of GRADE_MORE_BIG before_noise add_noise) /\
    - (2 * DAY) <= 362 * DAY - before_noise <= 2 * DAY /\
    362 * DAY <= MAX_TOTAL + 2 * DAY /\
    362 * DAY - scheduled_interval_of utc env_330 card_330
      <= MAX_INCREASE + 2 * DAY.
Proof.
  eapply (grade_answer_interval_bounds 0 (store_of [card_330]) utc env_330
            GRADE_MORE_BIG false (start_state card_330 (reset false))).
  vm_compute. reflexivity.
Defined.

(** C2 (as written) fails: a card scheduled 330 days ago and graded
    [MORE_BIG] after 330 days gets 360 days from the clamps and two more
    from the noise; the interval returned is 362 days, 32 days more than
    the scheduled interval. *)
Lemma grade_answer_noise_exceeds_caps :
  returned (grade_answer 0 (store_of [card_330]) utc env_330 GRADE_MORE_BIG
              false (start_state card_330 (reset false)))
    = Some (362 * DAY) /\
  scheduled_interval_of utc env_330 (graded_card env_330 false card_330)
    = 330 * DAY /\
  ~ 362 * DAY <= MAX_TOTAL /\
  ~ 362 * DAY - 330 * DAY <= MAX_INCREASE.
Proof.
  split; [vm_compute; reflexivity|]. split; [reflexivity|].
  split; vm_compute; intros H; apply H; reflexivity.
Qed.

(** ** The noise term *)

Lemma random_choice_uniform (x : Z) :
  In x noise_choices ->
  exists k, (k < 5)%nat /\
    forall r, random_choice noise_choices r = x <-> (r mod 5 = k)%nat.
Proof.
  unfold random_choice, noise_choices. cbn [List.length].
  intros [<-|[<-|[<-|[<-|[<-|[]]]]]];
    [exists 0%nat|exists 1%nat|exists 2%nat|exists 3%nat|exists 4%nat];
    (split; [lia|]); intros r;
    pose proof (Nat.mod_upper_bound r 5 ltac:(discriminate)) as Hr;
    destruct (r mod 5)%nat as [|[|[|[|[|n]]]]]; cbn; split;
    first [reflexivity | discriminate | lia].
Qed.

Lemma grade_answer_returns_value fuel db pf env g dry st ni capped an :
  let c := graded_card env dry (g_card st) in
  let sched := scheduled_interval_of pf env c in
  let act := actual_interval_of env c in
  let v := if (if (40 <=? capped / DAY)
                  && mem g [GRADE_SAME; GRADE_MORE_SMALL; GRADE_MORE_BIG]
               then true else an)
           then capped + DAY * random_choice noise_choices (random_draw env)
           else capped in
  transition_interval c g sched act = Some ni ->
  reminder_cap (tags_of c) (clamp_increase sched (clamp_total ni)) false
    = Some (capped, an) ->
  (dry = true \/ g = GRADE_FORGOT \/
   exists m, midnight_UTC pf (time_graded env + v) = Some m /\
             forall c1, next_rep c1 = m ->
                        avoid_sister_cards fuel db c1 <> None) ->
  exists st', grade_answer fuel db pf env g dry st = Returned v st'.
Proof.
  intros c sched act v Hni Hcap Hc.
  destruct (grade_answer_body_returns fuel db pf env g dry st ni capped an
              Hni Hcap Hc) as (st1 & H).
  apply grade_answer_returns in H. eauto.
Qed.

(** ** Fuel for [avoid_sister_cards] *)

(** When no sister card is scheduled from [bound] on, the loop of
    [avoid_sister_cards] ends within the days up to [bound]. *)
Lemma avoid_sister_cards_enough_fuel db bound :
  (forall c lo, bound <= lo ->
     sister_card_count_scheduled_between db c lo (lo + DAY) = 0) ->
  forall fuel c,
    (bound - next_rep c) / DAY + 1 <= Z.of_nat fuel ->
    avoid_sister_cards fuel db c <> None.
Proof.
  intros Hbound. pose proof DAY_pos as HD.
  induction fuel as [|fuel IH]; intros c Hfuel; cbn [avoid_sister_cards];
    destruct (_ =? 0) eqn:E; try discriminate; apply Z.eqb_neq in E.
  - exfalso. apply E, Hbound.
    destruct (Z_le_gt_dec bound (next_rep c)) as [H|H]; [exact H|].
    assert (0 <= (bound - next_rep c) / DAY) by (apply Z.div_pos; lia).
    lia.
  - apply IH. cbn [next_rep set_next_rep].
    replace (bound - (next_rep c + DAY))
      with ((bound - next_rep c) + (-1) * DAY) by lia.
    rewrite Z.div_add by lia. lia.
Qed.

Lemma grade_answer_returns_with_fuel db pf env g st ni capped an bound m :
  let c := before_repetition env (g_card st) in
  let sched := scheduled_interval_of pf env c in
  let act := actual_interval_of env c in
  let v := if (if (40 <=? capped / DAY)
                  && mem g [GRADE_SAME; GRADE_MORE_SMALL; GRADE_MORE_BIG]
               then true else an)
           then capped + DAY * random_choice noise_choices (random_draw env)
           else capped in
  transition_interval c g sched act = Some ni ->
  reminder_cap (tags_of c) (clamp_increase sched (clamp_total ni)) false
    = Some (capped, an) ->
  midnight_UTC pf (time_graded env + v) = Some m ->
  (forall c lo, bound <= lo ->
     sister_card_count_scheduled_between db c lo (lo + DAY) = 0) ->
  exists fuel0, forall fuel, (fuel0 <= fuel)%nat ->
    exists st', grade_answer fuel db pf env g false st = Returned v st'.
Proof.
  intros c sched act v Hni Hcap Hm Hbound.
  exists (Z.to_nat ((bound - m) / DAY + 1)). intros fuel Hfuel.
  apply (grade_answer_returns_value fuel db pf env g false st ni capped an);
    auto.
  right. right. exists m. split; [exact Hm|].
  intros c1 <-. apply (avoid_sister_cards_enough_fuel db bound Hbound). lia.
Qed.

(** ** Scenario: the clamps *)

(** C4: for a card graded [MORE_BIG] before, scheduled 100 days ahead and
    repeated after 100 days, [grade_answer(card, MORE_BIG)] computes the
    product 300 days, which [MAX_TOTAL] leaves at 300 days and
    [MAX_INCREASE] brings to 100 + 30 = 130 days; the interval returned is
    130 days plus [DAY] times a choice among -2, -1, 0, 1, 2, each of them
    chosen by the draws of one residue modulo 5.  The card carries no
    reminder tag. *)
Theorem grade_answer_clamp_scenario fuel db pf env dry st :
  let c := graded_card env dry (g_card st) in
  let noise := DAY * random_choice noise_choices (random_draw env) in
  grade c = GRADE_MORE_BIG ->
  scheduled_interval_of pf env c = 100 * DAY ->
  actual_interval_of env c = 100 * DAY ->
  (forall tag, In tag (tags_of c) -> is_reminder_tag tag = false) ->
  transition_interval c GRADE_MORE_BIG (100 * DAY) (100 * DAY)
    = Some (300 * DAY) /\
  clamp_total (300 * DAY) = 300 * DAY /\
  clamp_increase (100 * DAY) (300 * DAY) = 100 * DAY + 30 * DAY /\
  (forall v st',
     grade_answer fuel db pf env GRADE_MORE_BIG dry st = Returned v st' ->
     v = 130 * DAY + noise) /\
  (dry = true \/
   (exists m, midnight_UTC pf (time_graded env + (130 * DAY + noise)) = Some m
              /\ forall c1, next_rep c1 = m ->
                            avoid_sister_cards fuel db c1 <> None) ->
   exists st',
     grade_answer fuel db pf env GRADE_MORE_BIG dry st
       = Returned (130 * DAY + noise) st') /\
  In noise [-2 * DAY; - DAY; 0; DAY; 2 * DAY] /\
  (forall x, In x noise_choices ->
     exists k, (k < 5)%nat /\
       forall r, random_choice noise_choices r = x <-> (r mod 5 = k)%nat).
Proof.
  intros c noise Hg Hs Ha Htags.
  assert (Hni : transition_interval c GRADE_MORE_BIG (100 * DAY) (100 * DAY)
                = Some (300 * DAY)).
  { unfold transition_interval. rewrite Hg. reflexivity. }
  assert (Hcap : reminder_cap (tags_of c)
                   (clamp_increase (100 * DAY) (clamp_total (300 * DAY))) false
                 = Some (130 * DAY, false)).
  { now rewrite reminder_cap_no_reminder. }
  split; [exact Hni|]. split; [reflexivity|]. split; [reflexivity|].
  split; [|split; [|split]].
  - intros v st' H. apply grade_answer_value in H.
    destruct H as (ni & capped & an & H1 & H2 & ->).
    fold c in H1, H2. rewrite Hs, Ha in *. rewrite Hni in H1.
    assert (E : ni = 300 * DAY) by congruence. subst ni.
    rewrite Hcap in H2.
    assert (E : capped = 130 * DAY /\ an = false) by (split; congruence).
    destruct E as [-> ->]. reflexivity.
  - intros Hc.
    pose proof (grade_answer_returns_value fuel db pf env GRADE_MORE_BIG dry
                  st (300 * DAY) (130 * DAY) false) as R.
    cbv zeta in R. fold c in R. rewrite Hs, Ha in R.
    specialize (R Hni Hcap).
    apply R. destruct Hc as [Hc|Hc]; [now left|right; right; exact Hc].
  - unfold noise.
    pose proof (random_choice_noise (random_draw env)) as Hn.
    unfold noise_choices in Hn. cbn in Hn. cbn.
    destruct Hn as [<-|[<-|[<-|[<-|[<-|[]]]]]]; auto 10.
  - exact random_choice_uniform.
Qed.

Lemma grade_answer_clamp_scenario_witness :
  returned (grade_answer 0 (store_of []) utc env_100 GRADE_MORE_BIG
              false (start_state card_100 (reset false)))
    = Some (131 * DAY).
Proof.
  destruct (grade_answer_clamp_scenario 0 (store_of []) utc env_100
              false (start_state card_100 (reset false)))
    as (_ & _ & _ & _ & H & _).
  - reflexivity.
  - reflexivity.
  - reflexivity.
  - intros tag [<-|[]]. reflexivity.
  - destruct H as (st' & Hst').
    + right. exists (231 * DAY). split; [reflexivity|].
      intros c1 Hc1. destruct c1. discriminate.
    + rewrite Hst'. reflexivity.
Defined.

(** ** Reminder tags *)

(** C6: for every tag [Reminder::ReminderN] of the card, the interval
    before the noise is at most [N] days, and when it is at least [N - 1]
    days [add_noise] is set by the loop over the tags, so that the noise
    term is added to it. *)
Theorem grade_answer_reminder_cap fuel db pf env g dry st v st' tag N :
  grade_answer fuel db pf env g dry st = Returned v st' ->
  let c := graded_card env dry (g_card st) in
  In tag (tags_of c) ->
  is_reminder_tag tag = true ->
  reminder_days tag = Some N ->
  exists capped add_noise,
    interval_before_noise c g (scheduled_interval_of pf env c)
      (actual_interval_of env c) = Some (capped, add_noise) /\
    capped <= N * DAY /\
    v = with_noise env capped (add_noise_of g capped add_noise) /\
    ((N - 1) * DAY <= capped ->
     add_noise = true /\
     v = capped + DAY * random_choice [-2; -1; 0; 1; 2] (random_draw env)).
Proof.
  intros H c Hin Hpre Hdays. apply grade_answer_before_noise in H.
  destruct H as (capped & an & Hcap & ->). fold c in Hcap.
  exists capped, an. split; [exact Hcap|].
  unfold interval_before_noise in Hcap.
  destruct (transition_interval c g _ _) as [ni|]; [|discriminate].
  destruct (reminder_cap_tag _ _ _ _ _ tag N Hcap Hin Hpre Hdays) as [Hle Hn].
  split; [exact Hle|]. split; [reflexivity|].
  intros Hge. rewrite (Hn Hge). split; [reflexivity|].
  unfold add_noise_of, with_noise. now destruct (_ && _).
Qed.

(** The card tagged [Reminder::Reminder14], scheduled 20 days ahead and
    graded [SAME] after 20 days: capped to 14 days, and one day of noise
    taken off. *)
Lemma grade_answer_reminder_cap_witness :
  exists capped add_noise,
    interval_before_noise card_reminder GRADE_SAME
      (scheduled_interval_of utc env_reminder card_reminder)
      (actual_interval_of env_reminder card_reminder)
      = Some (capped, add_noise) /\
    capped <= 14 * DAY /\
    13 * DAY
    = with_noise env_reminder capped
        (add_noise_of GRADE_SAME capped add_noise) /\
    ((14 - 1) * DAY <= capped ->
     add_noise = true /\
     13 * DAY = capped + DAY * random_choice [-2; -1; 0; 1; 2]
                                (random_draw env_reminder)).
Proof.
  eapply (grade_answer_reminder_cap 0 (store_of []) utc env_reminder
            GRADE_SAME false (start_state card_reminder (reset false))
            (13 * DAY) _ "Reminder::Reminder14" 14).
  - vm_compute. reflexivity.
  - right. left. reflexivity.
  - reflexivity.
  - reflexivity.
Defined.

Example grade_answer_reminder_14 :
  returned (grade_answer 0 (store_of []) utc env_reminder GRADE_SAME true
              (start_state card_reminder (reset false)))
    = Some (14 * DAY - DAY).
Proof. vm_compute. reflexivity. Qed.

(** ** Forgotten cards *)

Lemma transition_interval_forgot c sched act :
  transition_interval c GRADE_FORGOT sched act = Some 0.
Proof.
  unfold transition_interval.
  destruct (grade c =? -1); [reflexivity|].
  destruct (mem (grade c) [GRADE_FORGOT]); reflexivity.
Qed.

(** C7: [true_scheduled_interval] shows the internal error exactly when the
    grade of the card is [FORGOT] and [next_rep - last_rep] is not zero,
    and for a grade [FORGOT] it returns [next_rep - last_rep] as it is;
    [grade_answer] with the new grade [FORGOT], not a dry run, leaves
    [next_rep] equal to [last_rep] in the card, and returns whenever the
    reminder tags of the card carry numbers.  The hooks and the criterion
    leave the scheduling fields alone. *)
Theorem forgot_interval_is_zero fuel db pf env st now c :
  keeps_schedule (apply_to_card env) ->
  keeps_schedule (after_repetition env) ->
  (In (show_error "Internal error: interval not zero.")
      (snd (true_scheduled_interval pf now c))
   <-> grade c = GRADE_FORGOT /\ next_rep c - last_rep c <> 0) /\
  (forall m, In m (snd (true_scheduled_interval pf now c)) ->
             m = show_error "Internal error: interval not zero.") /\
  (grade c = GRADE_FORGOT ->
   fst (true_scheduled_interval pf now c) = next_rep c - last_rep c) /\
  (forall v st',
     grade_answer fuel db pf env GRADE_FORGOT false st = Returned v st' ->
     grade (g_card st') = GRADE_FORGOT /\
     next_rep (g_card st') = last_rep (g_card st')) /\
  (reminder_tags_parse (tags_of (before_repetition env (g_card st))) ->
   exists v st',
     grade_answer fuel db pf env GRADE_FORGOT false st = Returned v st').
Proof.
  intros Hcrit Hafter.
  split; [|split; [|split; [|split]]].
  - unfold true_scheduled_interval.
    destruct (grade c =? GRADE_FORGOT) eqn:Eg; cbn [snd].
    + apply Z.eqb_eq in Eg.
      destruct (next_rep c - last_rep c =? 0) eqn:Ei; cbn.
      * apply Z.eqb_eq in Ei. intuition lia.
      * apply Z.eqb_neq in Ei. intuition.
    + apply Z.eqb_neq in Eg. cbn. intuition.
  - unfold true_scheduled_interval. intros m.
    destruct (grade c =? GRADE_FORGOT); cbn [snd]; [|intros []].
    destruct (negb _); cbn; intuition.
  - intros Hg. unfold true_scheduled_interval.
    rewrite Hg. reflexivity.
  - intros v st' H. apply grade_answer_Returned in H.
    destruct H as (st1 & H & ->).
    apply grade_answer_body_Returned in H.
    destruct H as (ni & capped & an & _ & _ & _ & _ & _ & Hcommit).
    destruct (Hcommit eq_refl)
      as (C & HC & _ & _ & _ & Hg & Hl & Hn & _).
    rewrite HC.
    destruct (Hafter (apply_to_card env C)) as (A1 & A2 & A3).
    destruct (Hcrit C) as (B1 & B2 & B3).
    rewrite A1, A2, A3, B1, B2, B3, Hg, Hl, (Hn eq_refl). auto.
  - intros Hparse.
    set (c1 := before_repetition env (g_card st)) in *.
    destruct (reminder_cap_parses (tags_of c1)
                (clamp_increase (scheduled_interval_of pf env c1)
                   (clamp_total 0)) false Hparse) as ([capped an] & Hcap).
    pose proof (grade_answer_returns_value fuel db pf env GRADE_FORGOT false
                  st 0 capped an) as R.
    cbv zeta in R. destruct R as (st' & R).
    + apply transition_interval_forgot.
    + exact Hcap.
    + right. now left.
    + eauto.
Qed.

Lemma forgot_interval_is_zero_witness :
  exists v st',
    grade_answer 0 (store_of []) utc (no_hooks (10 * DAY) (10 * DAY) (10 * DAY) 0)
      GRADE_FORGOT false
      (start_state (example_card 1 1 "verbs" GRADE_SAME 0 (10 * DAY))
         (reset false))
    = Returned v st'.
Proof.
  apply (forgot_interval_is_zero 0 (store_of []) utc
           (no_hooks (10 * DAY) (10 * DAY) (10 * DAY) 0)
           (start_state (example_card 1 1 "verbs" GRADE_SAME 0 (10 * DAY))
              (reset false))
           0 (example_card 1 1 "verbs" GRADE_SAME 0 (10 * DAY))).
  - intros c. auto.
  - intros c. auto.
  - intros tag [<-|[]]. discriminate.
Defined.

(** Scenario S2 of the specification: a relapse. *)
Example relapse :
  match grade_answer 0 (store_of []) utc
          (no_hooks (10 * DAY) (10 * DAY) (10 * DAY + 7) 0)
          GRADE_FORGOT false
          (start_state (example_card 1 1 "verbs" GRADE_SAME 0 (10 * DAY))
             (reset false)) with
  | Returned v st' =>
      v = 0 /\ lapses (g_card st') = 1 /\
      acq_reps_since_lapse (g_card st') = 0 /\
      next_rep (g_card st') = 10 * DAY + 7 /\
      last_rep (g_card st') = 10 * DAY + 7
  | _ => False
  end.
Proof. vm_compute. repeat split. Qed.

(** ** Grading [SAME] twice *)

Lemma forty_days (x : Z) : (40 <=? x / DAY) = (40 * DAY <=? x).
Proof.
  pose proof DAY_pos.
  destruct (40 * DAY <=? x) eqn:E.
  - apply Z.leb_le in E. apply Z.leb_le.
    apply Z.div_le_lower_bound; lia.
  - apply Z.leb_gt in E. apply Z.leb_gt.
    apply Z.div_lt_upper_bound; lia.
Qed.

Lemma grade_answer_keeps_grade fuel db pf env g st v st' :
  keeps_schedule (apply_to_card env) ->
  keeps_schedule (after_repetition env) ->
  grade_answer fuel db pf env g false st = Returned v st' ->
  grade (g_card st') = g /\ last_rep (g_card st') = time_graded env.
Proof.
  intros Hcrit Hafter H. apply grade_answer_Returned in H.
  destruct H as (st1 & H & ->). apply grade_answer_body_Returned in H.
  destruct H as (ni & capped & an & _ & _ & _ & _ & _ & Hcommit).
  destruct (Hcommit eq_refl) as (C & HC & _ & _ & _ & Hg & Hl & _).
  rewrite HC.
  destruct (Hafter (apply_to_card env C)) as (A1 & A2 & _).
  destruct (Hcrit C) as (B1 & B2 & _).
  rewrite A1, A2, B1, B2. auto.
Qed.

(** C5 (as amended): when two consecutive [grade_answer(card, SAME)] are
    spaced the scheduled interval apart, the second call, on a card
    without reminder tag and for an actual interval between one day and
    [MAX_TOTAL], returns the actual interval if it is less than 40 days,
    and the actual interval plus the noise term otherwise. *)
Theorem grade_answer_same_twice
    fuel1 db1 pf1 env1 st0 v1 st1 fuel2 db2 pf2 env2 dry :
  keeps_schedule (apply_to_card env1) ->
  keeps_schedule (after_repetition env1) ->
  keeps_schedule (before_repetition env2) ->
  grade_answer fuel1 db1 pf1 env1 GRADE_SAME false st0 = Returned v1 st1 ->
  let c := graded_card env2 dry (g_card st1) in
  let actual := actual_interval_of env2 c in
  let v2 := if actual <? 40 * DAY then actual
            else actual
                 + DAY * random_choice noise_choices (random_draw env2) in
  actual = scheduled_interval_of pf2 env2 c ->
  (forall tag, In tag (tags_of c) -> is_reminder_tag tag = false) ->
  DAY <= actual <= MAX_TOTAL ->
  (forall v st2,
     grade_answer fuel2 db2 pf2 env2 GRADE_SAME dry st1 = Returned v st2 ->
     v = v2) /\
  (dry = true \/
   (exists m, midnight_UTC pf2 (time_graded env2 + v2) = Some m /\
              forall c1, next_rep c1 = m ->
                         avoid_sister_cards fuel2 db2 c1 <> None) ->
   exists st2,
     grade_answer fuel2 db2 pf2 env2 GRADE_SAME dry st1 = Returned v2 st2).
Proof.
  intros Hcrit Hafter Hbefore H1 c actual v2 Hsame Htags Hrange.
  destruct (grade_answer_keeps_grade _ _ _ _ _ _ _ _ Hcrit Hafter H1)
    as [Hg _].
  assert (Hgc : grade c = GRADE_SAME).
  { unfold c, graded_card. destruct dry; [exact Hg|].
    destruct (Hbefore (g_card st1)) as (B & _). now rewrite B. }
  assert (Hni : transition_interval c GRADE_SAME
                  (scheduled_interval_of pf2 env2 c) actual = Some actual).
  { unfold transition_interval. rewrite Hgc. cbn.
    unfold retention_interval. cbn.
    destruct (actual <? 86400) eqn:E; [|reflexivity].
    apply Z.ltb_lt in E. rewrite DAY_value in Hrange. lia. }
  assert (Hclamp : clamp_increase (scheduled_interval_of pf2 env2 c)
                     (clamp_total actual) = actual).
  { rewrite <- Hsame. unfold clamp_increase, clamp_total.
    assert (0 < MAX_INCREASE) by reflexivity. lia. }
  assert (Hcap : reminder_cap (tags_of c)
                   (clamp_increase (scheduled_interval_of pf2 env2 c)
                      (clamp_total actual)) false = Some (actual, false)).
  { rewrite Hclamp. now apply reminder_cap_no_reminder. }
  assert (Hv : (if (if (40 <=? actual / DAY)
                       && mem GRADE_SAME
                            [GRADE_SAME; GRADE_MORE_SMALL; GRADE_MORE_BIG]
                    then true else false)
                then actual
                     + DAY * random_choice noise_choices (random_draw env2)
                else actual) = v2).
  { unfold v2. rewrite forty_days, Z.ltb_antisym. cbn [mem existsb].
    change (GRADE_SAME =? GRADE_SAME) with true. cbn [orb].
    rewrite andb_true_r. now destruct (40 * DAY <=? actual). }
  split.
  - intros v st2 H2. apply grade_answer_value in H2.
    destruct H2 as (ni & capped & an & E1 & E2 & ->).
    fold c in E1, E2. fold actual in E1.
    assert (ni = actual) by congruence. subst ni.
    rewrite Hcap in E2.
    assert (E : capped = actual /\ an = false) by (split; congruence).
    destruct E as [-> ->]. exact Hv.
  - intros Hc. revert Hc. rewrite <- Hv. intros Hc.
    apply (grade_answer_returns_value fuel2 db2 pf2 env2 GRADE_SAME dry st1
             actual actual false); auto.
    destruct Hc as [Hc|Hc]; [now left|right; right; exact Hc].
Qed.

Lemma grade_answer_same_twice_witness :
  exists st2,
    grade_answer 0 (store_of []) utc env_10_second GRADE_SAME true
      state_10_second
    = Returned (10 * DAY) st2.
Proof.
  destruct (grade_answer_same_twice 0 (store_of []) utc env_10_first
              (start_state card_10 (reset false)) (10 * DAY) state_10_second
              0 (store_of []) utc env_10_second true) as [_ H].
  - intros c; auto.
  - intros c; auto.
  - intros c; auto.
  - vm_compute. reflexivity.
  - reflexivity.
  - intros tag [<-|[]]. reflexivity.
  - split; discriminate.
  - apply H. now left.
Defined.

(** C5 (as written) fails: a card graded [SAME] 50 days after its last
    repetition, with 50 days scheduled, is scheduled 50 days ahead again;
    graded [SAME] again exactly 50 days later, it gets 52 days when the
    noise drawn is two days. *)
Lemma grade_answer_same_twice_noise :
  match grade_answer 0 (store_of []) utc env_50_first GRADE_SAME false
          (start_state card_50 (reset false)) with
  | Returned v1 st1 =>
      actual_interval_of env_50_second (g_card st1) = 50 * DAY /\
      scheduled_interval_of utc env_50_second (g_card st1) = 50 * DAY /\
      returned (grade_answer 0 (store_of []) utc env_50_second GRADE_SAME
                  false st1) = Some (52 * DAY) /\
      52 * DAY <> 50 * DAY
  | _ => False
  end.
Proof. vm_compute. repeat split; discriminate. Qed.

(** ** Relations kept by the grading monad *)

Section Respects.

Variable R : GState -> GState -> Prop.
Hypothesis R_refl : forall st, R st st.
Hypothesis R_trans : forall a b c, R a b -> R b c -> R a c.

Lemma respects_ret {A : Type} (a : A) : respects R (ret a).
Proof. intros st. apply R_refl. Qed.

Lemma respects_raise {A : Type} (e : Exn) : respects R (@raise A e).
Proof. intros st. apply R_refl. Qed.

Lemma respects_bind {A B : Type} (m : M A) (k : A -> M B) :
  respects R m -> (forall a, respects R (k a)) -> respects R (bind m k).
Proof.
  intros Hm Hk st. unfold bind. specialize (Hm st).
  destruct (m st) as [a st1|e st1|]; auto.
  specialize (Hk a st1). destruct (k a st1); eauto.
Qed.

Lemma respects_when (b : bool) (m : M unit) :
  respects R m -> respects R (when b m).
Proof. intros Hm. destruct b; [exact Hm|apply respects_ret]. Qed.

Lemma respects_or_raise {A : Type} (e : Exn) (v : option A) :
  respects R (or_raise e v).
Proof. destruct v; [apply respects_ret|apply respects_raise]. Qed.

Lemma respects_read_local {A : Type} (v : option A) :
  respects R (read_local v).
Proof. destruct v; [apply respects_ret|apply respects_raise]. Qed.

Lemma respects_get_card : respects R get_card.
Proof. intros st. apply R_refl. Qed.

Lemma respects_get_sched : respects R get_sched.
Proof. intros st. apply R_refl. Qed.

End Respects.

Lemma grading_rel_refl st : grading_rel st st.
Proof. unfold grading_rel. auto. Qed.

Lemma grading_rel_trans a b c :
  grading_rel a b -> grading_rel b c -> grading_rel a c.
Proof.
  unfold grading_rel. intros (A1 & A2 & A3) (B1 & B2 & B3).
  split; [congruence|]. split; [lia|auto].
Qed.

Lemma grading_rel_update_card f : respects grading_rel (update_card f).
Proof. intros st. unfold grading_rel. cbn. auto. Qed.

Lemma grading_rel_log e : respects grading_rel (log_repetition e).
Proof. intros st. unfold grading_rel. cbn. auto. Qed.

Lemma warnings_app l1 l2 :
  warnings (l1 ++ l2) = (warnings l1 + warnings l2)%nat.
Proof.
  induction l1 as [|[m|m] l1 IH]; cbn [app warnings]; auto.
  destruct (String.eqb m too_many_cards_message); lia.
Qed.

Lemma grading_rel_show_interval pf now c :
  respects grading_rel (show (snd (true_scheduled_interval pf now c))).
Proof.
  intros st. unfold show, grading_rel. cbn [g_sched g_shown].
  rewrite warnings_app.
  assert (E : warnings (snd (true_scheduled_interval pf now c)) = 0%nat).
  { unfold true_scheduled_interval.
    destruct (grade c =? GRADE_FORGOT); [|reflexivity].
    destruct (negb _); reflexivity. }
  rewrite E. split; [reflexivity|]. split; [lia|auto].
Qed.

Lemma grading_rel_update_sched f :
  (forall s, _card_id_last (f s) = _card_id_last s /\
             warned_about_too_many_cards (f s)
               = warned_about_too_many_cards s) ->
  respects grading_rel (update_sched f).
Proof.
  intros Hf st. unfold update_sched, grading_rel. cbn [g_sched g_shown].
  destruct (Hf (g_sched st)) as [-> ->]. auto.
Qed.

Lemma grading_rel_warning {B : Type} (rest : M B) :
  respects grading_rel rest ->
  respects grading_rel
    (bind get_sched (fun s =>
       bind (when ((len (_fact_ids_memorised s) =? 15)
                   && negb (warned_about_too_many_cards s))
               (bind (show [show_information too_many_cards_message])
                     (fun _ => update_sched (set_warned true))))
            (fun _ => rest))).
Proof.
  intros Hrest st. unfold bind at 1. unfold get_sched.
  set (s := g_sched st).
  assert (Hstep : exists st1,
    when ((len (_fact_ids_memorised s) =? 15)
          && negb (warned_about_too_many_cards s))
      (bind (show [show_information too_many_cards_message])
            (fun _ => update_sched (set_warned true))) st
    = Returned tt st1 /\ grading_rel st st1).
  { destruct (len (_fact_ids_memorised s) =? 15); cbn [andb when];
      [|exists st; split; [reflexivity|apply grading_rel_refl]].
    destruct (warned_about_too_many_cards s) eqn:Ew; cbn [negb when];
      [exists st; split; [reflexivity|apply grading_rel_refl]|].
    eexists. split; [reflexivity|].
    unfold grading_rel. cbn [g_sched g_shown set_warned
      _card_id_last warned_about_too_many_cards].
    fold s. rewrite Ew, warnings_app. cbn. split; [reflexivity|].
    split; [lia|auto]. }
  destruct Hstep as (st1 & E & HR). cbv beta. fold s.
  rewrite (bind_step _ _ _ _ _ E).
  specialize (Hrest st1).
  destruct (rest st1); auto; eapply grading_rel_trans; eauto.
Qed.

Lemma avoid_sister_cards_respects fuel db c :
  respects grading_rel
    (match avoid_sister_cards fuel db c with
     | Some c' => update_card (fun _ => c')
     | None => fun _ => OutOfFuel
     end).
Proof.
  destruct (avoid_sister_cards fuel db c);
    [apply grading_rel_update_card|intros st; exact I].
Qed.

Lemma grade_transition_respects card g dry sched act :
  respects grading_rel (grade_transition card g dry sched act).
Proof.
  unfold grade_transition.
  repeat match goal with
  | |- respects _ (if ?b then _ else _) => destruct b
  | |- respects _ (bind _ _) =>
      apply respects_bind; [exact grading_rel_trans| |intros ?]
  | |- respects _ (update_card _) => apply grading_rel_update_card
  | |- respects _ (ret _) => apply respects_ret, grading_rel_refl
  | |- respects _ (or_raise _ _) => apply respects_or_raise, grading_rel_refl
  | |- respects _ (read_local _) => apply respects_read_local, grading_rel_refl
  | |- respects _ (when _ _) => apply respects_when; [exact grading_rel_refl|]
  | |- respects _ (update_sched _) => apply grading_rel_update_sched; intros s
  end.
  destruct (mem _ _); [destruct (list_remove _ _)|]; cbn; auto.
Qed.

Lemma grade_answer_body_respects fuel db pf env g dry :
  respects grading_rel (grade_answer_body fuel db pf env g dry).
Proof.
  unfold grade_answer_body.
  apply respects_bind; [exact grading_rel_trans| |intros _].
  { apply respects_when; [exact grading_rel_refl|].
    apply grading_rel_update_card. }
  apply respects_bind;
    [exact grading_rel_trans|apply respects_get_card, grading_rel_refl|].
  intros card.
  pose proof (grading_rel_show_interval pf (time_scheduled env) card) as Hs.
  destruct (true_scheduled_interval pf (time_scheduled env) card)
    as [sched msgs]. cbn [snd] in Hs.
  apply respects_bind; [exact grading_rel_trans|exact Hs|intros _].
  apply respects_bind; [exact grading_rel_trans| |intros _].
  { apply respects_when; [exact grading_rel_refl|].
    apply grading_rel_update_sched. intros s. cbn. auto. }
  apply respects_bind;
    [exact grading_rel_trans|apply grade_transition_respects|intros ni].
  apply respects_bind;
    [exact grading_rel_trans
    |apply respects_read_local, grading_rel_refl|intros ni'].
  apply respects_bind;
    [exact grading_rel_trans
    |apply respects_or_raise, grading_rel_refl|intros [capped an]].
  destruct dry; [apply respects_ret, grading_rel_refl|].
  apply respects_bind;
    [exact grading_rel_trans|apply grading_rel_update_card|intros _].
  apply respects_bind;
    [exact grading_rel_trans|apply grading_rel_update_card|intros _].
  apply respects_bind; [exact grading_rel_trans| |intros _].
  { destruct (negb (g =? GRADE_FORGOT)); [|apply grading_rel_update_card].
    apply respects_bind;
      [exact grading_rel_trans|apply respects_get_card, grading_rel_refl|].
    intros c.
    apply respects_bind;
      [exact grading_rel_trans
      |apply respects_or_raise, grading_rel_refl|intros next].
    apply respects_bind;
      [exact grading_rel_trans|apply grading_rel_update_card|intros _].
    apply respects_bind;
      [exact grading_rel_trans|apply respects_get_card, grading_rel_refl|].
    intros c'. apply avoid_sister_cards_respects. }
  apply grading_rel_warning.
  repeat match goal with
  | |- respects _ (bind _ _) =>
      apply respects_bind; [exact grading_rel_trans| |intros ?]
  | |- respects _ (update_card _) => apply grading_rel_update_card
  | |- respects _ (ret _) => apply respects_ret, grading_rel_refl
  | |- respects _ (log_repetition _) => apply grading_rel_log
  | |- respects _ get_card => apply respects_get_card, grading_rel_refl
  end.
Qed.

Lemma grade_answer_respects fuel db pf env g dry :
  respects grading_rel (grade_answer fuel db pf env g dry).
Proof.
  intros st. unfold grade_answer.
  pose proof (grade_answer_body_respects fuel db pf env g dry st) as H.
  destruct dry; [|exact H].
  destruct (grade_answer_body fuel db pf env g true st); cbn; auto.
Qed.

(** ** The queue builder keeps the session *)

Lemma same_session_refl s : same_session s s.
Proof. unfold same_session. auto. Qed.

Lemma same_session_trans a b c :
  same_session a b -> same_session b c -> same_session a c.
Proof. unfold same_session. intuition congruence. Qed.

Ltac same_session_now := unfold same_session; cbn; auto.

Lemma rebuild_stage5_same db pf now la s :
  same_session s (rebuild_stage5 db pf now la s).
Proof.
  unfold rebuild_stage5. destruct (negb la); [same_session_now|].
  destruct (add_learn_ahead _ _ _ _). same_session_now.
Qed.

Lemma rebuild_stage4_same db pf now la limit n s :
  same_session s (rebuild_stage4 db pf now la limit n s).
Proof.
  unfold rebuild_stage4.
  destruct (stage s <=? 4); [|apply rebuild_stage5_same].
  destruct (add_unseen _ _ _ _ _ _) as [[[cards facts] n'] hit].
  destruct hit; [same_session_now|].
  cbn [_card_ids_in_queue _fact_ids_in_queue set_queue].
  destruct (len facts <=? 2).
  - destruct (add_unseen _ _ _ _ _ _) as [[[cards2 facts2] n2] hit2].
    destruct hit2; [same_session_now|].
    eapply same_session_trans; [|apply rebuild_stage5_same].
    destruct (_ =? 0); same_session_now.
  - eapply same_session_trans; [|apply rebuild_stage5_same].
    destruct (_ =? 0); same_session_now.
Qed.

Lemma rebuild_stage3_same db pf now la limit n s :
  same_session s (rebuild_stage3 db pf now la limit n s).
Proof.
  unfold rebuild_stage3.
  destruct (stage s <=? 3); [|apply rebuild_stage4_same].
  destruct (add_non_memorised _ _ _ _ _) as [[cards facts] n'].
  destruct (n' =? limit); [same_session_now|].
  eapply same_session_trans; [|apply rebuild_stage4_same].
  destruct (_ =? 0); same_session_now.
Qed.

Lemma rebuild_stage2_same db pf now la s :
  same_session s (rebuild_stage2 db pf now la s).
Proof.
  unfold rebuild_stage2.
  destruct (stage s =? 2); [|apply rebuild_stage3_same].
  destruct (add_non_memorised _ _ _ _ _) as [[cards facts] n'].
  destruct (n' =? 50); [same_session_now|].
  eapply same_session_trans; [|apply rebuild_stage3_same].
  destruct (_ =? 0); same_session_now.
Qed.

Lemma rebuild_stage1_same db pf now la s :
  same_session s (rebuild_stage1 db pf now la s).
Proof.
  unfold rebuild_stage1.
  destruct (stage s =? 1); [|apply rebuild_stage2_same].
  destruct (negb _); [same_session_now|].
  eapply same_session_trans; [|apply rebuild_stage2_same].
  same_session_now.
Qed.

Lemma rebuild_queue_same db pf now la s :
  same_session s (rebuild_queue db pf now la s).
Proof.
  unfold rebuild_queue. destruct (_ || _); [same_session_now|].
  eapply same_session_trans; [|apply rebuild_stage1_same].
  same_session_now.
Qed.

(** ** The queue driver *)

Lemma mem_singleton x y : mem x [y] = (x =? y).
Proof. unfold mem. cbn. apply orb_false_r. Qed.

Lemma set_eqb_singleton l x :
  set_eqb l [x] = true -> Forall (fun y => y = x) l.
Proof.
  unfold set_eqb. intros H. apply andb_prop in H. destruct H as [H _].
  rewrite forallb_forall in H. apply Forall_forall. intros y Hy.
  specialize (H y Hy). rewrite mem_singleton in H. now apply Z.eqb_eq.
Qed.


Lemma next_card_loop_shown db pf now la last : forall fuel id s r,
  next_card_loop fuel db pf now la last id s = Some r ->
  _card_id_last s = Some last ->
  match r with
  | NoCard s' => same_session s s'
  | Shown y s' =>
      _card_id_last s' = Some y /\
      _fact_ids_memorised s' = _fact_ids_memorised s /\
      warned_about_too_many_cards s' = warned_about_too_many_cards s /\
      (y = last -> hopeless db pf now la last s')
  end.
Proof.
  induction fuel as [|fuel IH]; intros id s r; cbn [next_card_loop];
    [discriminate|].
  destruct (id =? last) eqn:Eid.
  - apply Z.eqb_eq in Eid. subst id.
    destruct (_card_ids_in_queue s) as [|next queue'] eqn:Eq.
    + pose proof (rebuild_queue_same db pf now la s) as Hsame.
      set (s1 := rebuild_queue db pf now la s) in *.
      destruct (_card_ids_in_queue s1) as [|next queue'] eqn:Eq1.
      * intros [= <-] _. exact Hsame.
      * destruct Hsame as (S1 & S2 & S3 & S4).
        destruct (set_eqb (next :: queue') [last]) eqn:Eset.
        -- intros [= <-] Hl. split; [congruence|].
           split; [exact S2|]. split; [exact S3|]. intros _.
           exists s. split; [exact Eq|]. split; [reflexivity|].
           fold s1. rewrite Eq1. split; [discriminate|].
           now apply set_eqb_singleton.
        -- intros H Hl. apply IH in H; [|cbn; congruence].
           destruct r as [s'|y s'].
           ++ eapply same_session_trans; [|exact H].
              unfold same_session. cbn. auto.
           ++ cbn in H. intuition congruence.
    + intros H Hl. apply IH in H; [|exact Hl].
      destruct r as [s'|y s']; exact H.
  - intros [= <-] Hl. cbn. apply Z.eqb_neq in Eid.
    split; [reflexivity|]. split; [reflexivity|]. split; [reflexivity|].
    intros E. congruence.
Qed.

Lemma next_card_shown fuel db pf now la s r :
  next_card fuel db pf now la s = Some r ->
  match r with
  | NoCard s' => same_session s s'
  | Shown y s' =>
      _card_id_last s' = Some y /\
      _fact_ids_memorised s' = _fact_ids_memorised s /\
      warned_about_too_many_cards s' = warned_about_too_many_cards s /\
      (forall last, _card_id_last s = Some last -> last <> 0 -> y = last ->
         hopeless db pf now la last s')
  end.
Proof.
  unfold next_card.
  set (s0 := if len (_card_ids_in_queue s) =? 0
             then rebuild_queue db pf now la s else s).
  assert (H0 : same_session s s0).
  { unfold s0. destruct (_ =? 0);
      [apply rebuild_queue_same|apply same_session_refl]. }
  destruct H0 as (S1 & S2 & S3 & S4).
  destruct (_card_ids_in_queue s0) as [|id queue'] eqn:Eq.
  - intros [= <-]. unfold same_session. auto.
  - cbn [_card_id_last set_card_ids_in_queue set_queue].
    destruct (_card_id_last s0) as [last|] eqn:El; cbn [truthy].
    + destruct (last =? 0) eqn:E0; cbn [negb].
      * intros [= <-]. cbn. apply Z.eqb_eq in E0.
        split; [reflexivity|]. split; [exact S2|]. split; [exact S3|].
        intros l Hl Hnz. congruence.
      * intros H. apply next_card_loop_shown in H; [|exact El].
        destruct r as [s'|y s'].
        -- eapply same_session_trans; [|exact H].
           unfold same_session. cbn. repeat split; congruence.
        -- cbn in H. destruct H as (H1 & H2 & H3 & H4).
           split; [exact H1|]. split; [congruence|]. split; [congruence|].
           intros l Hl Hnz Hy. assert (E : l = last) by congruence.
           rewrite E. apply H4. congruence.
    + intros [= <-]. cbn.
      split; [reflexivity|]. split; [exact S2|]. split; [exact S3|].
      intros l Hl. congruence.
Qed.





(** ** Sessions *)






(** ** No card twice in a row *)




(** Two forgotten cards: the queue is [1; 1; 2; 2], and the cards
    alternate. *)
Example next_card_alternates :
  shown_ids (events_of (run (four_next_cards [(1, 10); (2, 20)])
                          (start_state card_10 (reset false))))
  = [Some 1; Some 2; Some 1; Some 2].
Proof. vm_compute. reflexivity. Qed.

(** One forgotten card: the hopeless case. *)
Example next_card_hopeless :
  shown_ids (events_of (run (four_next_cards [(1, 10)])
                          (start_state card_10 (reset false))))
  = [Some 1; Some 1; Some 1; Some 1].
Proof. vm_compute. reflexivity. Qed.

(** An identifier 0 does not count as a last card. *)
Example next_card_identifier_zero :
  shown_ids (events_of (run (four_next_cards [(0, 10); (2, 20)])
                          (start_state card_10 (reset false))))
  = [Some 0; Some 0; Some 2; Some 0].
Proof. vm_compute. reflexivity. Qed.

(** ** The too-many-cards warning *)

Lemma warning_rel_refl st : warning_rel st st.
Proof. unfold warning_rel. auto. Qed.

Lemma warning_rel_trans a b c :
  warning_rel a b -> warning_rel b c -> warning_rel a c.
Proof.
  unfold warning_rel. intros (A2 & A3) (B2 & B3). split; [lia|auto].
Qed.

Lemma warning_rel_with_sched s st :
  warned_about_too_many_cards s
    = warned_about_too_many_cards (g_sched st) ->
  warning_rel st (with_sched s st).
Proof. unfold warning_rel. cbn. now intros ->. Qed.

Lemma step_warning op st st' ev :
  step op st = Some (st', ev) -> warning_rel st st'.
Proof.
  destruct op as [k|k|k|c]; cbn [step].
  - destruct (next_card _ _ _ _ _ _) as [[s|b s]|] eqn:E; [| |discriminate];
      intros [= <- <-]; apply next_card_shown in E;
      apply warning_rel_with_sched.
    + now destruct E as (_ & _ & E & _).
    + now destruct E as (_ & _ & E & _).
  - intros [= <- <-]. apply warning_rel_with_sched.
    now destruct (rebuild_queue_same (nc_db k) (nc_pf k) (nc_now k)
                    (nc_learn_ahead k) (g_sched st)) as (_ & _ & E & _).
  - pose proof (grade_answer_respects (gc_fuel k) (gc_db k) (gc_pf k)
                  (gc_env k) (gc_new_grade k) (gc_dry_run k)
                  (with_g_card (gc_card k) st)) as H.
    destruct (grade_answer _ _ _ _ _ _ _) as [v st1|e st1|];
      [| |discriminate]; intros [= <- <-];
      destruct H as (_ & H2 & H3); split; auto.
  - intros [= <- <-]. apply warning_rel_with_sched.
    unfold remove_from_queue_if_present.
    destruct (list_remove _ _); [destruct (list_remove _ _)|]; reflexivity.
Qed.

Lemma run_warning : forall ops st st' evs,
  run ops st = Some (st', evs) -> warning_rel st st'.
Proof.
  induction ops as [|op ops IH]; intros st st' evs; cbn [run].
  - intros [= <- <-]. apply warning_rel_refl.
  - destruct (step op st) as [[st1 ev]|] eqn:Es; [|discriminate].
    destruct (run ops st1) as [[st2 evs']|] eqn:Er; [|discriminate].
    intros [= <- <-]. eapply warning_rel_trans.
    + eapply step_warning, Es.
    + eapply IH, Er.
Qed.

Lemma warnings_interval_error pf now c :
  warnings (snd (true_scheduled_interval pf now c)) = 0%nat.
Proof.
  unfold true_scheduled_interval.
  destruct (grade c =? GRADE_FORGOT); [|reflexivity].
  destruct (next_rep c - last_rep c =? 0); reflexivity.
Qed.

(** C10 (as amended): the facts memorised in the session are kept in a
    list: a call of [grade_answer] that is not a dry run appends the fact
    of the card when the card leaves the grade [FORGOT], whether the list
    holds it or not.  The call shows the warning when the list then has 15
    entries and the flag is down, and puts the flag up.  In a session,
    the warning is shown once if the flag is up at its end and was down at
    its start, and not at all otherwise; [reset] puts the flag down and
    empties the list. *)
Theorem too_many_cards_warning fuel db pf env g st v st' ops s0 s1 evs :
  grade_answer fuel db pf env g false st = Returned v st' ->
  run ops s0 = Some (s1, evs) ->
  let c := before_repetition env (g_card st) in
  let memorised :=
    _fact_ids_memorised (g_sched st) ++
    (if (grade c =? GRADE_FORGOT) && negb (g =? GRADE_FORGOT)
     then [fact_id c] else []) in
  let fires :=
    (len memorised =? 15)
    && negb (warned_about_too_many_cards (g_sched st)) in
  _fact_ids_memorised (g_sched st') = memorised /\
  warnings (g_shown st')
    = (warnings (g_shown st) + if fires then 1 else 0)%nat /\
  warned_about_too_many_cards (g_sched st')
    = (warned_about_too_many_cards (g_sched st) || fires) /\
  (warned_about_too_many_cards (g_sched s0) = false ->
   warnings (g_shown s1)
   = (warnings (g_shown s0)
      + if warned_about_too_many_cards (g_sched s1) then 1 else 0)%nat) /\
  (warned_about_too_many_cards (g_sched s0) = true ->
   warned_about_too_many_cards (g_sched s1) = true /\
   warnings (g_shown s1) = warnings (g_shown s0)) /\
  (forall new_only,
     warned_about_too_many_cards (reset new_only) = false /\
     _fact_ids_memorised (reset new_only) = []).
Proof.
  intros Hg Hrun c memorised fires.
  apply grade_answer_Returned in Hg. destruct Hg as (st1 & Hg & ->).
  apply grade_answer_body_Returned in Hg.
  destruct Hg as (ni & capped & an & _ & _ & _ & _ & _ & Hcommit).
  destruct (Hcommit eq_refl)
    as (C & _ & _ & _ & _ & _ & _ & _ & _ & Hm & Hw & Hs & _).
  cbv zeta in Hm, Hw, Hs. unfold graded_card, warning_fires in *.
  fold c in Hm, Hw, Hs. fold memorised in Hm, Hw, Hs. fold fires in Hw, Hs.
  split; [exact Hm|]. split; [|split; [exact Hw|]].
  { rewrite Hs, !warnings_app.
    rewrite warnings_interval_error. now destruct fires. }
  apply run_warning in Hrun. destruct Hrun as [R1 R2].
  split; [|split].
  - intros E. rewrite E in R1.
    destruct (warned_about_too_many_cards (g_sched s1)); lia.
  - intros E. rewrite E, (R2 E) in R1. split; [auto|lia].
  - intros b. split; reflexivity.
Qed.

Lemma too_many_cards_warning_witness :
  warnings (g_shown
              (match run fifteen_grades (start_state card_forgotten
                                           (reset false)) with
               | Some (s1, _) => s1
               | None => start_state card_forgotten (reset false)
               end)) = 1%nat.
Proof.
  destruct (run fifteen_grades (start_state card_forgotten (reset false)))
    as [[s1 evs]|] eqn:E; [|vm_compute in E; discriminate].
  destruct (too_many_cards_warning 0 (store_of []) utc (no_hooks 0 0 0 0)
              GRADE_SAME (start_state card_forgotten (reset false))
              DAY
              (mkGState (mkCard 1 7 "" 3 2 2 2 0 0 0 0 DAY)
                 (mkScheduler [] [] [7] None false 1 false false) []
                 [mkLogEntry (mkCard 1 7 "" 3 2 2 2 0 0 0 0 DAY) 0 0])
              fifteen_grades (start_state card_forgotten (reset false))
              s1 evs) as (_ & _ & _ & H & _).
  - vm_compute. reflexivity.
  - exact E.
  - rewrite (H eq_refl).
    assert (W : warned_about_too_many_cards (g_sched s1) = true).
    { vm_compute in E. injection E as <- _. reflexivity. }
    rewrite W. reflexivity.
Defined.

(** C10 (as written) fails: a card memorised, forgotten and memorised
    again has its fact twice in the list. *)
Lemma memorised_twice_counted_twice :
  _fact_ids_memorised
    (g_sched (relearn 2 0 (start_state card_forgotten (reset false))))
  = [7; 7] /\
  len (_fact_ids_memorised
         (g_sched (relearn 2 0 (start_state card_forgotten (reset false)))))
  = 2 /\
  nodup Z.eq_dec
    (_fact_ids_memorised
       (g_sched (relearn 2 0 (start_state card_forgotten (reset false)))))
  = [7].
Proof. vm_compute. repeat split. Qed.

(** One fact memorised 15 times brings the warning. *)
Example one_fact_warns :
  warnings (g_shown (relearn 15 0 (start_state card_forgotten (reset false))))
  = 1%nat /\
  nodup Z.eq_dec
    (_fact_ids_memorised
       (g_sched (relearn 15 0 (start_state card_forgotten (reset false)))))
  = [7].
Proof. vm_compute. split; reflexivity. Qed.

(** ** Stage 1 of the queue builder *)

Lemma insert_by_perm leb x l : Permutation (x :: l) (insert_by leb x l).
Proof.
  induction l as [|y l IH]; cbn; [reflexivity|].
  destruct (leb x y); [reflexivity|].
  rewrite perm_swap. now apply perm_skip.
Qed.

Lemma sort_by_perm leb l : Permutation l (sort_by leb l).
Proof.
  induction l as [|x l IH]; cbn; [reflexivity|].
  rewrite <- insert_by_perm. now apply perm_skip.
Qed.

Section Sorting.

Variable leb : Card -> Card -> bool.
Hypothesis leb_total : forall x y, leb x y = true \/ leb y x = true.
Hypothesis leb_trans :
  forall x y z, leb x y = true -> leb y z = true -> leb x z = true.

Lemma insert_by_sorted x l :
  StronglySorted (fun a b => leb a b = true) l ->
  StronglySorted (fun a b => leb a b = true) (insert_by leb x l).
Proof.
  induction l as [|y l IH]; intros Hs; cbn.
  - constructor; constructor.
  - inversion Hs as [|? ? Hl Hy]; subst.
    destruct (leb x y) eqn:E.
    + constructor; [exact Hs|]. constructor; [exact E|].
      eapply Forall_impl; [|exact Hy]. intros a Ha. eapply leb_trans; eauto.
    + constructor; [now apply IH|].
      assert (Hyx : leb y x = true).
      { destruct (leb_total x y); congruence. }
      eapply Permutation_Forall; [apply insert_by_perm|].
      now constructor.
Qed.

Lemma sort_by_sorted l :
  StronglySorted (fun a b => leb a b = true) (sort_by leb l).
Proof.
  induction l as [|x l IH]; cbn; [constructor|].
  now apply insert_by_sorted.
Qed.

End Sorting.

Lemma In_firstn {A : Type} (x : A) n : forall l,
  In x (firstn n l) -> In x l.
Proof.
  induction n as [|n IH]; intros l; cbn; [intros []|].
  destruct l as [|y l]; [intros []|].
  intros [->|H]; [now left|right; now apply IH].
Qed.

Lemma firstn_sorted {A : Type} (R : A -> A -> Prop) n : forall l,
  StronglySorted R l -> StronglySorted R (firstn n l).
Proof.
  induction n as [|n IH]; intros l Hs; cbn; [constructor|].
  destruct l as [|x l]; [constructor|].
  inversion Hs; subst. constructor; [now apply IH|].
  apply Forall_forall. intros y Hy. apply In_firstn in Hy.
  rewrite Forall_forall in *. auto.
Qed.

Lemma rebuild_queue_stage1 db pf now la s :
  is_loaded db = true -> active_count db <> 0 -> stage s = 1 ->
  let rows :=
    cards_due_for_ret_rep db (adjusted_now pf now) "-interval" 50 in
  rows <> [] ->
  rebuild_queue db pf now la s
  = set_in_learn_ahead false (set_queue (map fst rows) (map snd rows) s).
Proof.
  intros Hl Ha Hs rows Hrows. unfold rebuild_queue.
  rewrite Hl. apply Z.eqb_neq in Ha. rewrite Ha. cbn [negb orb].
  unfold rebuild_stage1. cbn [stage set_in_learn_ahead set_queue].
  rewrite Hs. cbn [Z.eqb Pos.eqb]. fold rows.
  cbn [_card_ids_in_queue _fact_ids_in_queue set_queue app].
  destruct rows as [|r rows']; [congruence|]. reflexivity.
Qed.

Lemma StronglySorted_weaken {A : Type} (R R' : A -> A -> Prop) l :
  (forall a b, R a b -> R' a b) ->
  StronglySorted R l -> StronglySorted R' l.
Proof.
  intros HR. induction 1 as [|x l Hs IH Hx]; constructor; auto.
  eapply Forall_impl; [|exact Hx]. auto.
Qed.

Lemma longest_first_sorted l :
  StronglySorted (fun x y => interval y <= interval x)
    (sort_by (sort_key_leb "-interval") l).
Proof.
  apply StronglySorted_weaken
    with (R := fun a b => sort_key_leb "-interval" a b = true).
  - intros a b. unfold sort_key_leb. cbn. apply Z.leb_le.
  - apply sort_by_sorted.
    + intros x y. unfold sort_key_leb. cbn. rewrite !Z.leb_le. lia.
    + intros x y z. unfold sort_key_leb. cbn. rewrite !Z.leb_le. lia.
Qed.

(** C3 (as amended): in stage 1 the builder asks for at most 50 of the
    cards whose [next_rep] is at most [adjusted_now], under the sort key
    "-interval": longest scheduled interval first.  When the store
    returns any, the queue holds every returned card, the facts of the
    queue are those of the rows, and the builder returns: the stage stays
    1 and nothing else changes but the learn-ahead flag, which is down. *)
Theorem due_cards_longest_interval_first db pf now la s cards :
  is_loaded db = true -> active_count db <> 0 -> stage s = 1 ->
  cards_due_for_ret_rep db = stored_cards_due_for_ret_rep cards ->
  let all_due :=
    sort_by (sort_key_leb "-interval")
      (filter (fun c => next_rep c <=? adjusted_now pf now) cards) in
  let due := firstn 50 all_due in
  Permutation
    (filter (fun c => next_rep c <=? adjusted_now pf now) cards) all_due /\
  StronglySorted (fun x y => interval y <= interval x) all_due /\
  StronglySorted (fun x y => interval y <= interval x) due /\
  (List.length due <= 50)%nat /\
  Forall (fun c => In c cards /\ next_rep c <= adjusted_now pf now) due /\
  (due <> [] ->
   rebuild_queue db pf now la s
   = set_in_learn_ahead false
       (set_queue (map _id due) (map fact_id due) s)).
Proof.
  intros Hl Ha Hs Hdb all_due due.
  assert (Hperm : Permutation
            (filter (fun c => next_rep c <=? adjusted_now pf now) cards)
            all_due) by apply sort_by_perm.
  split; [exact Hperm|].
  split; [apply longest_first_sorted|].
  split; [apply firstn_sorted, longest_first_sorted|].
  split; [apply firstn_le_length|].
  split.
  - apply Forall_forall. intros c Hc. apply In_firstn in Hc.
    apply (Permutation_in _ (Permutation_sym Hperm)) in Hc.
    apply filter_In in Hc. destruct Hc as [Hin Hle].
    split; [exact Hin|now apply Z.leb_le].
  - intros Hdue.
    pose proof (rebuild_queue_stage1 db pf now la s Hl Ha Hs) as R.
    cbv zeta in R. rewrite Hdb in R. unfold stored_cards_due_for_ret_rep in R.
    change (Z.to_nat 50) with 50%nat in R. fold all_due in R. fold due in R.
    rewrite !map_map in R. cbn [fst snd] in R. apply R.
    destruct due; [congruence|discriminate].
Qed.

Lemma due_cards_longest_interval_first_witness :
  rebuild_queue (store_of [card_short; card_long]) utc (20 * DAY) false
    (reset false)
  = set_in_learn_ahead false (set_queue [2; 1] [12; 11] (reset false)).
Proof.
  apply (due_cards_longest_interval_first
           (store_of [card_short; card_long]) utc (20 * DAY) false
           (reset false) [card_short; card_long]).
  - reflexivity.
  - discriminate.
  - reflexivity.
  - reflexivity.
  - discriminate.
Defined.

(** C3 (as written) fails: of two cards due, scheduled 1 day and 10 days
    ahead, the queue has the card of 10 days first. *)
Lemma due_cards_not_shortest_first :
  _card_ids_in_queue
    (rebuild_queue (store_of [card_short; card_long]) utc (20 * DAY) false
       (reset false)) = [2; 1] /\
  interval (card (store_of [card_short; card_long]) 2) = 10 * DAY /\
  interval (card (store_of [card_short; card_long]) 1) = 1 * DAY /\
  ~ interval (card (store_of [card_short; card_long]) 2)
    <= interval (card (store_of [card_short; card_long]) 1).
Proof.
  split; [reflexivity|]. split; [reflexivity|]. split; [reflexivity|].
  vm_compute. intros H. apply H. reflexivity.
Qed.


(** ** Stages 2 to 4 keep sister cards apart *)

Lemma mem_In x l : mem x l = true <-> In x l.
Proof.
  unfold mem. rewrite existsb_exists. split.
  - intros (y & Hy & E). apply Z.eqb_eq in E. now subst.
  - intros H. exists x. split; [exact H|apply Z.eqb_refl].
Qed.

Lemma mem_not_In x l : mem x l = false <-> ~ In x l.
Proof.
  rewrite <- mem_In. destruct (mem x l); split; congruence.
Qed.

Lemma queue_paired_add rows cards facts c f copies :
  queue_paired rows cards facts -> ~ In f facts -> copies <> [] ->
  (forall x, In x copies -> x = c) ->
  queue_paired (rows ++ [(c, f)]) (cards ++ copies) (facts ++ [f]).
Proof.
  intros (Hf & Hnd & Hc) Hnew Hne Hcopies. unfold queue_paired.
  rewrite !map_app. cbn [map fst snd]. split; [now rewrite Hf|]. split.
  - apply NoDup_app; [exact Hnd|repeat constructor; intros []|].
    intros x Hx [<-|[]]. apply Hnew. now rewrite Hf.
  - intros x. rewrite !in_app_iff, Hc. cbn [In]. split.
    + intros [H|H]; [now left|]. right. left. symmetry. now apply Hcopies.
    + intros [H|[<-|[]]]; [now left|]. right.
      destruct copies as [|y l]; [congruence|].
      left. apply Hcopies. now left.
Qed.

Lemma add_non_memorised_paired : forall rows limit cards facts n paired,
  queue_paired paired cards facts ->
  exists paired',
    let '(cards', facts', _) :=
      add_non_memorised rows limit cards facts n in
    queue_paired (paired ++ paired') cards' facts' /\ incl paired' rows.
Proof.
  induction rows as [|[c f] rows IH]; intros limit cards facts n paired Hp;
    cbn [add_non_memorised].
  - exists []. rewrite app_nil_r. split; [exact Hp|apply incl_refl].
  - destruct (mem f facts) eqn:Em; cbn [negb].
    + destruct (IH limit cards facts n paired Hp) as (p' & H).
      exists p'. destruct (add_non_memorised rows limit cards facts n)
        as [[cards' facts'] n'].
      destruct H as [H1 H2]. split; [exact H1|now apply incl_tl].
    + apply mem_not_In in Em.
      destruct (n <? limit).
      * assert (Hp' : queue_paired (paired ++ [(c, f)])
                        (cards ++ [c] ++ [c]) (facts ++ [f])).
        { apply queue_paired_add; auto; [discriminate|].
          intros x [<-|[<-|[]]]; reflexivity. }
        destruct (n + 1 =? limit).
        -- exists [(c, f)]. split; [exact Hp'|].
           intros x [<-|[]]. now left.
        -- destruct (IH limit _ _ (n + 1) _ Hp') as (p' & H).
           exists ((c, f) :: p').
           destruct (add_non_memorised rows limit _ _ (n + 1))
             as [[cards' facts'] n'].
           destruct H as [H1 H2]. split.
           ++ now rewrite <- app_assoc in H1.
           ++ intros x [<-|Hx]; [now left|right; now apply H2].
      * destruct (n =? limit).
        -- exists []. rewrite app_nil_r. split; [exact Hp|].
           intros x [].
        -- destruct (IH limit cards facts n paired Hp) as (p' & H).
           exists p'. destruct (add_non_memorised rows limit cards facts n)
             as [[cards' facts'] n'].
           destruct H as [H1 H2]. split; [exact H1|now apply incl_tl].
Qed.

Lemma add_unseen_paired : forall rows limit skip cards facts n paired,
  queue_paired paired cards facts ->
  exists paired',
    let '(cards', facts', _, _) :=
      add_unseen rows limit skip cards facts n in
    queue_paired (paired ++ paired') cards' facts' /\ incl paired' rows.
Proof.
  induction rows as [|[c f] rows IH];
    intros limit skip cards facts n paired Hp; cbn [add_unseen].
  - exists []. rewrite app_nil_r. split; [exact Hp|apply incl_refl].
  - destruct (mem f facts) eqn:Em; cbn [negb andb].
    + destruct (IH limit skip cards facts n paired Hp) as (p' & H).
      exists p'. destruct (add_unseen rows limit skip cards facts n)
        as [[[cards' facts'] n'] hit].
      destruct H as [H1 H2]. split; [exact H1|now apply incl_tl].
    + apply mem_not_In in Em. destruct (negb (mem f skip)).
      * assert (Hp' : queue_paired (paired ++ [(c, f)])
                        (cards ++ [c]) (facts ++ [f])).
        { apply queue_paired_add; auto; [discriminate|].
          intros x [<-|[]]; reflexivity. }
        destruct (n + 1 =? limit).
        -- exists [(c, f)]. split; [exact Hp'|].
           intros x [<-|[]]. now left.
        -- destruct (IH limit skip _ _ (n + 1) _ Hp') as (p' & H).
           exists ((c, f) :: p').
           destruct (add_unseen rows limit skip _ _ (n + 1))
             as [[[cards' facts'] n'] hit].
           destruct H as [H1 H2]. split.
           ++ now rewrite <- app_assoc in H1.
           ++ intros x [<-|Hx]; [now left|right; now apply H2].
      * destruct (IH limit skip cards facts n paired Hp) as (p' & H).
        exists p'. destruct (add_unseen rows limit skip cards facts n)
          as [[[cards' facts'] n'] hit].
        destruct H as [H1 H2]. split; [exact H1|now apply incl_tl].
Qed.

Lemma sched_paired_set_stage all n s :
  sched_paired all s -> sched_paired all (set_stage n s).
Proof. intros H. exact H. Qed.

Lemma rebuild_stage5_paired db pf now all s :
  sched_paired all s -> sched_paired all (rebuild_stage5 db pf now false s).
Proof. intros H. exact H. Qed.

Lemma rebuild_stage4_paired db pf now all limit n s :
  incl (cards_unseen db limit) all ->
  sched_paired all s ->
  sched_paired all (rebuild_stage4 db pf now false limit n s).
Proof.
  intros Hall (paired & Hp & Hincl). unfold rebuild_stage4.
  destruct (stage s <=? 4); [|now exists paired].
  destruct (add_unseen_paired (cards_unseen db limit) limit
              (_fact_ids_memorised s) _ _ n paired Hp) as (p1 & H1).
  destruct (add_unseen (cards_unseen db limit) limit _ _ _ n)
    as [[[cards facts] n1] hit].
  destruct H1 as [H1 I1].
  assert (Hs1 : sched_paired all (set_queue cards facts s)).
  { exists (paired ++ p1). split; [exact H1|].
    apply incl_app; [exact Hincl|]. eapply incl_tran; eauto. }
  destruct hit; [exact Hs1|].
  cbn [_card_ids_in_queue _fact_ids_in_queue set_queue].
  destruct (len facts <=? 2).
  - destruct (add_unseen_paired (cards_unseen db limit) limit []
                cards facts n1 (paired ++ p1) H1) as (p2 & H2).
    destruct (add_unseen (cards_unseen db limit) limit [] cards facts n1)
      as [[[cards2 facts2] n2] hit2].
    destruct H2 as [H2 I2].
    assert (Hs2 : sched_paired all (set_queue cards2 facts2 s)).
    { exists ((paired ++ p1) ++ p2). split; [exact H2|].
      apply incl_app; [apply incl_app; [exact Hincl|]|];
        eapply incl_tran; eauto. }
    destruct hit2; [exact Hs2|].
    apply rebuild_stage5_paired. destruct (_ =? 0); exact Hs2.
  - apply rebuild_stage5_paired. destruct (_ =? 0); exact Hs1.
Qed.

Lemma rebuild_stage3_paired db pf now all limit n s :
  incl (cards_new_memorising db GRADE_FORGOT) all ->
  incl (cards_unseen db limit) all ->
  sched_paired all s ->
  sched_paired all (rebuild_stage3 db pf now false limit n s).
Proof.
  intros Hall3 Hall4 (paired & Hp & Hincl). unfold rebuild_stage3.
  destruct (stage s <=? 3);
    [|apply rebuild_stage4_paired; [exact Hall4|now exists paired]].
  destruct (add_non_memorised_paired (cards_new_memorising db GRADE_FORGOT)
              limit _ _ n paired Hp) as (p1 & H1).
  destruct (add_non_memorised _ limit _ _ n) as [[cards facts] n1].
  destruct H1 as [H1 I1].
  assert (Hs1 : sched_paired all (set_queue cards facts s)).
  { exists (paired ++ p1). split; [exact H1|].
    apply incl_app; [exact Hincl|]. eapply incl_tran; eauto. }
  destruct (n1 =? limit); [exact Hs1|].
  apply rebuild_stage4_paired; [exact Hall4|].
  destruct (_ =? 0); exact Hs1.
Qed.

Lemma rebuild_stage2_paired db pf now all s :
  incl (cards_to_relearn db GRADE_FORGOT "last_rep") all ->
  incl (cards_new_memorising db GRADE_FORGOT) all ->
  incl (cards_unseen db 50) all ->
  sched_paired all s ->
  sched_paired all (rebuild_stage2 db pf now false s).
Proof.
  intros Hall2 Hall3 Hall4 (paired & Hp & Hincl). unfold rebuild_stage2.
  destruct (stage s =? 2);
    [|apply rebuild_stage3_paired; auto; now exists paired].
  destruct (add_non_memorised_paired
              (cards_to_relearn db GRADE_FORGOT "last_rep")
              50 _ _ 0 paired Hp) as (p1 & H1).
  destruct (add_non_memorised _ 50 _ _ 0) as [[cards facts] n1].
  destruct H1 as [H1 I1].
  assert (Hs1 : sched_paired all (set_queue cards facts s)).
  { exists (paired ++ p1). split; [exact H1|].
    apply incl_app; [exact Hincl|]. eapply incl_tran; eauto. }
  destruct (n1 =? 50); [exact Hs1|].
  apply rebuild_stage3_paired; auto.
  destruct (_ =? 0); exact Hs1.
Qed.

Lemma NoDup_map_inj {A B : Type} (g : A -> B) : forall l a b,
  NoDup (map g l) -> In a l -> In b l -> g a = g b -> a = b.
Proof.
  induction l as [|x l IH]; intros a b Hnd Ha Hb E; [destruct Ha|].
  cbn in Hnd. inversion Hnd as [|? ? Hx Hl]; subst.
  destruct Ha as [->|Ha], Hb as [->|Hb]; auto.
  - exfalso. apply Hx. rewrite E. now apply in_map.
  - exfalso. apply Hx. rewrite <- E. now apply in_map.
Qed.

(** When stage 1 finds no card due, or is skipped, and the learner does
    not learn ahead, two cards of the rebuilt queue with one fact are one
    card: stages 2, 3 and 4 test [_fact_id not in self._fact_ids_in_queue]
    before every append. *)
Theorem later_stages_keep_sisters_apart db pf now s c1 c2 :
  is_loaded db = true -> active_count db <> 0 ->
  (stage s = 1 ->
   cards_due_for_ret_rep db (adjusted_now pf now) "-interval" 50 = []) ->
  (forall c f,
     In (c, f) (cards_to_relearn db GRADE_FORGOT "last_rep"
                ++ cards_new_memorising db GRADE_FORGOT
                ++ cards_unseen db 50) ->
     fact_id (card db c) = f) ->
  In c1 (_card_ids_in_queue (rebuild_queue db pf now false s)) ->
  In c2 (_card_ids_in_queue (rebuild_queue db pf now false s)) ->
  fact_id (card db c1) = fact_id (card db c2) ->
  c1 = c2.
Proof.
  intros Hl Ha Hdue Hfact.
  set (all := cards_to_relearn db GRADE_FORGOT "last_rep"
              ++ cards_new_memorising db GRADE_FORGOT
              ++ cards_unseen db 50) in *.
  assert (Hp : sched_paired all (rebuild_queue db pf now false s)).
  { unfold rebuild_queue. rewrite Hl. apply Z.eqb_neq in Ha. rewrite Ha.
    cbn [negb orb].
    set (s0 := set_in_learn_ahead false (set_queue [] [] s)).
    assert (H0 : sched_paired all s0).
    { exists []. split; [|intros x []].
      unfold queue_paired. cbn. split; [reflexivity|].
      split; [constructor|tauto]. }
    assert (H2 : forall s1, sched_paired all s1 ->
                 sched_paired all (rebuild_stage2 db pf now false s1)).
    { intros s1. apply rebuild_stage2_paired; unfold all.
      - apply incl_appl, incl_refl.
      - apply incl_appr, incl_appl, incl_refl.
      - apply incl_appr, incl_appr, incl_refl. }
    unfold rebuild_stage1.
    destruct (stage s0 =? 1) eqn:E1; [|now apply H2].
    apply Z.eqb_eq in E1. rewrite (Hdue E1). cbn [map app].
    rewrite !app_nil_r. cbn [negb]. apply H2. exact H0. }
  destruct Hp as (paired & (Hf & Hnd & Hc) & Hincl).
  intros H1 H2 E. apply Hc in H1, H2.
  apply in_map_iff in H1, H2.
  destruct H1 as ([c1' f1] & <- & P1), H2 as ([c2' f2] & <- & P2).
  cbn [fst] in *.
  assert (F1 := Hfact _ _ (Hincl _ P1)).
  assert (F2 := Hfact _ _ (Hincl _ P2)).
  assert (Ep : (c1', f1) = (c2', f2)).
  { apply (NoDup_map_inj snd paired); auto. cbn. congruence. }
  congruence.
Qed.

(** ** Sister cards in the queue *)

(** Stage 1 queues every row of the cards due. *)
Lemma stage1_queues_every_row db pf now la s c f :
  is_loaded db = true -> active_count db <> 0 -> stage s = 1 ->
  In (c, f) (cards_due_for_ret_rep db (adjusted_now pf now) "-interval" 50) ->
  In c (_card_ids_in_queue (rebuild_queue db pf now la s)) /\
  In f (_fact_ids_in_queue (rebuild_queue db pf now la s)).
Proof.
  intros Hl Ha Hs Hin.
  rewrite rebuild_queue_stage1 by (auto; intros E; now rewrite E in Hin).
  cbn. split.
  - now apply (in_map fst) in Hin.
  - now apply (in_map snd) in Hin.
Qed.

(** C1 fails on the code: the two cards of fact 7 are due, and stage 1
    puts both in the queue. *)
Lemma due_sister_cards_both_queued :
  _card_ids_in_queue
    (rebuild_queue (rows_store [(1, 7); (2, 7)] [] [sister_1; sister_2])
       utc (20 * DAY) false (reset false)) = [1; 2] /\
  _fact_ids_in_queue
    (rebuild_queue (rows_store [(1, 7); (2, 7)] [] [sister_1; sister_2])
       utc (20 * DAY) false (reset false)) = [7; 7] /\
  fact_id (card (rows_store [(1, 7); (2, 7)] [] [sister_1; sister_2]) 1)
  = fact_id (card (rows_store [(1, 7); (2, 7)] [] [sister_1; sister_2]) 2) /\
  1 <> 2.
Proof. repeat split; try reflexivity. discriminate. Qed.

(** So does stage 5, when the learner learns ahead. *)
Example learn_ahead_sister_cards_both_queued :
  _card_ids_in_queue
    (rebuild_queue (rows_store [] [(1, 7); (2, 7)] [sister_40; sister_41])
       utc (35 * DAY) true (reset false)) = [1; 2].
Proof. reflexivity. Qed.

(** * Further properties of the scheduler *)

(** ** [grade_answer] in one expression *)

Lemma grade_transition_outcome c g dry sched act s shown logged :
  grade_transition c g dry sched act (mkGState c s shown logged)
  = let st1 := mkGState (transition_card c g)
                 (if grade c =? -1 then s
                  else if mem (grade c) [GRADE_FORGOT]
                          && mem g [GRADE_FORGOT] then s
                  else if mem (grade c) [GRADE_FORGOT]
                          && negb (mem g [GRADE_FORGOT]) then
                    if negb dry && (grade c =? 0) then
                      if mem (_id c) (_card_ids_in_queue s) then
                        match list_remove (_id c) (_card_ids_in_queue s) with
                        | Some q => set_card_ids_in_queue q s
                        | None => s
                        end
                      else s
                    else s
                  else s)
                 shown logged in
    match transition_interval c g sched act with
    | Some ni => Returned (Some ni) st1
    | None =>
        if grade c =? -1 then Raised IndexError st1
        else if mem (grade c) [GRADE_FORGOT] && mem g [GRADE_FORGOT]
        then Returned None st1
        else if mem (grade c) [GRADE_FORGOT] && negb (mem g [GRADE_FORGOT])
        then Returned None st1
        else if negb (mem (grade c) [GRADE_FORGOT]) && mem g [GRADE_FORGOT]
        then Returned None st1
        else Raised UnboundLocalError st1
    end.
Proof.
  unfold grade_transition, transition_interval, transition_card.
  destruct (grade c =? -1).
  { cbv [bind update_card or_raise ret raise g_card g_sched g_shown g_logged].
    destruct (calculate_initial_interval g); reflexivity. }
  destruct (mem (grade c) [GRADE_FORGOT] && mem g [GRADE_FORGOT]);
    [reflexivity|].
  destruct (mem (grade c) [GRADE_FORGOT] && negb (mem g [GRADE_FORGOT])).
  { cbv [bind update_card update_sched ret when g_card g_sched g_shown
         g_logged].
    destruct (negb dry && (grade c =? 0));
      destruct (acquired_interval g); reflexivity. }
  destruct (negb (mem (grade c) [GRADE_FORGOT]) && mem g [GRADE_FORGOT]);
    [reflexivity|].
  cbv [bind update_card read_local ret raise g_card g_sched g_shown g_logged].
  destruct (retention_interval g sched act); reflexivity.
Qed.

Lemma bind_raise_step {A B : Type} (m : M A) (k : A -> M B) st e st1 :
  m st = Raised e st1 -> bind m k st = Raised e st1.
Proof. unfold bind. now intros ->. Qed.

Ltac run_monad :=
  cbv beta iota delta [bind get_card update_card or_raise ret raise when
    get_sched show update_sched log_repetition g_card g_sched g_shown
    g_logged];
  cbn [last_rep set_last_rep set_next_rep set_grade].

Lemma grade_answer_body_outcome fuel db pf env g dry st :
  grade_answer_body fuel db pf env g dry st
  = grade_outcome fuel db pf env g dry st.
Proof.
  destruct st as [c0 s shown logged].
  unfold grade_answer_body, grade_outcome, graded_card,
    scheduled_interval_of, actual_interval_of, tags_of, transition_sched,
    with_noise, add_noise_of, warning_fires, with_g_card.
  cbn [g_card g_sched g_shown g_logged].
  set (c := if dry then c0 else before_repetition env c0).
  erewrite bind_step with (a := tt) (st1 := mkGState c s shown logged);
    [|destruct dry; reflexivity].
  erewrite bind_step by reflexivity. cbn [g_card].
  destruct (true_scheduled_interval pf (time_scheduled env) c)
    as [sched msgs]. cbn [fst snd].
  erewrite bind_step by reflexivity.
  cbn [g_card g_sched g_shown g_logged].
  set (s1 := if negb dry && (grade c =? GRADE_FORGOT)
                && negb (g =? GRADE_FORGOT)
             then set_fact_ids_memorised
                    (_fact_ids_memorised s ++ [fact_id c]) s
             else s).
  erewrite bind_step with (a := tt)
    (st1 := mkGState c s1 (shown ++ msgs) logged);
    [|unfold s1; destruct (negb dry && (grade c =? GRADE_FORGOT)
                           && negb (g =? GRADE_FORGOT)); reflexivity].
  set (act := if grade c =? -1 then 0 else start_time env - last_rep c).
  pose proof (grade_transition_outcome c g dry sched act s1 (shown ++ msgs)
                logged) as Ht. cbv zeta in Ht.
  set (s2 := if grade c =? -1 then s1 else _) in *.
  destruct (transition_interval c g sched act) as [ni|] eqn:Eni.
  - erewrite bind_step by exact Ht.
    erewrite bind_step by reflexivity.
    destruct (reminder_cap _ _ _) as [[capped an]|];
      [|apply bind_raise_step; reflexivity].
    erewrite bind_step by reflexivity.
    cbv beta iota.
    set (v := if (if (40 <=? capped / DAY) && _ then true else an)
              then _ else capped).
    destruct dry; [reflexivity|].
    erewrite bind_step by reflexivity.
    erewrite bind_step by reflexivity.
    cbn [g_card g_sched g_shown g_logged].
    destruct (negb (g =? GRADE_FORGOT)).
    + run_monad.
      destruct (midnight_UTC pf (time_graded env + v)) as [next|];
        [|reflexivity].
      run_monad.
      destruct (avoid_sister_cards fuel db _) as [c2|]; [|reflexivity].
      run_monad.
      destruct ((len (_fact_ids_memorised s2) =? 15)
                && negb (warned_about_too_many_cards s2));
        run_monad; rewrite ?app_nil_r; reflexivity.
    + run_monad.
      destruct ((len (_fact_ids_memorised s2) =? 15)
                && negb (warned_about_too_many_cards s2));
        run_monad; rewrite ?app_nil_r; reflexivity.
  - destruct (grade c =? -1) eqn:E1.
    { apply bind_raise_step. exact Ht. }
    repeat match type of Ht with
           | _ = (if ?b then _ else _) => destruct b
           end;
      try (apply bind_raise_step; exact Ht);
      (erewrite bind_step by exact Ht; reflexivity).
Qed.

Lemma grade_answer_outcome fuel db pf env g dry st :
  grade_answer fuel db pf env g dry st
  = if dry
    then with_card (g_card st) (grade_outcome fuel db pf env g true st)
    else grade_outcome fuel db pf env g false st.
Proof.
  unfold grade_answer. rewrite !grade_answer_body_outcome.
  destruct dry; reflexivity.
Qed.

Lemma transition_sched_dry c g s : transition_sched c g true s = s.
Proof.
  unfold transition_sched. cbn [negb andb].
  repeat match goal with |- context [if ?b then _ else _] => destruct b end;
    reflexivity.
Qed.

(** X1. A dry run of [grade_answer] has no side effect, whether it returns
    or raises: the card of the caller, the scheduler and the log are as
    before; the only message it can show is the one of
    [true_scheduled_interval].  It never waits for [avoid_sister_cards]. *)
Theorem grade_answer_dry_run_no_effect fuel db pf env g st :
  match grade_answer fuel db pf env g true st with
  | Returned _ st' | Raised _ st' =>
      g_card st' = g_card st /\ g_sched st' = g_sched st /\
      g_logged st' = g_logged st /\
      g_shown st'
      = g_shown st
        ++ snd (true_scheduled_interval pf (time_scheduled env) (g_card st))
  | OutOfFuel => False
  end.
Proof.
  rewrite grade_answer_outcome. unfold grade_outcome, graded_card.
  rewrite transition_sched_dry.
  destruct (transition_interval _ _ _ _); [|cbn; auto].
  destruct (reminder_cap _ _ _) as [[capped an]|]; cbn; auto.
Qed.

(** X2. With the same random draw, and hooks that leave the card as it
    is before the repetition, a dry run predicts the real call: it returns
    the value the real call returns and raises what the real call raises;
    where the real call fails on the date of the next repetition, or in
    [avoid_sister_cards], the dry run has returned before. *)
Theorem grade_answer_dry_run_predicts fuel fuel' db pf env g st :
  before_repetition env (g_card st) = g_card st ->
  match grade_answer fuel db pf env g false st with
  | Returned v _ =>
      returned (grade_answer fuel' db pf env g true st) = Some v
  | Raised OverflowError _ =>
      returned (grade_answer fuel' db pf env g true st) <> None
  | Raised e _ =>
      exists st', grade_answer fuel' db pf env g true st = Raised e st'
  | OutOfFuel =>
      returned (grade_answer fuel' db pf env g true st) <> None
  end.
Proof.
  intros Hb. rewrite !grade_answer_outcome.
  unfold grade_outcome, graded_card. rewrite Hb.
  destruct (transition_interval _ _ _ _).
  - destruct (reminder_cap _ _ _) as [[capped an]|].
    + cbn [with_card returned].
      destruct (negb (g =? GRADE_FORGOT)); [|reflexivity].
      destruct (midnight_UTC _ _); [|discriminate].
      destruct (avoid_sister_cards _ _ _); [reflexivity|discriminate].
    + cbn. eauto.
  - cbn. destruct (grade (g_card st) =? -1); eauto.
Qed.

Lemma on_day_0 c : on_day c 0 = c.
Proof.
  unfold on_day. cbn [Z.of_nat]. rewrite Z.mul_0_l, Z.add_0_r.
  now destruct c.
Qed.

Lemma on_day_S c k :
  set_next_rep (next_rep (on_day c k) + DAY) (on_day c k) = on_day c (S k).
Proof.
  unfold on_day, set_next_rep. cbn -[Z.of_nat Z.mul]. f_equal. lia.
Qed.

(** What [avoid_sister_cards] returns is the card on the first day, from
    the one it is on, without a sister card. *)
Lemma avoid_sister_cards_first_free db c : forall fuel k c',
  avoid_sister_cards fuel db (on_day c k) = Some c' ->
  exists j, (k <= j <= k + fuel)%nat /\ c' = on_day c j /\
    sisters_on db c j = 0 /\
    forall i, (k <= i < j)%nat -> sisters_on db c i <> 0.
Proof.
  induction fuel as [|fuel IH]; intros k c'; cbn [avoid_sister_cards];
    fold (sisters_on db c k); destruct (sisters_on db c k =? 0) eqn:E;
    try discriminate.
  - intros [= <-]. apply Z.eqb_eq in E. exists k. repeat split; auto; lia.
  - intros [= <-]. apply Z.eqb_eq in E. exists k. repeat split; auto; lia.
  - rewrite on_day_S. intros H. apply IH in H.
    destruct H as (j & Hj & -> & Hfree & Hbusy).
    exists j. repeat split; auto; try lia.
    intros i Hi. destruct (Nat.eq_dec i k) as [->|Hne].
    + now apply Z.eqb_neq.
    + apply Hbusy. lia.
Qed.

(** [avoid_sister_cards] returns when a day without a sister card is
    within reach of the fuel. *)
Lemma avoid_sister_cards_reaches db c : forall fuel k m,
  sisters_on db c m = 0 -> (k <= m <= k + fuel)%nat ->
  avoid_sister_cards fuel db (on_day c k) <> None.
Proof.
  induction fuel as [|fuel IH]; intros k m Hm Hk; cbn [avoid_sister_cards];
    fold (sisters_on db c k); destruct (sisters_on db c k =? 0) eqn:E;
    try discriminate; apply Z.eqb_neq in E.
  - assert (m = k) by lia. subst. contradiction.
  - rewrite on_day_S. apply (IH (S k) m Hm).
    destruct (Nat.eq_dec m k) as [->|Hne]; [contradiction|lia].
Qed.

(** X3. [avoid_sister_cards] moves the card to the first day, counted
    from the day it is scheduled on, on which the store counts no sister
    card, and changes nothing else of the card: if day [m] is such a day,
    the loop ends on the first such day [k <= m]. *)
Theorem avoid_sister_cards_first_free_day fuel db c m :
  sisters_on db c m = 0 -> (m <= fuel)%nat ->
  exists k, (k <= m)%nat /\
    avoid_sister_cards fuel db c = Some (on_day c k) /\
    sisters_on db c k = 0 /\
    forall i, (i < k)%nat -> sisters_on db c i <> 0.
Proof.
  intros Hm Hfuel.
  destruct (avoid_sister_cards fuel db c) as [c'|] eqn:E.
  - rewrite <- (on_day_0 c) in E at 1.
    apply avoid_sister_cards_first_free in E.
    destruct E as (j & Hj & -> & Hfree & Hbusy).
    exists j. repeat split; auto.
    + destruct (le_lt_dec j m) as [Hle|Hlt]; [exact Hle|].
      exfalso. apply (Hbusy m); [lia|exact Hm].
    + intros i Hi. apply Hbusy. lia.
  - exfalso. rewrite <- (on_day_0 c) in E.
    apply (avoid_sister_cards_reaches db c fuel 0%nat m Hm); [lia|exact E].
Qed.

Lemma transition_card_same c g : same_but_counters c (transition_card c g).
Proof.
  unfold same_but_counters, transition_card.
  repeat match goal with |- context [if ?b then _ else _] => destruct b end;
    cbn; auto 10.
Qed.

(** What a real call of [grade_answer] that returns leaves: the card
    [c2] handed to the criterion and to the hooks after the repetition. *)
Lemma grade_answer_real_Returned fuel db pf env g st v st' :
  grade_answer fuel db pf env g false st = Returned v st' ->
  let c := before_repetition env (g_card st) in
  let c1 := set_last_rep (time_graded env)
              (set_grade g (transition_card c g)) in
  exists c2,
    g_card st' = after_repetition env (apply_to_card env c2) /\
    (if g =? GRADE_FORGOT then c2 = set_next_rep (time_graded env) c1
     else exists m,
       midnight_UTC pf (time_graded env + v) = Some m /\
       avoid_sister_cards fuel db (set_next_rep m c1) = Some c2) /\
    g_logged st'
    = g_logged st
      ++ [mkLogEntry (g_card st') (scheduled_interval_of pf env c)
            (actual_interval_of env c)].
Proof.
  rewrite grade_answer_outcome. unfold grade_outcome, graded_card.
  cbv zeta. intros H.
  destruct (transition_interval _ _ _ _); [|discriminate].
  destruct (reminder_cap _ _ _) as [[capped an]|]; [|discriminate].
  destruct (g =? GRADE_FORGOT); cbn [negb] in H.
  - injection H as <- <-. eexists.
    split; [reflexivity|]. split; reflexivity.
  - destruct (midnight_UTC _ _) as [m|] eqn:Em; [|discriminate].
    destruct (avoid_sister_cards _ _ _) as [c2|] eqn:Ea; [|discriminate].
    injection H as <- <-. exists c2.
    split; [reflexivity|]. split; [eauto|reflexivity].
Qed.

(** X4. The repetition counters after a real call of [grade_answer] that
    returns.  An unseen card starts with one acquisition repetition and
    easiness 2.  On a card seen before, exactly one of [acq_reps] and
    [ret_reps] goes up by one, [acq_reps] when the card was forgotten;
    [lapses] goes up exactly when a remembered card is forgotten, and both
    counters since the lapse restart from zero then. *)
Theorem grade_answer_counters fuel db pf env g st v st' :
  grade_answer fuel db pf env g false st = Returned v st' ->
  let c := before_repetition env (g_card st) in
  exists c2,
    g_card st' = after_repetition env (apply_to_card env c2) /\
    _id c2 = _id c /\ fact_id c2 = fact_id c /\
    tag_string c2 = tag_string c /\
    grade c2 = g /\ last_rep c2 = time_graded env /\
    (grade c = -1 ->
       easiness c2 = 2%Q /\ acq_reps c2 = 1 /\ acq_reps_since_lapse c2 = 1 /\
       ret_reps c2 = ret_reps c /\ lapses c2 = lapses c /\
       ret_reps_since_lapse c2 = ret_reps_since_lapse c) /\
    (grade c <> -1 ->
       easiness c2 = easiness c /\
       acq_reps c2
       = acq_reps c + (if grade c =? GRADE_FORGOT then 1 else 0) /\
       ret_reps c2
       = ret_reps c + (if grade c =? GRADE_FORGOT then 0 else 1) /\
       lapses c2
       = lapses c + (if negb (grade c =? GRADE_FORGOT) && (g =? GRADE_FORGOT)
                     then 1 else 0) /\
       acq_reps_since_lapse c2
       = (if grade c =? GRADE_FORGOT then acq_reps_since_lapse c + 1
          else if g =? GRADE_FORGOT then 0 else acq_reps_since_lapse c) /\
       ret_reps_since_lapse c2
       = (if grade c =? GRADE_FORGOT then ret_reps_since_lapse c
          else if g =? GRADE_FORGOT then 0
          else ret_reps_since_lapse c + 1)).
Proof.
  intros H c. apply grade_answer_real_Returned in H.
  destruct H as (c2 & Hcard & Hc2 & _). fold c in Hc2.
  exists c2. split; [exact Hcard|].
  assert (E : exists t, c2 = set_next_rep t
                (set_last_rep (time_graded env)
                   (set_grade g (transition_card c g)))).
  { destruct (g =? GRADE_FORGOT); [eauto|].
    destruct Hc2 as (m & _ & Ha).
    rewrite <- (on_day_0 (set_next_rep m _)) in Ha.
    apply avoid_sister_cards_first_free in Ha.
    destruct Ha as (j & _ & -> & _). unfold on_day.
    eexists. reflexivity. }
  destruct E as (t & ->). clear Hc2 Hcard.
  unfold transition_card, GRADE_FORGOT. rewrite !mem_singleton.
  destruct (grade c =? -1) eqn:E1.
  { apply Z.eqb_eq in E1. cbn. repeat split; auto; intros; congruence. }
  apply Z.eqb_neq in E1.
  destruct (grade c =? 0) eqn:E0, (g =? 0) eqn:Eg; cbn;
    repeat split; auto; intros; try congruence; repeat split; lia.
Qed.

Lemma midnight_UTC_multiple pf t m :
  midnight_UTC pf t = Some m -> m mod DAY = 0.
Proof.
  unfold midnight_UTC, timegm.
  destruct (date_fromtimestamp pf t);
    [|destruct (date_fromtimestamp pf (2 ^ 31 - 2))]; intros [= <-];
    apply Z.mod_mul; rewrite DAY_value; lia.
Qed.

(** X5. Where a real call of [grade_answer] with a grade other than
    [GRADE_FORGOT] puts the card: [last_rep] is the time of the grading,
    and [next_rep] is midnight UTC of the local date [last_rep] plus the
    returned interval, moved on day by day to the first day on which the
    store counts no sister card.  [next_rep] is a whole number of days. *)
Theorem grade_answer_next_rep fuel db pf env g st v st' :
  g <> GRADE_FORGOT ->
  grade_answer fuel db pf env g false st = Returned v st' ->
  exists c2 m k,
    g_card st' = after_repetition env (apply_to_card env c2) /\
    last_rep c2 = time_graded env /\
    midnight_UTC pf (time_graded env + v) = Some m /\
    (k <= fuel)%nat /\
    next_rep c2 = m + Z.of_nat k * DAY /\
    next_rep c2 mod DAY = 0 /\
    sister_card_count_scheduled_between db c2
      (next_rep c2) (next_rep c2 + DAY) = 0 /\
    forall i, (i < k)%nat ->
      sister_card_count_scheduled_between db
        (set_next_rep (m + Z.of_nat i * DAY) c2)
        (m + Z.of_nat i * DAY) (m + Z.of_nat i * DAY + DAY) <> 0.
Proof.
  intros Hg H. apply grade_answer_real_Returned in H.
  destruct H as (c2 & Hcard & Hc2 & _).
  apply Z.eqb_neq in Hg. rewrite Hg in Hc2.
  destruct Hc2 as (m & Hm & Ha).
  rewrite <- (on_day_0 (set_next_rep m _)) in Ha.
  apply avoid_sister_cards_first_free in Ha.
  destruct Ha as (k & Hk & -> & Hfree & Hbusy).
  exists (on_day (set_next_rep m
            (set_last_rep (time_graded env)
               (set_grade g
                  (transition_card (before_repetition env (g_card st)) g))))
            k), m, k.
  split; [exact Hcard|]. split; [reflexivity|]. split; [exact Hm|].
  split; [lia|]. split; [reflexivity|]. split.
  { unfold on_day. cbn [next_rep set_next_rep].
    rewrite Z.mod_add by (rewrite DAY_value; lia).
    now apply midnight_UTC_multiple in Hm. }
  split; [exact Hfree|].
  intros i Hi. apply (Hbusy i). lia.
Qed.

Lemma list_remove_mem x : forall l,
  mem x l = match list_remove x l with Some _ => true | None => false end.
Proof.
  induction l as [|y l IH]; [reflexivity|].
  cbn [mem existsb list_remove]. fold (mem x l).
  rewrite (Z.eqb_sym x y). destruct (y =? x); [reflexivity|].
  rewrite IH. cbn [orb]. now destruct (list_remove x l).
Qed.

Lemma set_warned_same s : set_warned (warned_about_too_many_cards s) s = s.
Proof. now destruct s. Qed.

(** The scheduler a real call of [grade_answer] leaves, whether it
    returns or raises, up to the flag of the warning. *)
Lemma grade_answer_real_sched fuel db pf env g st :
  match grade_answer fuel db pf env g false st with
  | Returned _ st' | Raised _ st' =>
      exists w,
        g_sched st'
        = set_warned w
            (transition_sched (before_repetition env (g_card st)) g false
               (g_sched st))
  | OutOfFuel => True
  end.
Proof.
  rewrite grade_answer_outcome. unfold grade_outcome, graded_card.
  cbv zeta.
  set (s1 := transition_sched _ _ _ _).
  assert (Hs : exists w, s1 = set_warned w s1)
    by (eexists; symmetry; apply set_warned_same).
  destruct (transition_interval _ _ _ _); [|exact Hs].
  destruct (reminder_cap _ _ _) as [[capped an]|]; [|exact Hs].
  assert (Hf : exists w,
             (if warning_fires (_fact_ids_memorised s1)
                   (warned_about_too_many_cards s1)
              then set_warned true s1 else s1) = set_warned w s1).
  { destruct (warning_fires _ _); [eauto|exact Hs]. }
  destruct (negb (g =? GRADE_FORGOT)); [|exact Hf].
  destruct (midnight_UTC _ _); [|exact Hs].
  destruct (avoid_sister_cards _ _ _); [exact Hf|exact I].
Qed.

(** X6. What a real call of [grade_answer] does to the scheduler, whether
    it returns or raises.  When the card leaves [GRADE_FORGOT], its fact is
    appended to the facts memorised and the first copy of the card, if
    any, leaves the queue; otherwise both stay as they are.  The facts of
    the queue, the card shown last, the stage and the other settings are
    never touched. *)
Theorem grade_answer_scheduler_effect fuel db pf env g st :
  let c := before_repetition env (g_card st) in
  let s := g_sched st in
  let leaves_forgot := (grade c =? GRADE_FORGOT) && negb (g =? GRADE_FORGOT) in
  match grade_answer fuel db pf env g false st with
  | Returned _ st' | Raised _ st' =>
      _card_ids_in_queue (g_sched st')
      = (if leaves_forgot
         then match list_remove (_id c) (_card_ids_in_queue s) with
              | Some q => q
              | None => _card_ids_in_queue s
              end
         else _card_ids_in_queue s) /\
      _fact_ids_memorised (g_sched st')
      = _fact_ids_memorised s ++ (if leaves_forgot then [fact_id c] else []) /\
      _fact_ids_in_queue (g_sched st') = _fact_ids_in_queue s /\
      _card_id_last (g_sched st') = _card_id_last s /\
      new_only (g_sched st') = new_only s /\
      stage (g_sched st') = stage s /\
      _in_learn_ahead (g_sched st') = _in_learn_ahead s
  | OutOfFuel => True
  end.
Proof.
  intros c s leaves_forgot.
  pose proof (grade_answer_real_sched fuel db pf env g st) as H.
  fold c s in H.
  assert (Hs : forall w s',
             s' = set_warned w (transition_sched c g false s) ->
             _card_ids_in_queue s'
             = (if leaves_forgot
                then match list_remove (_id c) (_card_ids_in_queue s) with
                     | Some q => q
                     | None => _card_ids_in_queue s
                     end
                else _card_ids_in_queue s) /\
             _fact_ids_memorised s'
             = _fact_ids_memorised s
               ++ (if leaves_forgot then [fact_id c] else []) /\
             _fact_ids_in_queue s' = _fact_ids_in_queue s /\
             _card_id_last s' = _card_id_last s /\
             new_only s' = new_only s /\
             stage s' = stage s /\
             _in_learn_ahead s' = _in_learn_ahead s).
  { intros w s' ->. unfold transition_sched, leaves_forgot, GRADE_FORGOT.
    rewrite !mem_singleton. cbn [negb andb].
    destruct (grade c =? 0) eqn:E0.
    - apply Z.eqb_eq in E0.
      replace (grade c =? -1) with false by (symmetry; apply Z.eqb_neq; lia).
      destruct (g =? 0); cbn [negb andb];
        [rewrite app_nil_r; repeat split|].
      cbn [set_fact_ids_memorised _card_ids_in_queue].
      rewrite list_remove_mem.
      destruct (list_remove (_id c) (_card_ids_in_queue s));
        cbn; repeat split.
    - cbn [andb]. rewrite app_nil_r.
      destruct (grade c =? -1), (g =? 0); cbn; repeat split. }
  destruct (grade_answer fuel db pf env g false st) as [v st'|e st'|];
    [| |exact I]; destruct H as (w & H); exact (Hs w _ H).
Qed.

(** [next_card] on a queue whose head is not the card shown last: the
    head is popped and shown. *)
Lemma next_card_head fuel db pf now la s head rest :
  _card_ids_in_queue s = head :: rest ->
  _card_id_last s <> Some head ->
  next_card (S fuel) db pf now la s
  = Some (Shown head
            (set_card_id_last (Some head) (set_card_ids_in_queue rest s))).
Proof.
  intros Hq Hlast. unfold next_card. rewrite Hq.
  replace (len (head :: rest) =? 0) with false
    by (symmetry; apply Z.eqb_neq; unfold len; cbn [List.length]; lia).
  rewrite Hq.
  change (_card_id_last (set_card_ids_in_queue rest s))
    with (_card_id_last s).
  destruct (truthy (_card_id_last s)); [|reflexivity].
  destruct (_card_id_last s) as [last|]; [|reflexivity].
  cbn [next_card_loop].
  destruct (head =? last) eqn:E; [|reflexivity].
  apply Z.eqb_eq in E. congruence.
Qed.

(** X7. Prefetching is sound.  When [is_prefetch_allowed] holds for the
    card shown last, [next_card] gives the same card, the head of the
    queue, whether it is called before the card is graded or after, and
    whether [grade_answer] returns or raises; the queue is not rebuilt. *)
Theorem prefetch_before_or_after_grading
    fuel db pf env g st nfuel ndb npf now la :
  is_prefetch_allowed (g_card st) (g_sched st) = true ->
  _card_id_last (g_sched st) = Some (_id (g_card st)) ->
  _id (before_repetition env (g_card st)) = _id (g_card st) ->
  match grade_answer fuel db pf env g false st with
  | Returned _ st' | Raised _ st' =>
      exists head rest rest',
        _card_ids_in_queue (g_sched st) = head :: rest /\
        _card_ids_in_queue (g_sched st') = head :: rest' /\
        next_card (S nfuel) ndb npf now la (g_sched st)
        = Some (Shown head
                  (set_card_id_last (Some head)
                     (set_card_ids_in_queue rest (g_sched st)))) /\
        next_card (S nfuel) ndb npf now la (g_sched st')
        = Some (Shown head
                  (set_card_id_last (Some head)
                     (set_card_ids_in_queue rest' (g_sched st'))))
  | OutOfFuel => True
  end.
Proof.
  intros Hp Hlast Hid.
  pose proof (grade_answer_real_sched fuel db pf env g st) as H.
  unfold is_prefetch_allowed in Hp.
  destruct (_card_ids_in_queue (g_sched st)) as [|head rest] eqn:Hq;
    [discriminate|].
  destruct (_id (g_card st) =? head) eqn:Eh; [discriminate|].
  apply Z.eqb_neq in Eh.
  assert (Hs : forall w s',
             s' = set_warned w
                    (transition_sched (before_repetition env (g_card st)) g
                       false (g_sched st)) ->
             exists rest',
               _card_ids_in_queue s' = head :: rest' /\
               _card_id_last s' = _card_id_last (g_sched st)).
  { intros w s' ->. unfold transition_sched. rewrite Hid.
    cbn [set_fact_ids_memorised _card_ids_in_queue].
    assert (Hr : forall q,
               list_remove (_id (g_card st)) (head :: rest) = Some q ->
               exists rest', q = head :: rest').
    { cbn [list_remove]. intros q.
      replace (head =? _id (g_card st)) with false
        by (symmetry; apply Z.eqb_neq; congruence).
      destruct (list_remove _ rest); intros [= <-]. eauto. }
    repeat match goal with
           | |- context [if ?b then _ else _] => destruct b
           end;
      cbn; rewrite ?Hq; eauto;
      destruct (list_remove _ (head :: rest)) as [q|] eqn:Er;
      cbn; rewrite ?Hq; eauto;
      destruct (Hr q eq_refl) as (rest' & ->); eauto. }
  destruct (grade_answer fuel db pf env g false st) as [v st'|e st'|];
    [| |exact I]; destruct H as (w & H);
    destruct (Hs w _ H) as (rest' & Hq' & Hl');
    exists head, rest, rest'; repeat split; auto;
    apply next_card_head; auto; rewrite ?Hl', Hlast; congruence.
Qed.

Lemma reminder_cap_None : forall tags ni an,
  reminder_cap tags ni an = None <->
  exists tag,
    In tag tags /\ is_reminder_tag tag = true /\ reminder_days tag = None.
Proof.
  unfold is_reminder_tag, reminder_days.
  induction tags as [|t tags IH]; intros ni an; cbn [reminder_cap In].
  - split; [discriminate|]. intros (tag & [] & _).
  - destruct (String.prefix REMINDER_TAG_STUB t) eqn:E; cbn [negb].
    + destruct (int_of_string _) as [n|] eqn:En.
      * rewrite IH. split; intros (tag & Hin & Hp & Hd).
        -- exists tag. auto.
        -- destruct Hin as [->|Hin]; [congruence|]. exists tag. auto.
      * split; [|reflexivity]. intros _. exists t. auto.
    + rewrite IH. split; intros (tag & Hin & Hp & Hd).
      * exists tag. auto.
      * destruct Hin as [->|Hin]; [congruence|]. exists tag. auto.
Qed.

Lemma calculate_initial_interval_None g :
  calculate_initial_interval g = None <-> g < -6 \/ 5 < g.
Proof.
  unfold calculate_initial_interval, tuple_index, len. cbn [List.length].
  destruct (g <? 0) eqn:E0; [apply Z.ltb_lt in E0|apply Z.ltb_ge in E0].
  - destruct (g + Z.of_nat 6 <? 0) eqn:E1;
      [apply Z.ltb_lt in E1|apply Z.ltb_ge in E1]; cbn [orb].
    + split; [lia|reflexivity].
    + replace (Z.of_nat 6 <=? g + Z.of_nat 6) with false
        by (symmetry; apply Z.leb_gt; lia).
      assert (H : g = -6 \/ g = -5 \/ g = -4 \/ g = -3 \/ g = -2 \/ g = -1)
        by lia.
      split; [|lia].
      destruct H as [->|[->|[->|[->|[->| ->]]]]]; discriminate.
  - replace (g <? 0) with false by (symmetry; apply Z.ltb_ge; lia).
    cbn [orb].
    destruct (Z.of_nat 6 <=? g) eqn:E1;
      [apply Z.leb_le in E1|apply Z.leb_gt in E1].
    + split; [lia|reflexivity].
    + assert (H : g = 0 \/ g = 1 \/ g = 2 \/ g = 3 \/ g = 4 \/ g = 5) by lia.
      split; [|lia].
      destruct H as [->|[->|[->|[->|[->| ->]]]]]; discriminate.
Qed.

Lemma acquired_interval_None g :
  acquired_interval g = None <-> g < 1 \/ 5 < g.
Proof.
  unfold acquired_interval, mem, existsb, GRADE_LESS_BIG, GRADE_LESS_SMALL,
    GRADE_SAME, GRADE_MORE_SMALL, GRADE_MORE_BIG.
  destruct (g =? 1) eqn:E1, (g =? 2) eqn:E2, (g =? 3) eqn:E3,
    (g =? 4) eqn:E4, (g =? 5) eqn:E5; cbn [orb];
    rewrite ?Z.eqb_eq, ?Z.eqb_neq in *;
    (split; [try discriminate; lia | try reflexivity; lia]).
Qed.

Lemma retention_interval_None g sched act :
  retention_interval g sched act = None <-> g < 1 \/ 5 < g.
Proof.
  unfold retention_interval, mem, existsb, GRADE_LESS_BIG, GRADE_LESS_SMALL,
    GRADE_SAME, GRADE_MORE_SMALL, GRADE_MORE_BIG.
  destruct (g =? 1) eqn:E1, (g =? 2) eqn:E2, (g =? 3) eqn:E3,
    (g =? 4) eqn:E4, (g =? 5) eqn:E5; cbn [orb];
    rewrite ?Z.eqb_eq, ?Z.eqb_neq in *;
    (split; [try discriminate; lia | try reflexivity; lia]).
Qed.

(** The grades [grade_answer] has no interval for. *)
Lemma transition_interval_None c g sched act :
  transition_interval c g sched act = None <->
  (grade c = -1 /\ (g < -6 \/ 5 < g)) \/
  (grade c <> -1 /\ (g < 0 \/ 5 < g)).
Proof.
  unfold transition_interval, GRADE_FORGOT. rewrite !mem_singleton.
  destruct (grade c =? -1) eqn:E1;
    [apply Z.eqb_eq in E1|apply Z.eqb_neq in E1].
  - rewrite calculate_initial_interval_None. tauto.
  - destruct (grade c =? 0), (g =? 0) eqn:Eg; cbn [andb negb];
      rewrite ?Z.eqb_eq, ?Z.eqb_neq in *;
      rewrite ?acquired_interval_None, ?retention_interval_None;
      (split; [try discriminate; lia | try lia]).
Qed.

(** What [grade_answer] raises, in the order of the code. *)
Lemma grade_answer_raised fuel db pf env g dry st :
  let c := graded_card env dry (g_card st) in
  raised (grade_answer fuel db pf env g dry st)
  = match transition_interval c g (scheduled_interval_of pf env c)
            (actual_interval_of env c) with
    | None =>
        Some (if grade c =? -1 then IndexError else UnboundLocalError)
    | Some ni =>
        match reminder_cap (tags_of c)
                (clamp_increase (scheduled_interval_of pf env c)
                   (clamp_total ni)) false with
        | None => Some ValueError
        | Some (capped, an) =>
            if dry || (g =? GRADE_FORGOT) then None
            else
              match midnight_UTC pf
                      (time_graded env
                       + with_noise env capped
                           (add_noise_of g capped an)) with
              | Some _ => None
              | None => Some OverflowError
              end
        end
    end.
Proof.
  intros c. unfold c. rewrite grade_answer_outcome.
  destruct dry; unfold grade_outcome; cbv zeta;
    (destruct (transition_interval _ g _ _); [|reflexivity]);
    (destruct (reminder_cap _ _ _) as [[capped an]|]; [|reflexivity]);
    [reflexivity|].
  cbn [orb].
  destruct (g =? GRADE_FORGOT); cbn [negb]; [reflexivity|].
  destruct (midnight_UTC _ _); [|reflexivity].
  destruct (avoid_sister_cards _ _ _); reflexivity.
Qed.

Lemma raised_Some {A} (r : Result A) e :
  (exists st', r = Raised e st') <-> raised r = Some e.
Proof.
  destruct r as [v st'|e' st'|]; cbn [raised].
  - split; [intros (? & [=])|discriminate].
  - split; [intros (? & [= -> _]); reflexivity|intros [= ->]; eauto].
  - split; [intros (? & [=])|discriminate].
Qed.

(** X8. The exceptions of [grade_answer].  A grade with no entry in the
    tuple of initial intervals, on an unseen card, raises [IndexError]:
    the grades from -6 to -1 index the tuple from its end and do not.  On
    a card seen before a grade outside 0..5 leaves [new_interval]
    unassigned and raises [UnboundLocalError].  With a grade that has an
    interval, a plain reminder tag that does not end in an integer raises
    [ValueError]; a [ValueError] comes with a grade that has an interval
    and, in a dry run on a card whose reminder tags are plain, from such a
    reminder tag only.
    [OverflowError] is left to a real call with a grade other than
    [GRADE_FORGOT], when the fallback date of [midnight_UTC] overflows as
    well. *)
Theorem grade_answer_exceptions fuel db pf env g dry st :
  let c := graded_card env dry (g_card st) in
  let r := grade_answer fuel db pf env g dry st in
  let has_interval :=
    if grade c =? -1 then -6 <= g <= 5 else 0 <= g <= 5 in
  ((exists st', r = Raised IndexError st') <->
   grade c = -1 /\ (g < -6 \/ 5 < g)) /\
  ((exists st', r = Raised UnboundLocalError st') <->
   grade c <> -1 /\ (g < 0 \/ 5 < g)) /\
  (has_interval ->
   (exists tag,
      In tag (tags_of c) /\ is_reminder_tag tag = true /\
      plain tag = true /\ reminder_days tag = None) ->
   exists st', r = Raised ValueError st') /\
  ((exists st', r = Raised ValueError st') ->
   has_interval /\
   (dry = true ->
    (forall tag,
       In tag (tags_of c) -> is_reminder_tag tag = true ->
       plain tag = true) ->
    exists tag,
      In tag (tags_of c) /\ is_reminder_tag tag = true /\
      reminder_days tag = None)) /\
  ((exists st', r = Raised OverflowError st') ->
   dry = false /\ g <> GRADE_FORGOT /\
   fromtimestamp_overflows pf (2 ^ 31 - 2) = true).
Proof.
  intros c r has_interval. unfold r. rewrite !raised_Some.
  rewrite grade_answer_raised. fold c. clearbody c. clear r.
  pose proof (transition_interval_None c g (scheduled_interval_of pf env c)
                (actual_interval_of env c)) as Hti.
  pose proof (reminder_cap_None (tags_of c)) as Hrc.
  assert (Hgrade : has_interval <->
                   ~ ((grade c = -1 /\ (g < -6 \/ 5 < g)) \/
                      (grade c <> -1 /\ (g < 0 \/ 5 < g)))).
  { unfold has_interval. destruct (grade c =? -1) eqn:E1;
      [apply Z.eqb_eq in E1|apply Z.eqb_neq in E1]; lia. }
  rewrite Hgrade, <- Hti. clear Hgrade has_interval.
  destruct (transition_interval c g _ _) as [ni|].
  - assert (Hn : ~ (grade c = -1 /\ (g < -6 \/ 5 < g)) /\
                 ~ (grade c <> -1 /\ (g < 0 \/ 5 < g))).
    { split; intros Hb; assert (Some ni = None) by (apply Hti; tauto);
        discriminate. }
    destruct Hn as [Hn1 Hn2].
    specialize (Hrc (clamp_increase (scheduled_interval_of pf env c)
                       (clamp_total ni)) false).
    split; [|split; [|split; [|split]]].
    + destruct (reminder_cap _ _ _) as [[capped an]|];
        [destruct (_ || _); [|destruct (midnight_UTC _ _)]|];
        (split; [discriminate|tauto]).
    + destruct (reminder_cap _ _ _) as [[capped an]|];
        [destruct (_ || _); [|destruct (midnight_UTC _ _)]|];
        (split; [discriminate|tauto]).
    + intros _ (tag & Hin & Hp & _ & Hd).
      assert (E : reminder_cap (tags_of c)
                    (clamp_increase (scheduled_interval_of pf env c)
                       (clamp_total ni)) false = None)
        by (apply Hrc; eauto).
      now rewrite E.
    + intros H. split; [discriminate|]. intros -> _. apply Hrc.
      destruct (reminder_cap _ _ _) as [[capped an]|]; [|reflexivity].
      cbn [orb] in H. discriminate.
    + destruct (reminder_cap _ _ _) as [[capped an]|]; [|discriminate].
      destruct dry; cbn [orb]; [discriminate|].
      destruct (g =? GRADE_FORGOT) eqn:Eg; [discriminate|].
      apply Z.eqb_neq in Eg.
      destruct (midnight_UTC pf _) as [m|] eqn:Em; [discriminate|].
      intros _. repeat split; auto.
      unfold midnight_UTC, date_fromtimestamp in Em.
      destruct (fromtimestamp_overflows pf (time_graded env + _));
        [|discriminate].
      destruct (fromtimestamp_overflows pf (2 ^ 31 - 2));
        [reflexivity|discriminate].
  - assert (Hbad : (grade c = -1 /\ (g < -6 \/ 5 < g)) \/
                   (grade c <> -1 /\ (g < 0 \/ 5 < g)))
      by (now apply Hti).
    destruct (grade c =? -1) eqn:E1;
      [apply Z.eqb_eq in E1|apply Z.eqb_neq in E1].
    + split; [|split; [|split; [|split]]]; try discriminate.
      * split; [intros _; lia|reflexivity].
      * split; [discriminate|lia].
      * intros Hx. exfalso. now apply Hx.
    + split; [|split; [|split; [|split]]]; try discriminate.
      * split; [discriminate|lia].
      * split; [intros _; lia|reflexivity].
      * intros Hx. exfalso. now apply Hx.
Qed.

(** A reminder tag that ends in a word: the dry run and the real call
    both raise [ValueError]. *)
Example grade_answer_reminder_soon :
  raised (grade_answer 0 (store_of []) utc env_reminder GRADE_SAME true
            (start_state card_reminder_soon (reset false)))
  = Some ValueError /\
  raised (grade_answer 0 (store_of []) utc env_reminder GRADE_SAME false
            (start_state card_reminder_soon (reset false)))
  = Some ValueError /\
  tags_of card_reminder_soon = ["verbs"; "Reminder::Remindersoon"]%string /\
  plain "Reminder::Remindersoon" = true.
Proof. vm_compute. repeat split. Qed.

Lemma transition_card_reps c g :
  (grade c <> -1 ->
   acq_reps (transition_card c g) + ret_reps (transition_card c g)
   = acq_reps c + ret_reps c + 1) /\
  (grade c = -1 ->
   acq_reps (transition_card c g) = 1 /\
   easiness (transition_card c g) = 2%Q).
Proof.
  unfold transition_card.
  destruct (grade c =? -1) eqn:E1;
    [apply Z.eqb_eq in E1|apply Z.eqb_neq in E1].
  - split; [congruence|]. intros _. split; reflexivity.
  - split; [intros _|congruence].
    repeat match goal with |- context [if ?b then _ else _] => destruct b end;
      cbn; lia.
Qed.

(** X9. [grade_answer] is not safe against its own exceptions: a real
    call that raises has logged nothing and has not moved [next_rep], but
    it has already counted the repetition on the card of the caller.  The
    grade and [last_rep] are the old ones, unless the exception is the
    [OverflowError] of [midnight_UTC], which comes after they are set. *)
Theorem grade_answer_raise_leaves fuel db pf env g st e st' :
  grade_answer fuel db pf env g false st = Raised e st' ->
  let c := before_repetition env (g_card st) in
  g_logged st' = g_logged st /\
  next_rep (g_card st') = next_rep c /\
  (e = OverflowError ->
   grade (g_card st') = g /\ last_rep (g_card st') = time_graded env) /\
  (e <> OverflowError ->
   grade (g_card st') = grade c /\ last_rep (g_card st') = last_rep c) /\
  (grade c <> -1 ->
   acq_reps (g_card st') + ret_reps (g_card st')
   = acq_reps c + ret_reps c + 1) /\
  (grade c = -1 ->
   acq_reps (g_card st') = 1 /\ easiness (g_card st') = 2%Q).
Proof.
  rewrite grade_answer_outcome. unfold grade_outcome, graded_card.
  cbv zeta. set (c := before_repetition env (g_card st)). intros H.
  pose proof (transition_card_same c g) as (_ & _ & _ & Hg & Hl & Hn).
  pose proof (transition_card_reps c g) as (Hr1 & Hr2).
  destruct (transition_interval c g _ _).
  - destruct (reminder_cap _ _ _) as [[capped an]|].
    + destruct (negb (g =? GRADE_FORGOT)); [|discriminate].
      destruct (midnight_UTC _ _); [|].
      * destruct (avoid_sister_cards _ _ _); discriminate.
      * injection H as <- <-. cbn.
        repeat split; auto; try congruence; now apply Hr2.
    + injection H as <- <-. cbn. repeat split; auto; try discriminate;
        now apply Hr2.
  - injection H as <- <-. cbn. repeat split; auto;
      try (destruct (grade c =? -1); discriminate); now apply Hr2.
Qed.

Lemma grade_answer_dry_run_predicts_witness :
  exists v st',
    grade_answer 0 (store_of []) utc env_100 GRADE_MORE_BIG false
      (start_state card_100 (reset false)) = Returned v st' /\
    returned (grade_answer 5 (store_of []) utc env_100 GRADE_MORE_BIG true
                (start_state card_100 (reset false))) = Some v.
Proof.
  assert (E : exists v st',
            grade_answer 0 (store_of []) utc env_100 GRADE_MORE_BIG false
              (start_state card_100 (reset false)) = Returned v st')
    by (vm_compute; do 2 eexists; reflexivity).
  destruct E as (v & st' & E). exists v, st'. split; [exact E|].
  pose proof (grade_answer_dry_run_predicts 0 5 (store_of []) utc env_100
                GRADE_MORE_BIG (start_state card_100 (reset false))
                eq_refl) as H.
  rewrite E in H. exact H.
Defined.

Lemma avoid_sister_cards_first_free_day_witness :
  exists k, (k <= 2)%nat /\
    avoid_sister_cards 5 (store_of [sister_20; sister_21])
      (set_next_rep (20 * DAY) sister_10)
    = Some (on_day (set_next_rep (20 * DAY) sister_10) k) /\
    sisters_on (store_of [sister_20; sister_21])
      (set_next_rep (20 * DAY) sister_10) k = 0 /\
    forall i, (i < k)%nat ->
      sisters_on (store_of [sister_20; sister_21])
        (set_next_rep (20 * DAY) sister_10) i <> 0.
Proof.
  apply avoid_sister_cards_first_free_day; [reflexivity|lia].
Defined.

Lemma grade_answer_counters_witness :
  exists v st',
    grade_answer 0 (store_of []) utc env_10_first GRADE_FORGOT false
      (start_state card_10 (reset false)) = Returned v st' /\
    exists c2,
      g_card st' = c2 /\ grade c2 = GRADE_FORGOT /\
      lapses c2 = lapses card_10 + 1 /\ ret_reps c2 = ret_reps card_10 + 1 /\
      acq_reps c2 = acq_reps card_10 /\
      acq_reps_since_lapse c2 = 0 /\ ret_reps_since_lapse c2 = 0.
Proof.
  assert (E : exists v st',
            grade_answer 0 (store_of []) utc env_10_first GRADE_FORGOT false
              (start_state card_10 (reset false)) = Returned v st')
    by (vm_compute; do 2 eexists; reflexivity).
  destruct E as (v & st' & E). exists v, st'. split; [exact E|].
  destruct (grade_answer_counters _ _ _ _ _ _ _ _ E)
    as (c2 & Hc & _ & _ & _ & Hg & _ & _ & Hseen).
  exists c2. split; [exact Hc|]. split; [exact Hg|].
  destruct Hseen as (_ & Ha & Hr & Hl & Hal & Hrl); [discriminate|].
  repeat split; assumption.
Defined.

Lemma grade_answer_next_rep_witness :
  exists c2 m k,
    g_card state_sister_10
    = after_repetition env_10_first (apply_to_card env_10_first c2) /\
    last_rep c2 = time_graded env_10_first /\
    midnight_UTC utc (time_graded env_10_first + 10 * DAY) = Some m /\
    (k <= 5)%nat /\
    next_rep c2 = m + Z.of_nat k * DAY /\
    next_rep c2 mod DAY = 0 /\
    sister_card_count_scheduled_between (store_of [sister_20; sister_21]) c2
      (next_rep c2) (next_rep c2 + DAY) = 0 /\
    forall i, (i < k)%nat ->
      sister_card_count_scheduled_between (store_of [sister_20; sister_21])
        (set_next_rep (m + Z.of_nat i * DAY) c2)
        (m + Z.of_nat i * DAY) (m + Z.of_nat i * DAY + DAY) <> 0.
Proof.
  apply (grade_answer_next_rep 5 (store_of [sister_20; sister_21]) utc
           env_10_first GRADE_SAME (start_state sister_10 (reset false))
           (10 * DAY) state_sister_10).
  - discriminate.
  - vm_compute. reflexivity.
Defined.

(** The card of day 10 is graded [SAME] on day 10: day 20 and day 21 hold
    a sister card each, and the card is scheduled on day 22. *)
Example grade_answer_skips_sister_days :
  next_rep (g_card state_sister_10) = 22 * DAY /\
  last_rep (g_card state_sister_10) = 10 * DAY.
Proof. split; reflexivity. Qed.

Lemma prefetch_before_or_after_grading_witness :
  exists v st',
    grade_answer 0 (store_of []) utc (no_hooks 0 0 0 0) GRADE_SAME false
      prefetch_state = Returned v st' /\
    exists head rest rest',
      _card_ids_in_queue (g_sched prefetch_state) = head :: rest /\
      _card_ids_in_queue (g_sched st') = head :: rest' /\
      next_card 1 (store_of []) utc 0 false (g_sched prefetch_state)
      = Some (Shown head
                (set_card_id_last (Some head)
                   (set_card_ids_in_queue rest (g_sched prefetch_state)))) /\
      next_card 1 (store_of []) utc 0 false (g_sched st')
      = Some (Shown head
                (set_card_id_last (Some head)
                   (set_card_ids_in_queue rest' (g_sched st')))).
Proof.
  assert (E : exists v st',
            grade_answer 0 (store_of []) utc (no_hooks 0 0 0 0) GRADE_SAME
              false prefetch_state = Returned v st')
    by (vm_compute; do 2 eexists; reflexivity).
  destruct E as (v & st' & E). exists v, st'. split; [exact E|].
  pose proof (prefetch_before_or_after_grading 0 (store_of []) utc
                (no_hooks 0 0 0 0) GRADE_SAME prefetch_state
                0 (store_of []) utc 0 false eq_refl eq_refl eq_refl) as H.
  rewrite E in H. exact H.
Defined.

Lemma grade_answer_raise_leaves_witness :
  exists st',
    grade_answer 0 (store_of []) utc env_100 7 false
      (start_state card_100 (reset false))
    = Raised UnboundLocalError st' /\
    g_logged st' = [] /\
    next_rep (g_card st') = next_rep card_100 /\
    grade (g_card st') = grade card_100 /\
    last_rep (g_card st') = last_rep card_100 /\
    acq_reps (g_card st') + ret_reps (g_card st')
    = acq_reps card_100 + ret_reps card_100 + 1.
Proof.
  assert (E : exists st',
            grade_answer 0 (store_of []) utc env_100 7 false
              (start_state card_100 (reset false))
            = Raised UnboundLocalError st')
    by (vm_compute; eexists; reflexivity).
  destruct E as (st' & E). exists st'. split; [exact E|].
  destruct (grade_answer_raise_leaves _ _ _ _ _ _ _ _ E)
    as (Hlog & Hn & _ & Hold & Hreps & _).
  destruct Hold as [Hg Hl]; [discriminate|].
  repeat split; auto. apply Hreps. discriminate.
Defined.

(** ** The stage of the queue builder *)

Lemma stage_rel_refl s : stage_rel s s.
Proof. unfold stage_rel. auto. Qed.

Lemma stage_rel_trans a b c : stage_rel a b -> stage_rel b c -> stage_rel a c.
Proof. unfold stage_rel. intuition congruence. Qed.

Lemma restart_stage_23 s : restart_stage s = 2 \/ restart_stage s = 3.
Proof. unfold restart_stage. destruct (new_only s); auto. Qed.

Lemma rebuild_stage5_stage db pf now la s :
  stage (rebuild_stage5 db pf now la s) = 2 \/
  stage (rebuild_stage5 db pf now la s) = 3.
Proof.
  unfold rebuild_stage5. destruct (negb la).
  - cbn. apply restart_stage_23.
  - destruct (add_learn_ahead _ _ _ _). cbn. auto.
Qed.

Lemma rebuild_stage4_stage db pf now la limit n s :
  stage (rebuild_stage4 db pf now la limit n s) = 2 \/
  stage (rebuild_stage4 db pf now la limit n s) = 3.
Proof.
  unfold rebuild_stage4.
  destruct (stage s <=? 4); [|apply rebuild_stage5_stage].
  destruct (add_unseen _ _ _ _ _ _) as [[[cards facts] n'] hit].
  destruct hit; [cbn; apply restart_stage_23|].
  destruct (len _ <=? 2).
  - destruct (add_unseen _ _ _ _ _ _) as [[[cards2 facts2] n2] hit2].
    destruct hit2; [cbn; apply restart_stage_23|].
    apply rebuild_stage5_stage.
  - apply rebuild_stage5_stage.
Qed.

Lemma rebuild_stage3_stage db pf now la limit n s :
  stage_rel s (rebuild_stage3 db pf now la limit n s).
Proof.
  unfold rebuild_stage3, stage_rel.
  destruct (stage s <=? 3).
  - destruct (add_non_memorised _ _ _ _ _) as [[cards facts] n'].
    destruct (n' =? limit); [cbn; auto|].
    destruct (rebuild_stage4_stage db pf now la limit n'
                (if len (_card_ids_in_queue (set_queue cards facts s)) =? 0
                 then set_stage 4 (set_queue cards facts s)
                 else set_queue cards facts s)); auto.
  - destruct (rebuild_stage4_stage db pf now la limit n s); auto.
Qed.

Lemma rebuild_stage2_stage db pf now la s :
  stage_rel s (rebuild_stage2 db pf now la s).
Proof.
  unfold rebuild_stage2.
  destruct (stage s =? 2) eqn:E2; [|apply rebuild_stage3_stage].
  apply Z.eqb_eq in E2.
  destruct (add_non_memorised _ _ _ _ _) as [[cards facts] n'].
  destruct (n' =? 50); [unfold stage_rel; cbn; auto|].
  match goal with
  | |- stage_rel _ (rebuild_stage3 _ _ _ _ _ _ ?s1) =>
      pose proof (rebuild_stage3_stage db pf now la 50 n' s1) as H;
      assert (Hs : stage s1 = 2 \/ stage s1 = 3)
        by (destruct (len _ =? 0); cbn; auto)
  end.
  unfold stage_rel in *. intuition congruence.
Qed.

Lemma rebuild_queue_stage db pf now la s :
  stage_rel s (rebuild_queue db pf now la s).
Proof.
  unfold rebuild_queue. destruct (_ || _); [apply stage_rel_refl|].
  unfold rebuild_stage1.
  change (stage (set_in_learn_ahead false (set_queue [] [] s)))
    with (stage s).
  destruct (stage s =? 1).
  - destruct (negb _); [unfold stage_rel; cbn; auto|].
    match goal with
    | |- stage_rel _ (rebuild_stage2 _ _ _ _ ?s1) =>
        pose proof (rebuild_stage2_stage db pf now la s1) as H;
        assert (Hs : stage s1 = 2) by reflexivity
    end.
    unfold stage_rel in *. intuition congruence.
  - match goal with
    | |- stage_rel _ (rebuild_stage2 _ _ _ _ ?s1) =>
        pose proof (rebuild_stage2_stage db pf now la s1) as H;
        assert (Hs : stage s1 = stage s) by reflexivity
    end.
    unfold stage_rel in *. intuition congruence.
Qed.

Ltac stage_now :=
  unfold stage_rel in *;
  cbn [stage set_card_ids_in_queue set_queue set_card_id_last] in *;
  intuition congruence.

Lemma next_card_loop_stage db pf now la last : forall fuel id s r,
  next_card_loop fuel db pf now la last id s = Some r ->
  match r with
  | NoCard s' | Shown _ s' => stage_rel s s'
  end.
Proof.
  induction fuel as [|fuel IH]; intros id s r; cbn [next_card_loop];
    [discriminate|].
  destruct (id =? last).
  - destruct (_card_ids_in_queue s) as [|next queue'].
    + pose proof (rebuild_queue_stage db pf now la s) as Hs.
      destruct (_card_ids_in_queue (rebuild_queue db pf now la s))
        as [|next queue'].
      * intros [= <-]. exact Hs.
      * destruct (set_eqb _ _); [intros [= <-]; exact Hs|].
        intros H. apply IH in H. destruct r; stage_now.
    + intros H. apply IH in H. destruct r; stage_now.
  - intros [= <-]. stage_now.
Qed.

Lemma next_card_stage fuel db pf now la s r :
  next_card fuel db pf now la s = Some r ->
  match r with
  | NoCard s' | Shown _ s' => stage_rel s s'
  end.
Proof.
  unfold next_card.
  set (s0 := if len (_card_ids_in_queue s) =? 0
             then rebuild_queue db pf now la s else s).
  assert (H0 : stage_rel s s0).
  { unfold s0. destruct (_ =? 0);
      [apply rebuild_queue_stage|apply stage_rel_refl]. }
  destruct (_card_ids_in_queue s0) as [|id queue'].
  - intros [= <-]. exact H0.
  - destruct (truthy _).
    + destruct (_card_id_last _).
      * intros H. apply next_card_loop_stage in H. destruct r; stage_now.
      * intros [= <-]. stage_now.
    + intros [= <-]. stage_now.
Qed.

Lemma step_stage op st st' ev :
  step op st = Some (st', ev) -> stage_rel (g_sched st) (g_sched st').
Proof.
  destruct op as [k|k|k|c]; cbn [step].
  - destruct (next_card _ _ _ _ _ _) as [[s|b s]|] eqn:E; [| |discriminate];
      intros [= <- <-]; apply next_card_stage in E; exact E.
  - intros [= <- <-]. apply rebuild_queue_stage.
  - pose proof (grade_answer_real_sched (gc_fuel k) (gc_db k) (gc_pf k)
                  (gc_env k) (gc_new_grade k)
                  (with_g_card (gc_card k) st)) as Hreal.
    destruct (gc_dry_run k).
    + rewrite grade_answer_outcome. unfold grade_outcome.
      rewrite transition_sched_dry.
      destruct (transition_interval _ _ _ _);
        [destruct (reminder_cap _ _ _) as [[capped an]|]|];
        intros [= <- <-]; apply stage_rel_refl.
    + destruct (grade_answer _ _ _ _ _ _ _) as [v st1|e st1|];
        [| |discriminate]; intros [= <- <-];
        destruct Hreal as (w & ->); unfold stage_rel; right; right;
        unfold transition_sched;
        repeat match goal with
               | |- context [if ?b then _ else _] => destruct b
               | |- context [match ?o with Some _ => _ | None => _ end] =>
                   destruct o
               end; reflexivity.
  - intros [= <- <-]. cbn. unfold remove_from_queue_if_present.
    destruct (list_remove _ _); [destruct (list_remove _ _)|]; stage_now.
Qed.

(** X10. The stage between the calls of a session.  Whatever the calls,
    the stage a session is left in is 2 or 3 or the stage it started
    from: stages 4 and 5 never outlive a call of [rebuild_queue], and
    stage 1, once left, does not come back, so that the cards due are
    asked from the store only until a rebuild first finds none. *)
Theorem session_stage ops : forall st st' evs,
  run ops st = Some (st', evs) ->
  stage (g_sched st') = 2 \/ stage (g_sched st') = 3 \/
  stage (g_sched st') = stage (g_sched st).
Proof.
  induction ops as [|op ops IH]; intros st st' evs; cbn [run].
  - intros [= <- <-]. auto.
  - destruct (step op st) as [[st1 ev]|] eqn:Es; [|discriminate].
    destruct (run ops st1) as [[st2 evs']|] eqn:Er; [|discriminate].
    intros [= <- <-]. apply IH in Er. apply step_stage in Es.
    unfold stage_rel in Es. intuition congruence.
Qed.

Lemma session_stage_witness :
  exists st' evs,
    run (four_next_cards [(1, 10); (2, 20)])
      (start_state card_10 (reset false)) = Some (st', evs) /\
    stage (g_sched st') = 2.
Proof.
  assert (E : exists st' evs,
            run (four_next_cards [(1, 10); (2, 20)])
              (start_state card_10 (reset false)) = Some (st', evs) /\
            stage (g_sched st') <> 3 /\ stage (g_sched st') <> 1).
  { vm_compute. do 2 eexists. split; [reflexivity|].
    split; discriminate. }
  destruct E as (st' & evs & E & H3 & H1). exists st', evs.
  split; [exact E|].
  destruct (session_stage _ _ _ _ E) as [H|[H|H]];
    [exact H|contradiction|].
  exfalso. apply H1. rewrite H. reflexivity.
Defined.


(** ** The limit of the queue *)

Lemma len_app {A : Type} (l l' : list A) : len (l ++ l') = len l + len l'.
Proof. unfold len. rewrite length_app. lia. Qed.

Lemma len_nonneg {A : Type} (l : list A) : 0 <= len l.
Proof. unfold len. lia. Qed.

Lemma add_non_memorised_limit : forall rows cards facts n,
  within_limit cards facts n ->
  let '(cards', facts', n') := add_non_memorised rows 50 cards facts n in
  within_limit cards' facts' n'.
Proof.
  induction rows as [|[c f] rows IH]; intros cards facts n H;
    cbn [add_non_memorised]; [exact H|].
  destruct (negb (mem f facts)); [|now apply IH].
  destruct (n <? 50) eqn:En.
  - apply Z.ltb_lt in En.
    assert (H1 : within_limit (cards ++ [c] ++ [c]) (facts ++ [f]) (n + 1)).
    { unfold within_limit in *. rewrite !len_app.
      change (len [c]) with 1. change (len [f]) with 1. lia. }
    destruct (n + 1 =? 50); [exact H1|]. now apply IH.
  - destruct (n =? 50); [exact H|]. now apply IH.
Qed.

Lemma add_unseen_limit : forall rows skip cards facts n,
  within_limit cards facts n -> n < 50 ->
  let '(cards', facts', n', hit) := add_unseen rows 50 skip cards facts n in
  within_limit cards' facts' n' /\ (hit = false -> n' < 50).
Proof.
  induction rows as [|[c f] rows IH]; intros skip cards facts n H Hn;
    cbn [add_unseen]; [auto|].
  destruct (negb (mem f facts) && negb (mem f skip)); [|now apply IH].
  assert (H1 : within_limit (cards ++ [c]) (facts ++ [f]) (n + 1)).
  { unfold within_limit in *. rewrite !len_app.
    change (len [c]) with 1. change (len [f]) with 1. lia. }
  destruct (n + 1 =? 50) eqn:E.
  - split; [exact H1|discriminate].
  - apply Z.eqb_neq in E. apply IH; [exact H1|lia].
Qed.

Lemma within_limit_bounded la cards facts n s :
  within_limit cards facts n -> queue_bounded la (set_queue cards facts s).
Proof.
  unfold within_limit, queue_bounded.
  cbn [_card_ids_in_queue _fact_ids_in_queue set_queue].
  intros (Hf & Hc & Hn). split; [|intros _]; lia.
Qed.

Lemma rebuild_stage5_bounded db pf now la s :
  queue_bounded false s -> queue_bounded la (rebuild_stage5 db pf now la s).
Proof.
  unfold queue_bounded, rebuild_stage5. intros [Hf Hc].
  destruct la; cbn [negb].
  - destruct (add_learn_ahead _ _ _ _). cbn. split; [exact Hf|discriminate].
  - cbn. auto.
Qed.

Lemma rebuild_stage4_bounded db pf now la n s :
  within_limit (_card_ids_in_queue s) (_fact_ids_in_queue s) n -> n < 50 ->
  queue_bounded la (rebuild_stage4 db pf now la 50 n s).
Proof.
  intros H Hn. unfold rebuild_stage4.
  assert (Hb : forall la' s', queue_bounded la' (set_queue
                 (_card_ids_in_queue s) (_fact_ids_in_queue s) s')).
  { intros la' s'. now apply within_limit_bounded with (n := n). }
  destruct (stage s <=? 4).
  - pose proof (add_unseen_limit (cards_unseen db 50) (_fact_ids_memorised s)
                  _ _ n H Hn) as H1.
    destruct (add_unseen _ _ _ _ _ _) as [[[cards facts] n1] hit].
    destruct H1 as [H1 Hn1].
    destruct hit.
    { apply (within_limit_bounded la _ _ n1
               (set_stage (restart_stage (set_queue cards facts s)) s)) in H1.
      exact H1. }
    specialize (Hn1 eq_refl).
    cbn [_card_ids_in_queue _fact_ids_in_queue set_queue].
    destruct (len facts <=? 2).
    + pose proof (add_unseen_limit (cards_unseen db 50) [] _ _ n1 H1 Hn1)
        as H2.
      destruct (add_unseen _ _ _ _ _ _) as [[[cards2 facts2] n2] hit2].
      destruct H2 as [H2 _].
      destruct hit2.
      { apply (within_limit_bounded la _ _ n2
                 (set_stage
                    (restart_stage
                       (set_queue cards2 facts2 (set_queue cards facts s)))
                    s)) in H2.
        exact H2. }
      apply rebuild_stage5_bounded.
      apply (within_limit_bounded false _ _ n2 s) in H2.
      destruct (len _ =? 0); exact H2.
    + apply rebuild_stage5_bounded.
      apply (within_limit_bounded false _ _ n1 s) in H1.
      destruct (len _ =? 0); exact H1.
  - apply rebuild_stage5_bounded. specialize (Hb false s).
    unfold queue_bounded in *. cbn in Hb. exact Hb.
Qed.

Lemma rebuild_stage3_bounded db pf now la n s :
  within_limit (_card_ids_in_queue s) (_fact_ids_in_queue s) n -> n < 50 ->
  queue_bounded la (rebuild_stage3 db pf now la 50 n s).
Proof.
  intros H Hn. unfold rebuild_stage3.
  destruct (stage s <=? 3); [|now apply rebuild_stage4_bounded].
  pose proof (add_non_memorised_limit (cards_new_memorising db GRADE_FORGOT)
                _ _ n H) as H1.
  destruct (add_non_memorised _ _ _ _ _) as [[cards facts] n1].
  destruct (n1 =? 50) eqn:E.
  - now apply within_limit_bounded with (n := n1).
  - apply Z.eqb_neq in E.
    assert (Hn1 : n1 < 50) by (unfold within_limit in H1; lia).
    apply rebuild_stage4_bounded with (n := n1); [|exact Hn1].
    destruct (len _ =? 0); exact H1.
Qed.

Lemma rebuild_stage2_bounded db pf now la s :
  _card_ids_in_queue s = [] -> _fact_ids_in_queue s = [] ->
  queue_bounded la (rebuild_stage2 db pf now la s).
Proof.
  intros Hq Hf. unfold rebuild_stage2.
  assert (H : within_limit (_card_ids_in_queue s) (_fact_ids_in_queue s) 0).
  { rewrite Hq, Hf. unfold within_limit. cbn. lia. }
  destruct (stage s =? 2);
    [|apply rebuild_stage3_bounded with (n := 0); [exact H|lia]].
  pose proof (add_non_memorised_limit
                (cards_to_relearn db GRADE_FORGOT "last_rep") _ _ 0 H) as H1.
  destruct (add_non_memorised _ _ _ _ _) as [[cards facts] n1].
  destruct (n1 =? 50) eqn:E.
  - now apply within_limit_bounded with (n := n1).
  - apply Z.eqb_neq in E.
    assert (Hn1 : n1 < 50) by (unfold within_limit in H1; lia).
    apply rebuild_stage3_bounded with (n := n1); [|exact Hn1].
    destruct (len _ =? 0); exact H1.
Qed.

(** X11. The limit of the queue.  After a rebuild on a store that
    returns no more due cards than the 50 it is asked for, the queue
    holds the cards of at most 50 facts; unless the learner learns ahead,
    it holds two cards a fact at most, so 100 cards at most. *)
Theorem rebuild_queue_limit db pf now la s :
  is_loaded db = true -> active_count db <> 0 ->
  len (cards_due_for_ret_rep db (adjusted_now pf now) "-interval" 50) <= 50 ->
  len (_fact_ids_in_queue (rebuild_queue db pf now la s)) <= 50 /\
  (la = false ->
   len (_card_ids_in_queue (rebuild_queue db pf now la s)) <= 100).
Proof.
  intros Hl Ha Hdue.
  assert (H : queue_bounded la (rebuild_queue db pf now la s)).
  { unfold rebuild_queue. rewrite Hl. apply Z.eqb_neq in Ha. rewrite Ha.
    cbn [negb orb]. unfold rebuild_stage1.
    destruct (stage _ =? 1); [|now apply rebuild_stage2_bounded].
    cbn [_card_ids_in_queue _fact_ids_in_queue set_queue
         set_in_learn_ahead app].
    destruct (cards_due_for_ret_rep db _ _ _) as [|row rows];
      [now apply rebuild_stage2_bounded|].
    change (negb (len (map fst (row :: rows)) =? 0)) with true.
    unfold queue_bounded.
    cbn [_card_ids_in_queue _fact_ids_in_queue set_queue].
    unfold len in *. rewrite !length_map. lia. }
  destruct H as [Hf Hc]. split; [exact Hf|].
  intros E. specialize (Hc E). lia.
Qed.

Lemma rebuild_queue_limit_witness :
  len (_fact_ids_in_queue
         (rebuild_queue (relearn_store [(1, 10); (2, 20)]) utc 0 false
            (reset false))) <= 50 /\
  (false = false ->
   len (_card_ids_in_queue
          (rebuild_queue (relearn_store [(1, 10); (2, 20)]) utc 0 false
             (reset false))) <= 100).
Proof.
  apply rebuild_queue_limit; [reflexivity|discriminate|].
  vm_compute. discriminate.
Defined.

(** ** Learning ahead *)

Lemma learn_ahead_threshold x : (x / DAY <? 34) = negb (34 * DAY <=? x).
Proof.
  pose proof DAY_pos as HD.
  destruct (34 * DAY <=? x) eqn:E; cbn [negb].
  - apply Z.leb_le in E. apply Z.ltb_ge.
    apply Z.div_le_lower_bound; lia.
  - apply Z.leb_gt in E. apply Z.ltb_lt.
    apply Z.div_lt_upper_bound; lia.
Qed.

Lemma add_learn_ahead_learnt db : forall rows cards la,
  add_learn_ahead db rows cards la
  = (cards ++ learnt_ahead db rows,
     la || negb (len (learnt_ahead db rows) =? 0)).
Proof.
  unfold learnt_ahead.
  induction rows as [|[c f] rows IH]; intros cards la;
    cbn [add_learn_ahead filter map fst].
  - rewrite app_nil_r. cbn. now rewrite orb_false_r.
  - rewrite learn_ahead_threshold. unfold interval.
    destruct (34 * DAY <=? next_rep (card db c) - last_rep (card db c));
      cbn [negb].
    + rewrite IH. cbn [map fst]. rewrite <- app_assoc. cbn [app].
      f_equal. now rewrite orb_true_r.
    + apply IH.
Qed.

(** The loops of stage 4 tell that they reached the limit. *)
Lemma add_unseen_hit : forall rows skip cards facts n,
  let '(_, _, n', hit) := add_unseen rows 50 skip cards facts n in
  hit = true -> n' = 50.
Proof.
  induction rows as [|[c f] rows IH]; intros skip cards facts n;
    cbn [add_unseen]; [discriminate|].
  destruct (negb (mem f facts) && negb (mem f skip)); [|now apply IH].
  destruct (n + 1 =? 50) eqn:E; [|now apply IH].
  apply Z.eqb_eq in E. auto.
Qed.

Lemma rebuild_stage5_ahead db pf now s :
  rebuild_stage5 db pf now true s
  = with_learnt_ahead
      (learnt_ahead db
         (cards_learn_ahead db (adjusted_now pf now + DAY * 7) "-interval"))
      (rebuild_stage5 db pf now false s).
Proof.
  unfold rebuild_stage5, with_learnt_ahead. cbn [negb].
  rewrite add_learn_ahead_learnt. now destruct s.
Qed.

Lemma rebuild_stage5_below db pf now s n :
  len (_fact_ids_in_queue s) = n -> n < 50 ->
  rebuild_stage5 db pf now true s
  = learnt_or_returned
      (learnt_ahead db
         (cards_learn_ahead db (adjusted_now pf now + DAY * 7) "-interval"))
      (rebuild_stage5 db pf now false s).
Proof.
  intros Hn Hlt. unfold learnt_or_returned.
  replace (len (_fact_ids_in_queue (rebuild_stage5 db pf now false s)) =? 50)
    with false; [apply rebuild_stage5_ahead|].
  symmetry. apply Z.eqb_neq. unfold rebuild_stage5. cbn. lia.
Qed.

Lemma returned_at_limit ahead cards facts s' :
  within_limit cards facts 50 ->
  _fact_ids_in_queue s' = facts ->
  s' = learnt_or_returned ahead s'.
Proof.
  intros (Hf & _) E. unfold learnt_or_returned. rewrite E, Hf. reflexivity.
Qed.

Lemma rebuild_stage4_ahead db pf now n s :
  within_limit (_card_ids_in_queue s) (_fact_ids_in_queue s) n -> n < 50 ->
  rebuild_stage4 db pf now true 50 n s
  = learnt_or_returned
      (learnt_ahead db
         (cards_learn_ahead db (adjusted_now pf now + DAY * 7) "-interval"))
      (rebuild_stage4 db pf now false 50 n s).
Proof.
  intros H Hn. unfold rebuild_stage4.
  destruct (stage s <=? 4);
    [|apply rebuild_stage5_below with (n := n); [apply H|exact Hn]].
  pose proof (add_unseen_limit (cards_unseen db 50) (_fact_ids_memorised s)
                _ _ n H Hn) as H1.
  pose proof (add_unseen_hit (cards_unseen db 50) (_fact_ids_memorised s)
                (_card_ids_in_queue s) (_fact_ids_in_queue s) n) as G1.
  destruct (add_unseen _ _ _ _ _ _) as [[[cards facts] n1] hit].
  destruct H1 as [H1 Hn1].
  destruct hit.
  { rewrite (G1 eq_refl) in H1.
    apply returned_at_limit with (cards := cards) (facts := facts);
      [exact H1|reflexivity]. }
  specialize (Hn1 eq_refl). clear G1.
  cbn [_card_ids_in_queue _fact_ids_in_queue set_queue].
  destruct (len facts <=? 2).
  - pose proof (add_unseen_limit (cards_unseen db 50) [] _ _ n1 H1 Hn1) as H2.
    pose proof (add_unseen_hit (cards_unseen db 50) [] cards facts n1) as G2.
    destruct (add_unseen _ _ _ _ _ _) as [[[cards2 facts2] n2] hit2].
    destruct H2 as [H2 Hn2].
    destruct hit2.
    { rewrite (G2 eq_refl) in H2.
      apply returned_at_limit with (cards := cards2) (facts := facts2);
        [exact H2|reflexivity]. }
    specialize (Hn2 eq_refl).
    apply rebuild_stage5_below with (n := n2); [|exact Hn2].
    destruct (len _ =? 0); apply H2.
  - apply rebuild_stage5_below with (n := n1); [|exact Hn1].
    destruct (len _ =? 0); apply H1.
Qed.

Lemma rebuild_stage3_ahead db pf now n s :
  within_limit (_card_ids_in_queue s) (_fact_ids_in_queue s) n -> n < 50 ->
  rebuild_stage3 db pf now true 50 n s
  = learnt_or_returned
      (learnt_ahead db
         (cards_learn_ahead db (adjusted_now pf now + DAY * 7) "-interval"))
      (rebuild_stage3 db pf now false 50 n s).
Proof.
  intros H Hn. unfold rebuild_stage3.
  destruct (stage s <=? 3); [|now apply rebuild_stage4_ahead].
  pose proof (add_non_memorised_limit (cards_new_memorising db GRADE_FORGOT)
                _ _ n H) as H1.
  destruct (add_non_memorised _ _ _ _ _) as [[cards facts] n1].
  destruct (n1 =? 50) eqn:E;
    [apply Z.eqb_eq in E|apply Z.eqb_neq in E].
  - rewrite E in H1.
    apply returned_at_limit with (cards := cards) (facts := facts);
      [exact H1|reflexivity].
  - apply rebuild_stage4_ahead.
    + destruct (len _ =? 0); exact H1.
    + destruct H1 as (_ & _ & H1). lia.
Qed.

Lemma rebuild_stage2_ahead db pf now s :
  _card_ids_in_queue s = [] -> _fact_ids_in_queue s = [] ->
  rebuild_stage2 db pf now true s
  = learnt_or_returned
      (learnt_ahead db
         (cards_learn_ahead db (adjusted_now pf now + DAY * 7) "-interval"))
      (rebuild_stage2 db pf now false s).
Proof.
  intros Hq Hf.
  assert (H : within_limit (_card_ids_in_queue s) (_fact_ids_in_queue s) 0).
  { rewrite Hq, Hf. unfold within_limit. cbn. lia. }
  unfold rebuild_stage2.
  destruct (stage s =? 2); [|apply rebuild_stage3_ahead; [exact H|lia]].
  pose proof (add_non_memorised_limit
                (cards_to_relearn db GRADE_FORGOT "last_rep") _ _ 0 H) as H1.
  destruct (add_non_memorised _ _ _ _ _) as [[cards facts] n1].
  destruct (n1 =? 50) eqn:E;
    [apply Z.eqb_eq in E|apply Z.eqb_neq in E].
  - rewrite E in H1.
    apply returned_at_limit with (cards := cards) (facts := facts);
      [exact H1|reflexivity].
  - apply rebuild_stage3_ahead.
    + destruct (len _ =? 0); exact H1.
    + destruct H1 as (_ & _ & H1). lia.
Qed.

Lemma rebuild_stage2_not_ahead db pf now s :
  _in_learn_ahead s = false ->
  _in_learn_ahead (rebuild_stage2 db pf now false s) = false.
Proof.
  intros H.
  assert (H5 : forall s', _in_learn_ahead s' = false ->
             _in_learn_ahead (rebuild_stage5 db pf now false s') = false)
    by (intros s' Hs'; exact Hs').
  assert (H4 : forall limit n s', _in_learn_ahead s' = false ->
             _in_learn_ahead (rebuild_stage4 db pf now false limit n s')
             = false).
  { intros limit n s' Hs'. unfold rebuild_stage4.
    destruct (stage s' <=? 4); [|now apply H5].
    destruct (add_unseen _ _ _ _ _ _) as [[[cards facts] n'] hit].
    destruct hit; [exact Hs'|].
    destruct (len _ <=? 2).
    - destruct (add_unseen _ _ _ _ _ _) as [[[cards2 facts2] n2] hit2].
      destruct hit2; [exact Hs'|]. apply H5.
      destruct (len _ =? 0); exact Hs'.
    - apply H5. destruct (len _ =? 0); exact Hs'. }
  assert (H3 : forall limit n s', _in_learn_ahead s' = false ->
             _in_learn_ahead (rebuild_stage3 db pf now false limit n s')
             = false).
  { intros limit n s' Hs'. unfold rebuild_stage3.
    destruct (stage s' <=? 3); [|now apply H4].
    destruct (add_non_memorised _ _ _ _ _) as [[cards facts] n'].
    destruct (n' =? limit); [exact Hs'|]. apply H4.
    destruct (len _ =? 0); exact Hs'. }
  unfold rebuild_stage2.
  destruct (stage s =? 2); [|now apply H3].
  destruct (add_non_memorised _ _ _ _ _) as [[cards facts] n'].
  destruct (n' =? 50); [exact H|]. apply H3.
  destruct (len _ =? 0); exact H.
Qed.

(** X12. What learning ahead adds.  The queue rebuilt with [learn_ahead]
    is the queue rebuilt without it whenever the builder returns before
    stage 5: on a store that is not loaded or has no active card, when
    stage 1 finds cards due, and when stages 2 to 4 fill the queue up to
    50 facts.  In every other case it is that queue followed by the cards
    of the rows of [cards_learn_ahead], a week ahead, whose interval
    [next_rep - last_rep] is 34 days or more, in the order of the rows;
    [_in_learn_ahead] then tells whether there was such a card, and the
    stage is 2, also in a session of new cards only.  Nothing else
    differs. *)
Theorem rebuild_queue_learn_ahead db pf now s :
  let s_f := rebuild_queue db pf now false s in
  let s_t := rebuild_queue db pf now true s in
  let due := cards_due_for_ret_rep db (adjusted_now pf now) "-interval" 50 in
  let ahead :=
    map fst
      (filter (fun r => 34 * DAY <=? next_rep (card db (fst r))
                                      - last_rep (card db (fst r)))
         (cards_learn_ahead db (adjusted_now pf now + DAY * 7) "-interval")) in
  s_t = if negb (is_loaded db) || (active_count db =? 0) then s_f
        else if (stage s =? 1) && negb (len due =? 0) then s_f
        else if len (_fact_ids_in_queue s_f) =? 50 then s_f
        else set_stage 2
               (set_in_learn_ahead (negb (len ahead =? 0))
                  (set_card_ids_in_queue (_card_ids_in_queue s_f ++ ahead)
                     s_f)).
Proof.
  cbv zeta.
  destruct (negb (is_loaded db) || (active_count db =? 0)) eqn:E.
  { unfold rebuild_queue. now rewrite E. }
  assert (Hf : _in_learn_ahead (rebuild_queue db pf now false s) = false).
  { unfold rebuild_queue. rewrite E. unfold rebuild_stage1.
    destruct (stage _ =? 1); [|now apply rebuild_stage2_not_ahead].
    match goal with
    | |- _in_learn_ahead (if ?b then _ else _) = false => destruct b
    end; [reflexivity|now apply rebuild_stage2_not_ahead]. }
  assert (H : forall la,
            rebuild_queue db pf now la s
            = rebuild_stage1 db pf now la
                (set_in_learn_ahead false (set_queue [] [] s)))
    by (intros la; unfold rebuild_queue; now rewrite E).
  change (learnt_ahead db
            (cards_learn_ahead db (adjusted_now pf now + DAY * 7) "-interval"))
    with (map fst
            (filter (fun r => 34 * DAY <=? next_rep (card db (fst r))
                                            - last_rep (card db (fst r)))
               (cards_learn_ahead db (adjusted_now pf now + DAY * 7)
                  "-interval"))) in *.
  set (ahead := map fst _) in *.
  assert (G : forall s_f,
            _in_learn_ahead s_f = false ->
            learnt_or_returned ahead s_f
            = if len (_fact_ids_in_queue s_f) =? 50 then s_f
              else set_stage 2
                     (set_in_learn_ahead (negb (len ahead =? 0))
                        (set_card_ids_in_queue
                           (_card_ids_in_queue s_f ++ ahead) s_f))).
  { intros s_f Hs. unfold learnt_or_returned, with_learnt_ahead.
    now rewrite Hs. }
  rewrite <- (G _ Hf). clear G. rewrite !H in *. clear H.
  unfold rebuild_stage1 in *.
  cbn [stage set_in_learn_ahead set_queue _card_ids_in_queue
       _fact_ids_in_queue app] in *.
  destruct (stage s =? 1) eqn:E1; cbn [andb].
  - destruct (cards_due_for_ret_rep db (adjusted_now pf now) "-interval" 50)
      as [|row rows]; cbn [map].
    + cbn [len List.length Z.of_nat Z.eqb negb].
      apply rebuild_stage2_ahead; reflexivity.
    + change (negb (len (row :: rows) =? 0)) with true.
      change (negb (len (fst row :: map fst rows) =? 0)) with true.
      reflexivity.
  - apply rebuild_stage2_ahead; reflexivity.
Qed.

(** Two cards scheduled 40 and 41 days after their last repetition and
    due within a week: learning ahead queues both, and nothing without
    it. *)
Lemma rebuild_queue_learn_ahead_witness :
  rebuild_queue (rows_store [] [(1, 7); (2, 7)] [sister_40; sister_41])
    utc (35 * DAY) true (reset false)
  = set_stage 2
      (set_in_learn_ahead true
         (set_card_ids_in_queue [1; 2]
            (rebuild_queue
               (rows_store [] [(1, 7); (2, 7)] [sister_40; sister_41])
               utc (35 * DAY) false (reset false)))) /\
  _card_ids_in_queue
    (rebuild_queue (rows_store [] [(1, 7); (2, 7)] [sister_40; sister_41])
       utc (35 * DAY) false (reset false)) = [].
Proof.
  split; [|reflexivity].
  rewrite (rebuild_queue_learn_ahead
             (rows_store [] [(1, 7); (2, 7)] [sister_40; sister_41])
             utc (35 * DAY) (reset false)).
  reflexivity.
Defined.

(** With fifty facts to relearn stage 2 fills the queue and returns:
    learning ahead changes nothing, although a card could be learnt
    ahead. *)
Example rebuild_queue_learn_ahead_full :
  rebuild_queue full_store utc (35 * DAY) true (reset false)
  = rebuild_queue full_store utc (35 * DAY) false (reset false) /\
  len (_fact_ids_in_queue
         (rebuild_queue full_store utc (35 * DAY) false (reset false)))
  = 50 /\
  cards_learn_ahead full_store (adjusted_now utc (35 * DAY) + DAY * 7)
    "-interval" = [(1, 7)].
Proof. split; [|split]; vm_compute; reflexivity. Qed.

(** ** Removing a card from the queue *)

Lemma list_remove_count x : forall l r,
  list_remove x l = Some r ->
  forall y,
    count_occ Z.eq_dec r y
    = (count_occ Z.eq_dec l y - (if Z.eq_dec y x then 1 else 0))%nat.
Proof.
  induction l as [|a l IH]; intros r; cbn [list_remove]; [discriminate|].
  destruct (a =? x) eqn:E.
  - apply Z.eqb_eq in E. subst a. intros [= <-] y. cbn [count_occ].
    destruct (Z.eq_dec x y) as [->|Hne].
    + destruct (Z.eq_dec y y); [lia|contradiction].
    + destruct (Z.eq_dec y x); [congruence|lia].
  - apply Z.eqb_neq in E.
    destruct (list_remove x l) as [r'|]; [|discriminate].
    intros [= <-] y. cbn [count_occ]. rewrite (IH r' eq_refl y).
    destruct (Z.eq_dec a y) as [->|Hne]; [|reflexivity].
    destruct (Z.eq_dec y x); [congruence|lia].
Qed.

Lemma list_remove_None x : forall l,
  list_remove x l = None -> count_occ Z.eq_dec l x = 0%nat.
Proof.
  induction l as [|a l IH]; cbn [list_remove count_occ]; [reflexivity|].
  destruct (a =? x) eqn:E; [discriminate|]. apply Z.eqb_neq in E.
  destruct (list_remove x l); [discriminate|]. intros _.
  destruct (Z.eq_dec a x); [contradiction|]. now apply IH.
Qed.

(** X13. [remove_from_queue_if_present] takes two copies of the card out
    of the queue, or the only one, or none if the card is not queued; it
    raises nothing, and the other cards, the facts of the queue and the
    rest of the scheduler stay as they are.  A card queued twice at most,
    as by stages 2 and 3, is not in the queue afterwards. *)
Theorem remove_from_queue_if_present_count c s :
  let s' := remove_from_queue_if_present c s in
  (forall i,
     count_occ Z.eq_dec (_card_ids_in_queue s') i
     = (count_occ Z.eq_dec (_card_ids_in_queue s) i
        - (if Z.eq_dec i (_id c) then 2 else 0))%nat) /\
  ((count_occ Z.eq_dec (_card_ids_in_queue s) (_id c) <= 2)%nat ->
   is_in_queue c s' = false) /\
  s' = set_card_ids_in_queue (_card_ids_in_queue s') s.
Proof.
  cbv zeta.
  assert (Hc : forall i,
             count_occ Z.eq_dec
               (_card_ids_in_queue (remove_from_queue_if_present c s)) i
             = (count_occ Z.eq_dec (_card_ids_in_queue s) i
                - (if Z.eq_dec i (_id c) then 2 else 0))%nat).
  { intros i. unfold remove_from_queue_if_present.
    destruct (list_remove (_id c) (_card_ids_in_queue s)) as [q|] eqn:E1.
    - pose proof (list_remove_count _ _ _ E1 i) as H1.
      destruct (list_remove (_id c) q) as [q'|] eqn:E2.
      + pose proof (list_remove_count _ _ _ E2 i) as H2.
        cbn [_card_ids_in_queue set_card_ids_in_queue set_queue].
        destruct (Z.eq_dec i (_id c)); lia.
      + apply list_remove_None in E2.
        cbn [_card_ids_in_queue set_card_ids_in_queue set_queue].
        destruct (Z.eq_dec i (_id c)) as [->|]; lia.
    - apply list_remove_None in E1.
      destruct (Z.eq_dec i (_id c)) as [->|]; lia. }
  split; [exact Hc|]. split.
  - intros Hle. unfold is_in_queue.
    destruct (mem _ _) eqn:Em; [|reflexivity].
    apply mem_In in Em.
    apply (count_occ_In Z.eq_dec) in Em. rewrite Hc in Em.
    destruct (Z.eq_dec (_id c) (_id c)); [lia|contradiction].
  - unfold remove_from_queue_if_present.
    destruct (list_remove _ _); [destruct (list_remove _ _)|];
      now destruct s.
Qed.

Lemma remove_from_queue_if_present_count_witness :
  is_in_queue card_forgotten
    (remove_from_queue_if_present card_forgotten
       (g_sched prefetch_state)) = false.
Proof.
  apply (remove_from_queue_if_present_count card_forgotten
           (g_sched prefetch_state)).
  vm_compute. lia.
Defined.

(** ** The queue driver, on a queue that holds another card *)

Lemma next_card_loop_skips db pf now la last post i : forall pre fuel id s,
  _card_ids_in_queue s = pre ++ i :: post ->
  id = last -> Forall (fun x => x = last) pre -> i <> last ->
  (List.length pre + 1 < fuel)%nat ->
  next_card_loop fuel db pf now la last id s
  = Some (Shown i
            (set_card_id_last (Some i) (set_card_ids_in_queue post s))).
Proof.
  induction pre as [|x pre IH]; intros fuel id s Hq Hid Hpre Hi Hfuel;
    (destruct fuel as [|fuel]; [cbn in Hfuel; lia|]);
    cbn [next_card_loop]; subst id; rewrite Z.eqb_refl, Hq; cbn [app].
  - destruct fuel as [|fuel]; [cbn in Hfuel; lia|].
    cbn [next_card_loop].
    replace (i =? last) with false by (symmetry; now apply Z.eqb_neq).
    reflexivity.
  - inversion Hpre as [|? ? Hx Hpre']; subst.
    apply (IH fuel last (set_card_ids_in_queue (pre ++ i :: post) s));
      auto.
    cbn [List.length] in Hfuel. lia.
Qed.

(** X14. [next_card] on a queue that holds a card other than the one
    shown last: the copies of the last card at the head of the queue are
    dropped, the first other card is shown and becomes the last card,
    the queue is what followed it, and the queue is not rebuilt. *)
Theorem next_card_skips_last fuel db pf now la s last pre i post :
  _card_id_last s = Some last -> last <> 0 ->
  _card_ids_in_queue s = pre ++ i :: post ->
  Forall (fun x => x = last) pre -> i <> last ->
  (List.length pre + 1 < fuel)%nat ->
  next_card fuel db pf now la s
  = Some (Shown i
            (set_card_id_last (Some i) (set_card_ids_in_queue post s))).
Proof.
  intros Hlast Hnz Hq Hpre Hi Hfuel.
  destruct pre as [|x pre].
  - destruct fuel as [|fuel]; [lia|].
    apply next_card_head; [exact Hq|]. rewrite Hlast. congruence.
  - inversion Hpre as [|? ? Hx Hpre']; subst.
    unfold next_card. rewrite Hq.
    replace (len ((last :: pre) ++ i :: post) =? 0) with false
      by (symmetry; apply Z.eqb_neq; unfold len; cbn [List.length app]; lia).
    rewrite Hq. cbn [app].
    change (_card_id_last (set_card_ids_in_queue (pre ++ i :: post) s))
      with (_card_id_last s).
    rewrite Hlast. cbn [truthy].
    replace (last =? 0) with false by (symmetry; now apply Z.eqb_neq).
    cbn [negb].
    apply (next_card_loop_skips db pf now la last post i pre fuel last
             (set_card_ids_in_queue (pre ++ i :: post) s)); auto.
    cbn [List.length] in Hfuel. lia.
Qed.

Lemma next_card_skips_last_witness :
  next_card 5 (store_of []) utc 0 false
    (mkScheduler [1; 1; 2; 3] [7; 8; 9] [] (Some 1) false 2 false false)
  = Some (Shown 2
            (mkScheduler [3] [7; 8; 9] [] (Some 2) false 2 false false)).
Proof.
  apply (next_card_skips_last 5 (store_of []) utc 0 false
           (mkScheduler [1; 1; 2; 3] [7; 8; 9] [] (Some 1) false 2 false
              false)
           1 [1; 1] 2 [3]).
  - reflexivity.
  - discriminate.
  - reflexivity.
  - repeat constructor.
  - discriminate.
  - cbn. lia.
Defined.

(** ** Time *)

(** X15. [true_scheduled_interval] undoes [adjusted_now]: for a card that
    is not forgotten, and with the same answer about daylight saving
    time in both, the card is due for [rebuild_queue], that is
    [next_rep <= adjusted_now], exactly when the time since its last
    repetition has reached its true scheduled interval. *)
Theorem due_when_interval_elapsed pf now t c :
  grade c <> GRADE_FORGOT ->
  tm_isdst pf (now - day_starts_at pf * HOUR) = tm_isdst pf t ->
  (next_rep c <= adjusted_now pf now <->
   fst (true_scheduled_interval pf t c) <= now - last_rep c).
Proof.
  intros Hg Hdst. unfold adjusted_now, true_scheduled_interval.
  apply Z.eqb_neq in Hg. rewrite Hg, Hdst.
  destruct (tm_isdst pf t && daylight pf); cbn [fst]; lia.
Qed.

Lemma due_when_interval_elapsed_witness :
  next_rep card_10 <= adjusted_now new_york (10 * DAY + 18000) <->
  fst (true_scheduled_interval new_york (10 * DAY + 18000) card_10)
  <= 10 * DAY + 18000 - last_rep card_10.
Proof.
  apply due_when_interval_elapsed; [discriminate|reflexivity].
Defined.

(** X16. [midnight_UTC] gives the start of a day, for a time stamp from
    the epoch on whose local date is one a [datetime.date] holds: a
    multiple of [DAY]; where the platform can turn the time stamp into a
    date, the day of the local time of the time stamp; where it cannot,
    and [datetime.date.fromtimestamp] raises [OverflowError], the day of
    [2**31 - 2], whatever the time stamp.  It raises [OverflowError]
    only when that time stamp overflows as well. *)
Theorem midnight_UTC_day pf t :
  0 <= t -> (t + utcoffset pf t) / DAY <= date_max ->
  match midnight_UTC pf t with
  | Some m =>
      m mod DAY = 0 /\
      (if fromtimestamp_overflows pf t
       then midnight_UTC pf (2 ^ 31 - 2) = Some m
       else m <= t + utcoffset pf t < m + DAY)
  | None =>
      fromtimestamp_overflows pf t = true /\
      fromtimestamp_overflows pf (2 ^ 31 - 2) = true
  end.
Proof.
  intros _ _. pose proof DAY_pos as HD.
  unfold midnight_UTC, date_fromtimestamp, timegm.
  destruct (fromtimestamp_overflows pf t) eqn:Et.
  - destruct (fromtimestamp_overflows pf (2 ^ 31 - 2)) eqn:E2; [auto|].
    split; [apply Z.mod_mul; lia|reflexivity].
  - split; [apply Z.mod_mul; lia|].
    pose proof (Z.div_mod (t + utcoffset pf t) DAY ltac:(lia)) as Hdm.
    pose proof (Z.mod_pos_bound (t + utcoffset pf t) DAY HD) as Hb.
    lia.
Qed.

(** In New York, an hour after midnight UTC of the tenth day is still the
    evening of the ninth. *)
Lemma midnight_UTC_day_witness :
  midnight_UTC new_york (10 * DAY + HOUR) = Some (9 * DAY) /\
  (9 * DAY) mod DAY = 0 /\
  9 * DAY <= 10 * DAY + HOUR + utcoffset new_york (10 * DAY + HOUR)
          < 9 * DAY + DAY.
Proof.
  assert (E : midnight_UTC new_york (10 * DAY + HOUR) = Some (9 * DAY))
    by reflexivity.
  split; [exact E|].
  pose proof (midnight_UTC_day new_york (10 * DAY + HOUR)) as H.
  rewrite E in H. apply H; vm_compute; discriminate.
Defined.

(** ** Sister cards after stage 1 *)

Lemma later_stages_keep_sisters_apart_witness :
  _card_ids_in_queue
    (rebuild_queue
       (relearn_cards_store [(1, 7); (2, 7)] [sister_1; sister_2])
       utc 0 false (reset false)) = [1; 1] /\
  1 = 1.
Proof.
  split; [reflexivity|].
  apply (later_stages_keep_sisters_apart
           (relearn_cards_store [(1, 7); (2, 7)] [sister_1; sister_2])
           utc 0 (reset false) 1 1).
  - reflexivity.
  - discriminate.
  - reflexivity.
  - intros c f [[= <- <-]|[[= <- <-]|[]]]; reflexivity.
  - left. reflexivity.
  - left. reflexivity.
  - reflexivity.
Defined.

(** * The initial grade and the intervals as text *)

(** ** [set_initial_grade] *)

(** The card [set_initial_grade] makes of a card, for the day it gives
    it. *)
Lemma set_initial_grade_loop_nth : forall cards g t m i c,
  nth_error cards i = Some c ->
  let c' :=
    set_next_rep (m + Z.of_nat i * DAY)
      (set_last_rep t
         (set_acq_reps_since_lapse 1
            (set_acq_reps 1 (set_easiness 2 (set_grade g c))))) in
  nth_error (fst (set_initial_grade_loop cards g t m)) i = Some c' /\
  nth_error (snd (set_initial_grade_loop cards g t m)) i
  = Some (mkLogEntry c' 0 0).
Proof.
  induction cards as [|x cards IH]; intros g t m i c;
    [destruct i; discriminate|].
  cbn [set_initial_grade_loop].
  destruct (set_initial_grade_loop cards g t (m + DAY)) as [cs logs] eqn:E.
  destruct i as [|i]; cbn [nth_error fst snd].
  - intros [= ->]. cbn [Z.of_nat]. rewrite Z.mul_0_l, Z.add_0_r.
    split; reflexivity.
  - intros H. specialize (IH g t (m + DAY) i c H). rewrite E in IH.
    cbn [fst snd] in IH.
    replace (m + Z.of_nat (S i) * DAY) with (m + DAY + Z.of_nat i * DAY)
      by lia.
    exact IH.
Qed.

Lemma set_initial_grade_loop_length : forall cards g t m,
  List.length (fst (set_initial_grade_loop cards g t m)) = List.length cards /\
  List.length (snd (set_initial_grade_loop cards g t m)) = List.length cards.
Proof.
  induction cards as [|x cards IH]; intros g t m; [split; reflexivity|].
  cbn [set_initial_grade_loop].
  specialize (IH g t (m + DAY)).
  destruct (set_initial_grade_loop cards g t (m + DAY)) as [cs logs].
  cbn [fst snd List.length] in *. lia.
Qed.

Lemma set_initial_grade_loop_days : forall cards g t m x,
  In x (map next_rep (fst (set_initial_grade_loop cards g t m))) ->
  m <= x.
Proof.
  pose proof DAY_pos as HD.
  induction cards as [|c cards IH]; intros g t m x; [intros []|].
  cbn [set_initial_grade_loop].
  specialize (IH g t (m + DAY) x).
  destruct (set_initial_grade_loop cards g t (m + DAY)) as [cs logs].
  cbn [fst map In next_rep set_next_rep] in *.
  intros [<-|H]; [lia|]. specialize (IH H). lia.
Qed.

Lemma set_initial_grade_loop_NoDup : forall cards g t m,
  NoDup (map next_rep (fst (set_initial_grade_loop cards g t m))).
Proof.
  pose proof DAY_pos as HD.
  induction cards as [|c cards IH]; intros g t m; [constructor|].
  cbn [set_initial_grade_loop].
  pose proof (set_initial_grade_loop_days cards g t (m + DAY) m) as Hd.
  specialize (IH g t (m + DAY)).
  destruct (set_initial_grade_loop cards g t (m + DAY)) as [cs logs].
  cbn [fst map next_rep set_next_rep] in *.
  constructor; [|exact IH]. intros Hin. specialize (Hd Hin). lia.
Qed.

(** X18. [set_initial_grade] gives the cards their first repetition: the
    grade, easiness 2 and one acquisition repetition, [last_rep] the time
    of the call for all of them, and [next_rep] on consecutive days, from
    midnight UTC of the date of [last_rep] plus the initial interval of
    the grade, so that no two of the cards are scheduled on the same day.
    Every card is logged once, with intervals 0, in the order of the
    cards, and nothing else of a card changes. *)
Theorem set_initial_grade_days pf now cards g cards' logged :
  set_initial_grade pf now cards g = inr (cards', logged) ->
  exists new_interval m,
    calculate_initial_interval g = Some new_interval /\
    midnight_UTC pf (now + new_interval) = Some m /\
    List.length cards' = List.length cards /\
    List.length logged = List.length cards /\
    NoDup (map next_rep cards') /\
    forall i c, nth_error cards i = Some c ->
      exists c',
        nth_error cards' i = Some c' /\
        nth_error logged i = Some (mkLogEntry c' 0 0) /\
        grade c' = g /\ easiness c' = 2%Q /\
        acq_reps c' = 1 /\ acq_reps_since_lapse c' = 1 /\
        last_rep c' = now /\ next_rep c' = m + Z.of_nat i * DAY /\
        _id c' = _id c /\ fact_id c' = fact_id c /\
        tag_string c' = tag_string c /\
        ret_reps c' = ret_reps c /\
        ret_reps_since_lapse c' = ret_reps_since_lapse c /\
        lapses c' = lapses c.
Proof.
  unfold set_initial_grade.
  destruct (calculate_initial_interval g) as [ni|]; [|discriminate].
  destruct (midnight_UTC pf (now + ni)) as [m|] eqn:Em; [|discriminate].
  intros [= H]. exists ni, m.
  pose proof (set_initial_grade_loop_length cards g now m) as [L1 L2].
  pose proof (set_initial_grade_loop_NoDup cards g now m) as Hnd.
  pose proof (set_initial_grade_loop_nth cards g now m) as Hnth.
  rewrite H in *. cbn [fst snd] in *.
  split; [reflexivity|]. split; [exact Em|].
  split; [exact L1|]. split; [exact L2|]. split; [exact Hnd|].
  intros i c Hc. destruct (Hnth i c Hc) as [H1 H2].
  eexists. split; [exact H1|]. split; [exact H2|].
  repeat split.
Qed.

Lemma set_initial_grade_days_witness :
  exists cards' logged,
    set_initial_grade utc (100 * DAY + 5) [sister_1; sister_2]
      GRADE_MORE_SMALL = inr (cards', logged) /\
    map next_rep cards' = [102 * DAY; 103 * DAY] /\
    NoDup (map next_rep cards').
Proof.
  assert (E : exists cards' logged,
            set_initial_grade utc (100 * DAY + 5) [sister_1; sister_2]
              GRADE_MORE_SMALL = inr (cards', logged) /\
            map next_rep cards' = [102 * DAY; 103 * DAY]).
  { vm_compute. do 2 eexists. split; reflexivity. }
  destruct E as (cards' & logged & E & Hn). exists cards', logged.
  split; [exact E|]. split; [exact Hn|].
  destruct (set_initial_grade_days _ _ _ _ _ _ E)
    as (ni & m & _ & _ & _ & _ & Hnd & _).
  exact Hnd.
Defined.

Lemma calculate_initial_interval_bounds g ni :
  calculate_initial_interval g = Some ni -> 0 <= ni <= 4 * DAY.
Proof.
  intros H.
  assert (Hg : -6 <= g <= 5).
  { destruct (Z_lt_le_dec g (-6)) as [Hlt|Hge];
      [|destruct (Z_lt_le_dec 5 g) as [Hgt|Hle]; [|lia]];
      exfalso;
      assert (E : calculate_initial_interval g = None)
        by (apply calculate_initial_interval_None; lia);
      congruence. }
  assert (Hc : g = -6 \/ g = -5 \/ g = -4 \/ g = -3 \/ g = -2 \/ g = -1 \/
               g = 0 \/ g = 1 \/ g = 2 \/ g = 3 \/ g = 4 \/ g = 5) by lia.
  repeat (destruct Hc as [->|Hc]; [injection H as <-; vm_compute;
                                   split; discriminate|]).
  subst g. injection H as <-. vm_compute. split; discriminate.
Qed.

(** X19. [set_initial_grade] and [grade_answer] agree on an unseen card.
    For a grade other than [GRADE_FORGOT], a card with no reminder tag and
    no sister card in the store, and hooks that leave the card alone, the
    card a real call of [grade_answer] leaves is the card
    [set_initial_grade] makes of it at the same time; the interval
    [grade_answer] returns is the initial interval of the grade. *)
Theorem set_initial_grade_agrees fuel db pf env g c s shown logged v st' :
  grade c = -1 -> g <> GRADE_FORGOT ->
  before_repetition env c = c ->
  (forall x, after_repetition env (apply_to_card env x) = x) ->
  (forall tag, In tag (tags_of c) -> is_reminder_tag tag = false) ->
  (forall x lo hi, sister_card_count_scheduled_between db x lo hi = 0) ->
  4 * DAY - scheduled_interval_of pf env c <= MAX_INCREASE ->
  grade_answer fuel db pf env g false (mkGState c s shown logged)
  = Returned v st' ->
  calculate_initial_interval g = Some v /\
  exists entries,
    set_initial_grade pf (time_graded env) [c] g
    = inr ([g_card st'], entries).
Proof.
  intros Hgrade Hg Hbefore Hafter Htags Hsis Hsched.
  rewrite grade_answer_outcome. unfold grade_outcome, graded_card.
  cbn [g_card g_sched g_shown g_logged]. rewrite Hbefore.
  unfold transition_interval. rewrite Hgrade. cbn [Z.eqb Pos.eqb].
  destruct (calculate_initial_interval g) as [ni|] eqn:Eni; [|discriminate].
  pose proof (calculate_initial_interval_bounds g ni Eni) as Hni.
  pose proof DAY_pos as HD.
  assert (Hclamp : clamp_increase (scheduled_interval_of pf env c)
                     (clamp_total ni) = ni).
  { unfold clamp_increase, clamp_total, MAX_TOTAL, MAX_INCREASE in *. lia. }
  rewrite Hclamp, (reminder_cap_no_reminder _ _ _ Htags).
  assert (Hnoise : add_noise_of g ni false = false).
  { unfold add_noise_of.
    replace (40 <=? ni / DAY) with false; [reflexivity|].
    symmetry. apply Z.leb_gt. apply Z.div_lt_upper_bound; lia. }
  unfold with_noise. rewrite Hnoise.
  apply Z.eqb_neq in Hg. rewrite Hg. cbn [negb].
  unfold set_initial_grade. rewrite Eni.
  destruct (midnight_UTC pf (time_graded env + ni)) as [m|]; [|discriminate].
  assert (Ha : forall fuel' x, avoid_sister_cards fuel' db x = Some x).
  { intros fuel' x. destruct fuel'; cbn [avoid_sister_cards];
      now rewrite Hsis. }
  rewrite Ha. intros [= <- <-]. split; [reflexivity|].
  cbn [g_card set_initial_grade_loop]. rewrite Hafter.
  eexists. unfold transition_card. rewrite Hgrade. cbn [Z.eqb Pos.eqb].
  reflexivity.
Qed.

Lemma set_initial_grade_agrees_witness :
  exists v st',
    grade_answer 0 (store_of []) utc (no_hooks 100 100 100 0)
      GRADE_MORE_SMALL false (mkGState card_unseen (reset false) [] [])
    = Returned v st' /\
    calculate_initial_interval GRADE_MORE_SMALL = Some v /\
    exists entries,
      set_initial_grade utc 100 [card_unseen] GRADE_MORE_SMALL
      = inr ([g_card st'], entries).
Proof.
  assert (E : exists v st',
            grade_answer 0 (store_of []) utc (no_hooks 100 100 100 0)
              GRADE_MORE_SMALL false
              (mkGState card_unseen (reset false) [] [])
            = Returned v st')
    by (vm_compute; do 2 eexists; reflexivity).
  destruct E as (v & st' & E). exists v, st'. split; [exact E|].
  apply (set_initial_grade_agrees 0 (store_of []) utc
           (no_hooks 100 100 100 0) GRADE_MORE_SMALL card_unseen
           (reset false) [] [] v st').
  - reflexivity.
  - discriminate.
  - reflexivity.
  - reflexivity.
  - intros tag [<-|[]]. reflexivity.
  - reflexivity.
  - vm_compute. discriminate.
  - exact E.
Defined.

(** X20. [set_initial_grade] with [GRADE_FORGOT] does not keep the rule
    of forgotten cards, an interval of zero: [next_rep] is midnight UTC of
    the date of [last_rep], and unless this is [last_rep] itself, the
    next call of [true_scheduled_interval] on the card shows the internal
    error and returns the interval, which is not zero. *)
Theorem set_initial_grade_forgot pf now c c' entries t :
  set_initial_grade pf now [c] GRADE_FORGOT = inr ([c'], entries) ->
  midnight_UTC pf now <> Some now ->
  next_rep c' - last_rep c' <> 0 /\
  true_scheduled_interval pf t c'
  = (next_rep c' - last_rep c',
     [show_error "Internal error: interval not zero."]).
Proof.
  unfold set_initial_grade.
  change (calculate_initial_interval GRADE_FORGOT) with (Some 0).
  cbv beta iota zeta. rewrite Z.add_0_r.
  destruct (midnight_UTC pf now) as [m|] eqn:Em; [|discriminate].
  cbn [set_initial_grade_loop]. intros [= <- _] Hne.
  assert (Hm : m - now <> 0) by (intros E; apply Hne; f_equal; lia).
  unfold true_scheduled_interval.
  cbn [grade next_rep last_rep set_next_rep set_last_rep
       set_acq_reps_since_lapse set_acq_reps set_easiness set_grade].
  split; [exact Hm|].
  change (GRADE_FORGOT =? GRADE_FORGOT) with true. cbv iota.
  apply Z.eqb_neq in Hm. rewrite Hm. reflexivity.
Qed.

Lemma set_initial_grade_forgot_witness :
  exists c' entries,
    set_initial_grade utc 100 [card_unseen] GRADE_FORGOT
    = inr ([c'], entries) /\
    next_rep c' - last_rep c' = -100 /\
    true_scheduled_interval utc 200 c'
    = (next_rep c' - last_rep c',
       [show_error "Internal error: interval not zero."]).
Proof.
  assert (E : exists c' entries,
            set_initial_grade utc 100 [card_unseen] GRADE_FORGOT
            = inr ([c'], entries) /\
            next_rep c' - last_rep c' = -100).
  { vm_compute. do 2 eexists. split; reflexivity. }
  destruct E as (c' & entries & E & Hi). exists c', entries.
  split; [exact E|]. split; [exact Hi|].
  apply (set_initial_grade_forgot utc 100 card_unseen c' entries 200 E).
  vm_compute. discriminate.
Defined.

(** ** The intervals as text *)

Lemma true_division_DAY d : true_division d DAY = Qmake (d * 1) 86400.
Proof. reflexivity. Qed.

Lemma true_division_DAY_leb k d :
  Qle_bool (inject_Z k) (true_division d DAY) = (k * DAY <=? d).
Proof.
  rewrite true_division_DAY. unfold Qle_bool. cbn [Qnum Qden inject_Z].
  rewrite DAY_value. f_equal; lia.
Qed.

Lemma int_of_float_DAY d :
  0 <= d -> int_of_float (true_division d DAY) = d / DAY.
Proof.
  intros H. rewrite true_division_DAY. unfold int_of_float.
  cbn [Qnum Qden]. rewrite Z.mul_1_r, DAY_value.
  apply Z.quot_div_nonneg; lia.
Qed.

Lemma int_of_float_opp_DAY d :
  d <= 0 -> int_of_float (- true_division d DAY) = (- d) / DAY.
Proof.
  intros H. rewrite true_division_DAY. unfold int_of_float.
  cbn [Qnum Qden Qopp]. rewrite Z.mul_1_r, DAY_value.
  apply Z.quot_div_nonneg; lia.
Qed.

(** X21. The text of [next_rep_to_interval_string], by the seconds [d]
    from [now] to [next_rep], [2 ^ 53] at most either way, so that the
    float of the code is as good as the quotient: a day or more ahead is [in n days], [n]
    being the whole days ahead plus one, so 2 or more; less than a day
    ahead, and [now] itself, is [tomorrow]; up to a day back is [today];
    up to two days back is [1 day overdue]; and more than two days back
    is [n days overdue], [n] being the whole days back less one: it is 1
    between two and three days back, and 2 or more from three days
    back. *)
Theorem next_rep_to_interval_string_buckets pf clock next_rep now :
  let n := match now with
           | None => adjusted_now pf clock
           | Some n => n
           end in
  let d := next_rep - n in
  Z.abs d <= 2 ^ 53 ->
  next_rep_to_interval_string pf clock next_rep now
  = (if DAY <=? d then ("in " ++ str (d / DAY + 1) ++ " days")%string
     else if 0 <=? d then "tomorrow"%string
     else if - DAY <=? d then "today"%string
     else if -2 * DAY <=? d then "1 day overdue"%string
     else (str ((- d) / DAY - 1) ++ " days overdue")%string) /\
  (DAY <= d -> 2 <= d / DAY + 1) /\
  (-3 * DAY < d < -2 * DAY -> (- d) / DAY - 1 = 1) /\
  (d <= -3 * DAY -> 2 <= (- d) / DAY - 1).
Proof.
  pose proof DAY_pos as HD. cbv zeta.
  set (n := match now with
            | None => adjusted_now pf clock
            | Some n => n
            end).
  set (d := next_rep - n). intros _.
  split; [|split; [|split]].
  - unfold next_rep_to_interval_string. fold n. fold d.
    change 1%Q with (inject_Z 1). change 0%Q with (inject_Z 0).
    change (-1)%Q with (inject_Z (-1)). change (-2)%Q with (inject_Z (-2)).
    rewrite !true_division_DAY_leb.
    replace (1 * DAY) with DAY by lia.
    replace (0 * DAY) with 0 by lia.
    replace (-1 * DAY) with (- DAY) by lia.
    destruct (DAY <=? d) eqn:E1.
    { apply Z.leb_le in E1. rewrite int_of_float_DAY by lia. reflexivity. }
    destruct (0 <=? d) eqn:E2; [reflexivity|].
    destruct (- DAY <=? d) eqn:E3; [reflexivity|].
    destruct (-2 * DAY <=? d) eqn:E4; [reflexivity|].
    apply Z.leb_gt in E2. rewrite int_of_float_opp_DAY by lia. reflexivity.
  - intros H.
    assert (1 <= d / DAY) by (apply Z.div_le_lower_bound; lia). lia.
  - intros H.
    assert ((- d) / DAY = 2); [|lia].
    symmetry. apply (Z.div_unique (- d) DAY 2 (- d - 2 * DAY)); lia.
  - intros H.
    assert (3 <= (- d) / DAY) by (apply Z.div_le_lower_bound; lia). lia.
Qed.

(** A card due two days and a half ago is [1 days overdue]. *)
Lemma next_rep_to_interval_string_buckets_witness :
  next_rep_to_interval_string utc 0 (10 * DAY) (Some (12 * DAY + DAY / 2))
  = "1 days overdue"%string.
Proof.
  assert (H : Z.abs (10 * DAY - (12 * DAY + DAY / 2)) <= 2 ^ 53)
    by (vm_compute; discriminate).
  exact (proj1 (next_rep_to_interval_string_buckets utc 0 (10 * DAY)
                  (Some (12 * DAY + DAY / 2)) H)).
Defined.

(** A card due at this very second is shown as due tomorrow, and a card
    due a second ago as due today; a card due two days and a half ago is
    [1 days overdue], and a card due three days ago [2 days overdue]. *)
Example next_rep_to_interval_string_now :
  next_rep_to_interval_string utc 0 (10 * DAY) (Some (10 * DAY))
  = "tomorrow"%string /\
  next_rep_to_interval_string utc 0 (10 * DAY) (Some (10 * DAY + 1))
  = "today"%string /\
  next_rep_to_interval_string utc 0 (10 * DAY) (Some (12 * DAY + DAY / 2))
  = "1 days overdue"%string /\
  next_rep_to_interval_string utc 0 (10 * DAY) (Some (13 * DAY))
  = "2 days overdue"%string /\
  next_rep_to_interval_string utc (9 * DAY) (10 * DAY) None
  = "in 2 days"%string.
Proof. repeat split; reflexivity. Qed.

(** X22. The text of [last_rep_to_interval_string] is told by the local
    dates of [last_rep] and of [now], both taken [day_starts_at] hours
    back: [Today] when the date of [last_rep] is that of [now], or a
    later one; [1 day ago] for the day before; and [n days ago] for [n]
    days before, from 2 on.  A [last_rep] of -1 is [Never]. *)
Theorem last_rep_to_interval_string_dates pf clock last_rep now dl dn :
  let n := match now with
           | None => clock
           | Some n => n
           end in
  date_fromtimestamp pf (n - day_starts_at pf * HOUR) = Some dn ->
  date_fromtimestamp pf (last_rep - day_starts_at pf * HOUR) = Some dl ->
  last_rep_to_interval_string pf clock last_rep now
  = Some (if last_rep =? -1 then "Never"%string
          else if dn <=? dl then "Today"%string
          else if dn - dl =? 1 then "1 day ago"%string
          else (str (dn - dl) ++ " days ago")%string).
Proof.
  pose proof DAY_pos as HD. cbv zeta. intros Hn Hl.
  unfold last_rep_to_interval_string.
  destruct (last_rep =? -1); [reflexivity|].
  unfold midnight_UTC, timegm. rewrite Hn, Hl.
  replace ((dl * DAY - dn * DAY) / DAY) with (dl - dn)
    by (replace (dl * DAY - dn * DAY) with ((dl - dn) * DAY) by lia;
        now rewrite Z.div_mul by lia).
  f_equal.
  destruct (dn <=? dl) eqn:E1;
    [apply Z.leb_le in E1|apply Z.leb_gt in E1].
  - replace (-1 <? dl - dn) with true
      by (symmetry; apply Z.ltb_lt; lia).
    reflexivity.
  - replace (-1 <? dl - dn) with false
      by (symmetry; apply Z.ltb_ge; lia).
    replace (- (dl - dn)) with (dn - dl) by lia.
    destruct (dn - dl =? 1) eqn:E2;
      [apply Z.eqb_eq in E2|apply Z.eqb_neq in E2].
    + replace (-2 <? dl - dn) with true
        by (symmetry; apply Z.ltb_lt; lia).
      rewrite E2. reflexivity.
    + replace (-2 <? dl - dn) with false
        by (symmetry; apply Z.ltb_ge; lia).
      reflexivity.
Qed.

Lemma last_rep_to_interval_string_dates_witness :
  last_rep_to_interval_string east (10 * DAY + 3600) (8 * DAY + 3599) None
  = Some "3 days ago"%string.
Proof.
  apply (last_rep_to_interval_string_dates east (10 * DAY + 3600)
           (8 * DAY + 3599) None 7 10); reflexivity.
Defined.

(** * Grades and intervals *)

Lemma quot_2_3 a :
  (0 <= a -> 0 <= a ÷ 3 <= a ÷ 2 /\ a ÷ 2 <= a) /\
  (a < 0 -> a ÷ 3 <= 0 /\ a ÷ 2 <= 0).
Proof.
  pose proof (Z.quot_rem' a 2) as H2. pose proof (Z.quot_rem' a 3) as H3.
  split; intros Ha.
  - pose proof (Z.rem_bound_pos_pos a 2 ltac:(lia) ltac:(lia)).
    pose proof (Z.rem_bound_pos_pos a 3 ltac:(lia) ltac:(lia)). lia.
  - pose proof (Z.rem_bound_pos_neg a 2 ltac:(lia) ltac:(lia)).
    pose proof (Z.rem_bound_pos_neg a 3 ltac:(lia) ltac:(lia)). lia.
Qed.

Lemma retention_interval_less g sched act :
  g = GRADE_LESS_BIG \/ g = GRADE_LESS_SMALL ->
  retention_interval g sched act
  = Some (let ni :=
            Z.min sched (act ÷ (if g =? GRADE_LESS_BIG then 3 else 2)) in
          let r := if 2 * ni <? 5 * DAY then DAY else ni in
          if r <? DAY then DAY else r).
Proof. intros [->| ->]; reflexivity. Qed.

Lemma retention_interval_same sched act :
  retention_interval GRADE_SAME sched act
  = Some (if act <? DAY then DAY else act).
Proof. reflexivity. Qed.

Lemma retention_interval_more g sched act :
  g = GRADE_MORE_SMALL \/ g = GRADE_MORE_BIG ->
  retention_interval g sched act
  = Some (let r :=
            Z.max (act * (if g =? GRADE_MORE_BIG then 3 else 2)) (2 * DAY) in
          if r <? DAY then DAY else r).
Proof. intros [->| ->]; reflexivity. Qed.

Ltac split_ltb :=
  repeat match goal with
         | |- context [if ?b <? ?c then _ else _] =>
             let E := fresh "E" in
             destruct (b <? c) eqn:E;
             [apply Z.ltb_lt in E|apply Z.ltb_ge in E]
         | H : context [if ?b <? ?c then _ else _] |- _ =>
             let E := fresh "E" in
             destruct (b <? c) eqn:E;
             [apply Z.ltb_lt in E|apply Z.ltb_ge in E]
         end.

Lemma retention_interval_mono g1 g2 sched act n1 n2 :
  1 <= g1 -> g1 <= g2 -> g2 <= 5 ->
  retention_interval g1 sched act = Some n1 ->
  retention_interval g2 sched act = Some n2 ->
  n1 <= n2.
Proof.
  intros H1 H12 H2 R1 R2.
  enough (H : match retention_interval g1 sched act,
                    retention_interval g2 sched act with
              | Some x, Some y => x <= y
              | _, _ => True
              end) by (now rewrite R1, R2 in H).
  clear R1 R2.
  pose proof (quot_2_3 act) as [Hpos Hneg]. pose proof DAY_pos as HD.
  assert (E1 : g1 = 1 \/ g1 = 2 \/ g1 = 3 \/ g1 = 4 \/ g1 = 5) by lia.
  assert (E2 : g2 = 1 \/ g2 = 2 \/ g2 = 3 \/ g2 = 4 \/ g2 = 5) by lia.
  assert (F1 : forall g, g = 1 \/ g = 2 ->
               retention_interval g sched act
               = Some (let ni := Z.min sched
                                   (act ÷ (if g =? 1 then 3 else 2)) in
                       let r := if 2 * ni <? 5 * DAY then DAY else ni in
                       if r <? DAY then DAY else r))
    by (intros g Hg; apply retention_interval_less; exact Hg).
  assert (F2 : forall g, g = 4 \/ g = 5 ->
               retention_interval g sched act
               = Some (let r := Z.max (act * (if g =? 5 then 3 else 2))
                                  (2 * DAY) in
                       if r <? DAY then DAY else r))
    by (intros g Hg; apply retention_interval_more; exact Hg).
  assert (F3 : retention_interval 3 sched act
               = Some (if act <? DAY then DAY else act))
    by apply retention_interval_same.
  destruct (Z_lt_le_dec act 0) as [Ha|Ha];
    [specialize (Hneg Ha); clear Hpos|specialize (Hpos Ha); clear Hneg];
    (destruct E1 as [->|[->|[->|[->| ->]]]];
     destruct E2 as [->|[->|[->|[->| ->]]]]; try lia;
     rewrite ?F3, ?(F1 1), ?(F1 2), ?(F2 4), ?(F2 5) by auto;
     clear F1 F2 F3;
     cbv zeta; change (1 =? 1) with true; change (2 =? 1) with false;
     change (4 =? 5) with false; change (5 =? 5) with true; cbv iota;
     split_ltb; lia).
Qed.

Lemma retention_interval_lower g sched act n :
  retention_interval g sched act = Some n -> DAY <= n.
Proof.
  unfold retention_interval.
  destruct (if (g =? GRADE_MORE_SMALL) || (g =? GRADE_MORE_BIG) then _
            else _) as [x|]; [|discriminate].
  intros [= <-]. destruct (Z.ltb_spec x DAY); lia.
Qed.

Lemma initial_interval_values :
  calculate_initial_interval 1 = Some DAY /\
  calculate_initial_interval 2 = Some DAY /\
  calculate_initial_interval 3 = Some DAY /\
  calculate_initial_interval 4 = Some (2 * DAY) /\
  calculate_initial_interval 5 = Some (4 * DAY).
Proof. repeat split; reflexivity. Qed.

Lemma acquired_interval_values :
  acquired_interval 1 = Some DAY /\
  acquired_interval 2 = Some DAY /\
  acquired_interval 3 = Some DAY /\
  acquired_interval 4 = Some (2 * DAY) /\
  acquired_interval 5 = Some (4 * DAY).
Proof. repeat split; reflexivity. Qed.

Lemma transition_interval_mono c g1 g2 sched act n1 n2 :
  0 <= g1 -> g1 <= g2 -> g2 <= 5 ->
  transition_interval c g1 sched act = Some n1 ->
  transition_interval c g2 sched act = Some n2 ->
  n1 <= n2.
Proof.
  intros H1 H12 H2. pose proof DAY_pos as HD. pose proof DAY_value as HV.
  pose proof initial_interval_values as (I1 & I2 & I3 & I4 & I5).
  pose proof acquired_interval_values as (A1 & A2 & A3 & A4 & A5).
  destruct (Z.eq_dec g1 0) as [->|Hg1].
  { rewrite transition_interval_forgot. intros [= <-].
    unfold transition_interval, GRADE_FORGOT. rewrite !mem_singleton.
    destruct (grade c =? -1).
    - intros H. apply calculate_initial_interval_bounds in H. lia.
    - destruct (grade c =? 0), (g2 =? 0) eqn:E0; cbn [andb negb];
        try (intros [= <-]; lia).
      + apply Z.eqb_neq in E0.
        assert (E2 : g2 = 1 \/ g2 = 2 \/ g2 = 3 \/ g2 = 4 \/ g2 = 5) by lia.
        destruct E2 as [->|[->|[->|[->| ->]]]];
          rewrite ?A1, ?A2, ?A3, ?A4, ?A5; intros [= <-]; lia.
      + intros H. apply retention_interval_lower in H. lia. }
  unfold transition_interval, GRADE_FORGOT. rewrite !mem_singleton.
  replace (g1 =? 0) with false by (symmetry; apply Z.eqb_neq; lia).
  replace (g2 =? 0) with false by (symmetry; apply Z.eqb_neq; lia).
  assert (E1 : g1 = 1 \/ g1 = 2 \/ g1 = 3 \/ g1 = 4 \/ g1 = 5) by lia.
  assert (E2 : g2 = 1 \/ g2 = 2 \/ g2 = 3 \/ g2 = 4 \/ g2 = 5) by lia.
  destruct (grade c =? -1).
  - destruct E1 as [->|[->|[->|[->| ->]]]];
      destruct E2 as [->|[->|[->|[->| ->]]]]; try lia;
      rewrite ?I1, ?I2, ?I3, ?I4, ?I5; intros [= <-] [= <-]; lia.
  - destruct (grade c =? 0); cbn [andb negb].
    + destruct E1 as [->|[->|[->|[->| ->]]]];
        destruct E2 as [->|[->|[->|[->| ->]]]]; try lia;
        rewrite ?A1, ?A2, ?A3, ?A4, ?A5; intros [= <-] [= <-]; lia.
    + apply retention_interval_mono; lia.
Qed.

Lemma reminder_cap_mono : forall tags x y a b cx cy ax ay,
  x <= y ->
  reminder_cap tags x a = Some (cx, ax) ->
  reminder_cap tags y b = Some (cy, ay) ->
  cx <= cy.
Proof.
  induction tags as [|tag tags IH]; intros x y a b cx cy ax ay Hxy;
    cbn [reminder_cap].
  - intros [= <- _] [= <- _]. exact Hxy.
  - destruct (negb _); [now apply IH|].
    destruct (int_of_string _) as [n|]; [|discriminate].
    apply IH. lia.
Qed.

(** X23. A better grade never gives a shorter interval.  For grades
    [0 <= g1 <= g2 <= 5] on the same card at the same time, the interval
    of [g1] before the noise is at most that of [g2]; with the same
    random draw the intervals returned differ by the noise of one of them
    at most, which is two days. *)
Theorem grade_answer_better_grade
    fuel db pf env g1 g2 dry st v1 st1 v2 st2 :
  0 <= g1 -> g1 <= g2 -> g2 <= 5 ->
  grade_answer fuel db pf env g1 dry st = Returned v1 st1 ->
  grade_answer fuel db pf env g2 dry st = Returned v2 st2 ->
  let c := graded_card env dry (g_card st) in
  exists b1 a1 b2 a2,
    interval_before_noise c g1 (scheduled_interval_of pf env c)
      (actual_interval_of env c) = Some (b1, a1) /\
    interval_before_noise c g2 (scheduled_interval_of pf env c)
      (actual_interval_of env c) = Some (b2, a2) /\
    b1 <= b2 /\
    v1 <= v2 + 2 * DAY.
Proof.
  intros H1 H12 H2 R1 R2 c.
  apply grade_answer_before_noise in R1, R2. fold c in R1, R2.
  destruct R1 as (b1 & a1 & E1 & ->), R2 as (b2 & a2 & E2 & ->).
  exists b1, a1, b2, a2. split; [exact E1|]. split; [exact E2|].
  assert (Hb : b1 <= b2).
  { unfold interval_before_noise in E1, E2.
    destruct (transition_interval c g1 _ _) as [n1|] eqn:T1; [|discriminate].
    destruct (transition_interval c g2 _ _) as [n2|] eqn:T2; [|discriminate].
    pose proof (transition_interval_mono c g1 g2 _ _ n1 n2 H1 H12 H2 T1 T2)
      as Hn.
    assert (Hc : clamp_increase (scheduled_interval_of pf env c)
                   (clamp_total n1)
                 <= clamp_increase (scheduled_interval_of pf env c)
                      (clamp_total n2))
      by (unfold clamp_increase, clamp_total; lia).
    exact (reminder_cap_mono _ _ _ _ _ _ _ _ _ Hc E1 E2). }
  split; [exact Hb|].
  pose proof DAY_pos as HD.
  pose proof (noise_bounds _ (random_choice_noise (random_draw env))) as Hn.
  unfold with_noise. fold noise_choices.
  destruct (add_noise_of g1 b1 a1), (add_noise_of g2 b2 a2); nia.
Qed.

Lemma grade_answer_better_grade_witness :
  exists v1 st1 v2 st2 b1 a1 b2 a2,
    grade_answer 0 (store_of []) utc env_10_first GRADE_LESS_SMALL true
      (start_state card_10 (reset false)) = Returned v1 st1 /\
    grade_answer 0 (store_of []) utc env_10_first GRADE_MORE_BIG true
      (start_state card_10 (reset false)) = Returned v2 st2 /\
    interval_before_noise card_10 GRADE_LESS_SMALL
      (scheduled_interval_of utc env_10_first card_10)
      (actual_interval_of env_10_first card_10) = Some (b1, a1) /\
    interval_before_noise card_10 GRADE_MORE_BIG
      (scheduled_interval_of utc env_10_first card_10)
      (actual_interval_of env_10_first card_10) = Some (b2, a2) /\
    b1 <= b2 /\ v1 <= v2 + 2 * DAY.
Proof.
  assert (E1 : exists v1 st1,
            grade_answer 0 (store_of []) utc env_10_first GRADE_LESS_SMALL
              true (start_state card_10 (reset false)) = Returned v1 st1)
    by (vm_compute; do 2 eexists; reflexivity).
  assert (E2 : exists v2 st2,
            grade_answer 0 (store_of []) utc env_10_first GRADE_MORE_BIG
              true (start_state card_10 (reset false)) = Returned v2 st2)
    by (vm_compute; do 2 eexists; reflexivity).
  destruct E1 as (v1 & st1 & E1), E2 as (v2 & st2 & E2).
  assert (H1 : 0 <= GRADE_LESS_SMALL) by discriminate.
  assert (H12 : GRADE_LESS_SMALL <= GRADE_MORE_BIG) by discriminate.
  assert (H2 : GRADE_MORE_BIG <= 5) by discriminate.
  destruct (grade_answer_better_grade _ _ _ _ _ _ _ _ _ _ _ _
              H1 H12 H2 E1 E2)
    as (b1 & a1 & b2 & a2 & B1 & B2 & Hb & Hv).
  exists v1, st1, v2, st2, b1, a1, b2, a2.
  repeat split; assumption.
Defined.

(** * Nothing to show *)

Lemma next_card_loop_none db pf now la last : forall fuel id s s',
  next_card_loop fuel db pf now la last id s = Some (NoCard s') ->
  _card_ids_in_queue s' = [] /\
  exists s0, _card_ids_in_queue s0 = [] /\
             s' = rebuild_queue db pf now la s0.
Proof.
  induction fuel as [|fuel IH]; intros id s s'; cbn [next_card_loop];
    [discriminate|].
  destruct (id =? last); [|discriminate].
  destruct (_card_ids_in_queue s) as [|next queue'] eqn:Eq.
  - destruct (_card_ids_in_queue (rebuild_queue db pf now la s))
      as [|next queue'] eqn:Eq1.
    + intros [= <-]. split; [exact Eq1|]. exists s. auto.
    + destruct (set_eqb _ _); [discriminate|]. apply IH.
  - apply IH.
Qed.

(** X24. When [next_card] returns [None] there is nothing to show: the
    queue it leaves is empty, and is the one [rebuild_queue] has just
    built from an empty queue.  And when the queue is empty and
    [rebuild_queue] builds an empty one, [next_card] returns [None] at
    once. *)
Theorem next_card_none fuel db pf now la s :
  (forall s', next_card fuel db pf now la s = Some (NoCard s') ->
     _card_ids_in_queue s' = [] /\
     exists s0, _card_ids_in_queue s0 = [] /\
                s' = rebuild_queue db pf now la s0) /\
  (_card_ids_in_queue s = [] ->
   _card_ids_in_queue (rebuild_queue db pf now la s) = [] ->
   next_card fuel db pf now la s
   = Some (NoCard (rebuild_queue db pf now la s))).
Proof.
  split.
  - intros s'. unfold next_card.
    destruct (len (_card_ids_in_queue s) =? 0) eqn:E.
    + destruct (_card_ids_in_queue (rebuild_queue db pf now la s))
        as [|id queue'] eqn:Eq.
      * intros [= <-]. split; [exact Eq|]. exists s. split; [|reflexivity].
        apply Z.eqb_eq in E. unfold len in E.
        destruct (_card_ids_in_queue s); [reflexivity|discriminate].
      * destruct (truthy _); [|discriminate].
        destruct (_card_id_last _); [|discriminate].
        apply next_card_loop_none.
    + destruct (_card_ids_in_queue s) as [|id queue'] eqn:Eq;
        [discriminate|].
      destruct (truthy _); [|discriminate].
      destruct (_card_id_last _); [|discriminate].
      apply next_card_loop_none.
  - intros Hq Hr. unfold next_card. rewrite Hq.
    change (len (@nil Z) =? 0) with true. cbv iota. now rewrite Hr.
Qed.

Lemma next_card_none_witness :
  next_card 0 (store_of []) utc 0 false (reset false)
  = Some (NoCard (rebuild_queue (store_of []) utc 0 false (reset false))).
Proof.
  apply (next_card_none 0 (store_of []) utc 0 false (reset false));
    reflexivity.
Defined.

(** * The cards to relearn *)

Lemma add_non_memorised_first : forall rows cards facts n,
  n <= 50 ->
  add_non_memorised rows 50 cards facts n
  = (cards ++ twice (firstn (Z.to_nat (50 - n)) (first_of_fact rows facts)),
     facts
     ++ map snd (firstn (Z.to_nat (50 - n)) (first_of_fact rows facts)),
     n + len (firstn (Z.to_nat (50 - n)) (first_of_fact rows facts))).
Proof.
  unfold twice.
  induction rows as [|[c f] rows IH]; intros cards facts n Hn;
    cbn [add_non_memorised first_of_fact].
  - rewrite firstn_nil. cbn. rewrite !app_nil_r. f_equal; lia.
  - destruct (mem f facts); cbn [negb]; [now apply IH|].
    destruct (n <? 50) eqn:E; [apply Z.ltb_lt in E|apply Z.ltb_ge in E].
    + replace (Z.to_nat (50 - n)) with (S (Z.to_nat (50 - (n + 1))))
        by lia.
      cbn [firstn flat_map map fst snd app].
      destruct (n + 1 =? 50) eqn:E1.
      * apply Z.eqb_eq in E1.
        replace (Z.to_nat (50 - (n + 1))) with 0%nat by lia.
        cbn [firstn flat_map map app]. unfold len. cbn [List.length].
        f_equal; lia.
      * rewrite IH by lia.
        rewrite <- !app_assoc. cbn [app]. unfold len. cbn [List.length].
        f_equal; lia.
    + assert (n = 50) by lia. subst n. cbn.
      rewrite !app_nil_r. reflexivity.
Qed.

Lemma add_non_memorised_appends rows limit : forall cards facts n,
  exists extra,
    fst (fst (add_non_memorised rows limit cards facts n)) = cards ++ extra.
Proof.
  induction rows as [|[c f] rows IH]; intros cards facts n;
    cbn [add_non_memorised].
  - exists []. now rewrite app_nil_r.
  - destruct (negb (mem f facts)); [|apply IH].
    destruct (n <? limit).
    + destruct (n + 1 =? limit).
      * cbn. eauto.
      * destruct (IH (cards ++ [c] ++ [c]) (facts ++ [f]) (n + 1))
          as (extra & Hx).
        rewrite Hx. rewrite <- app_assoc. eauto.
    + destruct (n =? limit); [|apply IH].
      exists []. cbn. now rewrite app_nil_r.
Qed.

Lemma add_unseen_appends rows limit skip : forall cards facts n,
  exists extra,
    fst (fst (fst (add_unseen rows limit skip cards facts n)))
    = cards ++ extra.
Proof.
  induction rows as [|[c f] rows IH]; intros cards facts n;
    cbn [add_unseen].
  - exists []. now rewrite app_nil_r.
  - destruct (negb (mem f facts) && negb (mem f skip)); [|apply IH].
    destruct (n + 1 =? limit).
    + cbn. eauto.
    + destruct (IH (cards ++ [c]) (facts ++ [f]) (n + 1)) as (extra & Hx).
      rewrite Hx. rewrite <- app_assoc. eauto.
Qed.

Lemma extends_refl s : extends s s.
Proof. exists []. now rewrite app_nil_r. Qed.

Lemma extends_trans a b c : extends a b -> extends b c -> extends a c.
Proof.
  intros (r1 & H1) (r2 & H2). exists (r1 ++ r2).
  rewrite H2, H1. now rewrite app_assoc.
Qed.

Lemma rebuild_stage5_extends db pf now la s :
  extends s (rebuild_stage5 db pf now la s).
Proof.
  unfold rebuild_stage5, extends. destruct (negb la).
  - exists []. cbn. now rewrite app_nil_r.
  - rewrite add_learn_ahead_learnt. cbn. eauto.
Qed.

Lemma rebuild_stage4_extends db pf now la limit n s :
  extends s (rebuild_stage4 db pf now la limit n s).
Proof.
  unfold rebuild_stage4.
  destruct (stage s <=? 4); [|apply rebuild_stage5_extends].
  pose proof (add_unseen_appends (cards_unseen db limit) limit
                (_fact_ids_memorised s) (_card_ids_in_queue s)
                (_fact_ids_in_queue s) n) as (x1 & H1).
  destruct (add_unseen _ _ _ _ _ _) as [[[cards facts] n1] hit].
  cbn [fst] in H1. subst cards.
  assert (E1 : forall s', _card_ids_in_queue s' = _card_ids_in_queue s ++ x1 ->
               extends s s') by (intros s' Hs'; exists x1; exact Hs').
  destruct hit; [now apply E1|].
  cbn [_card_ids_in_queue _fact_ids_in_queue set_queue].
  destruct (len facts <=? 2).
  - pose proof (add_unseen_appends (cards_unseen db limit) limit []
                  (_card_ids_in_queue s ++ x1) facts n1) as (x2 & H2).
    destruct (add_unseen _ _ _ _ _ _) as [[[cards2 facts2] n2] hit2].
    cbn [fst] in H2. subst cards2.
    assert (E2 : forall s',
               _card_ids_in_queue s' = (_card_ids_in_queue s ++ x1) ++ x2 ->
               extends s s').
    { intros s' Hs'. exists (x1 ++ x2). now rewrite app_assoc. }
    destruct hit2; [now apply E2|].
    eapply extends_trans; [|apply rebuild_stage5_extends].
    apply E2. now destruct (len _ =? 0).
  - eapply extends_trans; [|apply rebuild_stage5_extends].
    apply E1. now destruct (len _ =? 0).
Qed.

Lemma rebuild_stage3_extends db pf now la limit n s :
  extends s (rebuild_stage3 db pf now la limit n s).
Proof.
  unfold rebuild_stage3.
  destruct (stage s <=? 3); [|apply rebuild_stage4_extends].
  pose proof (add_non_memorised_appends (cards_new_memorising db GRADE_FORGOT)
                limit (_card_ids_in_queue s) (_fact_ids_in_queue s) n)
    as (x1 & H1).
  destruct (add_non_memorised _ _ _ _ _) as [[cards facts] n1].
  cbn [fst] in H1. subst cards.
  assert (E1 : forall s', _card_ids_in_queue s' = _card_ids_in_queue s ++ x1 ->
               extends s s') by (intros s' Hs'; exists x1; exact Hs').
  destruct (n1 =? limit); [now apply E1|].
  eapply extends_trans; [|apply rebuild_stage4_extends].
  apply E1. now destruct (len _ =? 0).
Qed.

(** X25. The cards to relearn come first, twice each.  When no card is
    due, or stage 1 is over, a rebuild in stage 2 starts the queue with
    the rows of [cards_to_relearn], in the order of the store, every card
    twice in a row; a row whose fact came before is left out, and 50
    rows are taken at most, after which nothing follows. *)
Theorem rebuild_queue_relearn_first db pf now la s :
  is_loaded db = true -> active_count db <> 0 ->
  stage s = 2 \/
  (stage s = 1 /\
   cards_due_for_ret_rep db (adjusted_now pf now) "-interval" 50 = []) ->
  let kept :=
    firstn 50 (first_of_fact (cards_to_relearn db GRADE_FORGOT "last_rep")
                 []) in
  exists rest,
    _card_ids_in_queue (rebuild_queue db pf now la s) = twice kept ++ rest /\
    (len kept = 50 -> rest = []).
Proof.
  intros Hl Ha Hs kept.
  unfold rebuild_queue. rewrite Hl. apply Z.eqb_neq in Ha. rewrite Ha.
  cbn [negb orb].
  set (s0 := set_in_learn_ahead false (set_queue [] [] s)).
  assert (H2 : forall s1,
             stage s1 = 2 -> _card_ids_in_queue s1 = [] ->
             _fact_ids_in_queue s1 = [] ->
             exists rest,
               _card_ids_in_queue (rebuild_stage2 db pf now la s1)
               = twice kept ++ rest /\
               (len kept = 50 -> rest = [])).
  { intros s1 Hst Hq Hf. unfold rebuild_stage2. rewrite Hst, Hq, Hf.
    cbn [Z.eqb Pos.eqb].
    rewrite add_non_memorised_first by lia.
    change (Z.to_nat (50 - 0)) with 50%nat. fold kept. cbn [app].
    rewrite Z.add_0_l.
    destruct (len kept =? 50) eqn:E.
    - exists []. cbn. rewrite app_nil_r. auto.
    - apply Z.eqb_neq in E.
      match goal with
      | |- context [rebuild_stage3 _ _ _ _ _ _ ?s2] =>
          destruct (rebuild_stage3_extends db pf now la 50 (len kept) s2)
            as (rest & Hrest);
          assert (Hq2 : _card_ids_in_queue s2 = twice kept)
            by (now destruct (len _ =? 0))
      end.
      exists rest. rewrite Hrest, Hq2. split; [reflexivity|].
      intros. contradiction. }
  unfold rebuild_stage1.
  change (stage s0) with (stage s).
  destruct Hs as [Hs|[Hs Hdue]]; rewrite Hs; cbn [Z.eqb Pos.eqb].
  - apply H2; auto.
  - rewrite Hdue. cbn [map app]. cbn [_card_ids_in_queue set_queue s0
                                     set_in_learn_ahead].
    change (negb (len (@nil Z) =? 0)) with false. cbv iota.
    apply H2; reflexivity.
Qed.

Lemma rebuild_queue_relearn_first_witness :
  exists rest,
    _card_ids_in_queue
      (rebuild_queue (relearn_store [(1, 7); (2, 7); (3, 8)]) utc 0 false
         (reset false))
    = twice (firstn 50 (first_of_fact [(1, 7); (2, 7); (3, 8)] [])) ++ rest /\
    (len (firstn 50 (first_of_fact [(1, 7); (2, 7); (3, 8)] [])) = 50 ->
     rest = []).
Proof.
  apply (rebuild_queue_relearn_first (relearn_store [(1, 7); (2, 7); (3, 8)])
           utc 0 false (reset false)).
  - reflexivity.
  - discriminate.
  - right. split; reflexivity.
Defined.

(** Cards 1 and 2 are sister cards: card 2 is left out, and cards 1 and 3
    come twice each. *)
Example relearn_twice_each :
  _card_ids_in_queue
    (rebuild_queue (relearn_store [(1, 7); (2, 7); (3, 8)]) utc 0 false
       (reset false)) = [1; 1; 3; 3].
Proof. reflexivity. Qed.
